(** * Azure Container App Job action: a shallow embedding of the JavaScript
      sources (config.js, utils.js, input.js, job.js, main.js) and the
      properties of the specification checked against it.

    Conventions of the embedding.
    - A JavaScript string is the [string] of its UTF-8 bytes; the string
      methods that look at characters ([toLowerCase], [toUpperCase],
      [trim], [split(/\s+/)], [parseInt]) work on its code points, with
      the white space of ECMAScript and the case data of Unicode 14.0.
    - A value that came out of [JSON.parse] is a [JsVal]; an object is the
      list of its own enumerable entries in [Object.entries] order.
    - Integers ([Date.now()], [parseInt] results, exit codes) are [Z];
      [None] stands for [NaN] or [undefined] where the source can see one.
    - Effects are a trace of events (log lines, outputs, remote calls)
      together with a result that is a value, a thrown error, or the
      exhaustion of the fuel that bounds the polling loop. *)

From Stdlib Require Import String Ascii List ZArith NArith Bool Lia.
From Stdlib Require Import DecimalString QArith.
Import ListNotations.
Close Scope Q_scope.
Open Scope string_scope.
Open Scope list_scope.

(* ===================================================================== *)
(** ** Strings as UTF-8 *)
(* ===================================================================== *)

(** A JavaScript string is held as the [string] of its UTF-8 bytes (a
    lone surrogate in its three-byte form); its characters are its code
    points.  Bytes that are not the UTF-8 form of a character read as
    U+FFFD, as when a decoder meets them. *)
Module Utf8.

Definition code (c : ascii) : N := N_of_ascii c.

Definition replacement : N := 0xFFFD.

(** A continuation byte [10xxxxxx]. *)
Definition continuation (c : ascii) : bool :=
  (0x80 <=? code c)%N && (code c <? 0xC0)%N.

(** The character that starts with the byte [b0] followed by [r], and
    the number of bytes of [r] that belong to it. *)
Definition head (b0 : ascii) (r : string) : N * nat :=
  let n0 := code b0 in
  if (n0 <? 0x80)%N then (n0, 0)
  else
    match r with
    | String b1 r1 =>
        let n1 := (code b1 - 0x80)%N in
        if negb (continuation b1) then (replacement, 0)
        else if (n0 <? 0xE0)%N then
          if (0xC2 <=? n0)%N then (((n0 - 0xC0) * 64 + n1)%N, 1)
          else (replacement, 0)
        else
          match r1 with
          | String b2 r2 =>
              let n2 := (code b2 - 0x80)%N in
              if negb (continuation b2) then (replacement, 0)
              else if (n0 <? 0xF0)%N then
                let p := ((n0 - 0xE0) * 4096 + n1 * 64 + n2)%N in
                if (0x800 <=? p)%N then (p, 2) else (replacement, 0)
              else
                match r2 with
                | String b3 _ =>
                    let n3 := (code b3 - 0x80)%N in
                    let p := ((n0 - 0xF0) * 262144 + n1 * 4096
                              + n2 * 64 + n3)%N in
                    if continuation b3 && (0x10000 <=? p)%N
                       && (p <? 0x110000)%N
                    then (p, 3) else (replacement, 0)
                | EmptyString => (replacement, 0)
                end
          | EmptyString => (replacement, 0)
          end
    | EmptyString => (replacement, 0)
    end.

Fixpoint decode_from (skip : nat) (s : string) : list N :=
  match s with
  | EmptyString => []
  | String b r =>
      match skip with
      | S k => decode_from k r
      | O => let (p, k) := head b r in p :: decode_from k r
      end
  end.

(** The characters of a string. *)
Definition decode (s : string) : list N := decode_from 0 s.

Definition byte (n : N) : ascii := ascii_of_N n.

(** The bytes of a character. *)
Definition encode1 (p : N) : string :=
  if (p <? 0x80)%N then String (byte p) EmptyString
  else if (p <? 0x800)%N then
    String (byte (0xC0 + p / 64))
      (String (byte (0x80 + p mod 64)) EmptyString)
  else if (p <? 0x10000)%N then
    String (byte (0xE0 + p / 4096))
      (String (byte (0x80 + (p / 64) mod 64))
         (String (byte (0x80 + p mod 64)) EmptyString))
  else
    String (byte (0xF0 + p / 262144))
      (String (byte (0x80 + (p / 4096) mod 64))
         (String (byte (0x80 + (p / 64) mod 64))
            (String (byte (0x80 + p mod 64)) EmptyString))).

(** The string of a list of characters. *)
Fixpoint encode (l : list N) : string :=
  match l with
  | [] => EmptyString
  | p :: r => (encode1 p ++ encode r)%string
  end.

(** A string that is the UTF-8 form of its characters: every string
    the engine can hold. *)
Definition well_formed (s : string) : bool := encode (decode s) =? s.

(** The UTF-16 code units of a character, each as a character of its
    own: what indexing a string yields. *)
Definition units (p : N) : list N :=
  if (p <? 0x10000)%N then [p]
  else [(0xD800 + (p - 0x10000) / 1024)%N;
        (0xDC00 + (p - 0x10000) mod 1024)%N].

End Utf8.

(* ===================================================================== *)
(** ** Unicode data *)
(* ===================================================================== *)

(** The character data the string methods of the engine consult: the
    white space of [trim] and [\s], and the case mappings and case
    properties of Unicode 14.0 (UnicodeData.txt, SpecialCasing.txt,
    DerivedCoreProperties.txt) behind [toLowerCase] and [toUpperCase]. *)
Module Unicode.

Local Open Scope N_scope.

(** WhiteSpace and LineTerminator of ECMAScript: the characters [trim]
    strips and [\s] matches. *)
Definition white_space (p : N) : bool :=
  ((0x9 <=? p) && (p <=? 0xD)) || (p =? 0x20) || (p =? 0xA0)
  || (p =? 0x1680) || ((0x2000 <=? p) && (p <=? 0x200A))
  || (p =? 0x2028) || (p =? 0x2029) || (p =? 0x202F) || (p =? 0x205F)
  || (p =? 0x3000) || (p =? 0xFEFF).

Definition in_ranges (p : N) (ranges : list (N * N)) : bool :=
  existsb (fun r => (fst r <=? p) && (p <=? snd r)) ranges.

(** A run [(first, count, step, image)] maps [first + k * step] to
    [image + k * step] for [k < count]. *)
Definition expand_run (run : N * N * N * N) : list (N * N) :=
  let '(first, count, step, image) := run in
  map (fun k => (first + N.of_nat k * step, image + N.of_nat k * step))
      (seq 0%nat (N.to_nat count)).

Definition lookup (p : N) (table : list (N * N)) : N :=
  match find (fun entry => fst entry =? p) table with
  | Some entry => snd entry
  | None => p
  end.

(** Simple lower-case mappings. *)
Definition lower_runs : list (N * N * N * N) :=
  [
   (0x41, 26, 1, 0x61); (0xC0, 23, 1, 0xE0); (0xD8, 7, 1, 0xF8);
   (0x100, 24, 2, 0x101); (0x132, 3, 2, 0x133); (0x139, 8, 2, 0x13A);
   (0x14A, 23, 2, 0x14B); (0x178, 1, 1, 0xFF); (0x179, 3, 2, 0x17A);
   (0x181, 1, 1, 0x253); (0x182, 2, 2, 0x183); (0x186, 1, 1, 0x254);
   (0x187, 1, 1, 0x188); (0x189, 2, 1, 0x256); (0x18B, 1, 1, 0x18C);
   (0x18E, 1, 1, 0x1DD); (0x18F, 1, 1, 0x259); (0x190, 1, 1, 0x25B);
   (0x191, 1, 1, 0x192); (0x193, 1, 1, 0x260); (0x194, 1, 1, 0x263);
   (0x196, 1, 1, 0x269); (0x197, 1, 1, 0x268); (0x198, 1, 1, 0x199);
   (0x19C, 1, 1, 0x26F); (0x19D, 1, 1, 0x272); (0x19F, 1, 1, 0x275);
   (0x1A0, 3, 2, 0x1A1); (0x1A6, 1, 1, 0x280); (0x1A7, 1, 1, 0x1A8);
   (0x1A9, 1, 1, 0x283); (0x1AC, 1, 1, 0x1AD); (0x1AE, 1, 1, 0x288);
   (0x1AF, 1, 1, 0x1B0); (0x1B1, 2, 1, 0x28A); (0x1B3, 2, 2, 0x1B4);
   (0x1B7, 1, 1, 0x292); (0x1B8, 1, 1, 0x1B9); (0x1BC, 1, 1, 0x1BD);
   (0x1C4, 1, 1, 0x1C6); (0x1C5, 1, 1, 0x1C6); (0x1C7, 1, 1, 0x1C9);
   (0x1C8, 1, 1, 0x1C9); (0x1CA, 1, 1, 0x1CC); (0x1CB, 9, 2, 0x1CC);
   (0x1DE, 9, 2, 0x1DF); (0x1F1, 1, 1, 0x1F3); (0x1F2, 2, 2, 0x1F3);
   (0x1F6, 1, 1, 0x195); (0x1F7, 1, 1, 0x1BF); (0x1F8, 20, 2, 0x1F9);
   (0x220, 1, 1, 0x19E); (0x222, 9, 2, 0x223); (0x23A, 1, 1, 0x2C65);
   (0x23B, 1, 1, 0x23C); (0x23D, 1, 1, 0x19A); (0x23E, 1, 1, 0x2C66);
   (0x241, 1, 1, 0x242); (0x243, 1, 1, 0x180); (0x244, 1, 1, 0x289);
   (0x245, 1, 1, 0x28C); (0x246, 5, 2, 0x247); (0x370, 2, 2, 0x371);
   (0x376, 1, 1, 0x377); (0x37F, 1, 1, 0x3F3); (0x386, 1, 1, 0x3AC);
   (0x388, 3, 1, 0x3AD); (0x38C, 1, 1, 0x3CC); (0x38E, 2, 1, 0x3CD);
   (0x391, 17, 1, 0x3B1); (0x3A3, 9, 1, 0x3C3); (0x3CF, 1, 1, 0x3D7);
   (0x3D8, 12, 2, 0x3D9); (0x3F4, 1, 1, 0x3B8); (0x3F7, 1, 1, 0x3F8);
   (0x3F9, 1, 1, 0x3F2); (0x3FA, 1, 1, 0x3FB); (0x3FD, 3, 1, 0x37B);
   (0x400, 16, 1, 0x450); (0x410, 32, 1, 0x430); (0x460, 17, 2, 0x461);
   (0x48A, 27, 2, 0x48B); (0x4C0, 1, 1, 0x4CF); (0x4C1, 7, 2, 0x4C2);
   (0x4D0, 48, 2, 0x4D1); (0x531, 38, 1, 0x561); (0x10A0, 38, 1, 0x2D00);
   (0x10C7, 1, 1, 0x2D27); (0x10CD, 1, 1, 0x2D2D);
   (0x13A0, 80, 1, 0xAB70); (0x13F0, 6, 1, 0x13F8);
   (0x1C90, 43, 1, 0x10D0); (0x1CBD, 3, 1, 0x10FD);
   (0x1E00, 75, 2, 0x1E01); (0x1E9E, 1, 1, 0xDF); (0x1EA0, 48, 2, 0x1EA1);
   (0x1F08, 8, 1, 0x1F00); (0x1F18, 6, 1, 0x1F10); (0x1F28, 8, 1, 0x1F20);
   (0x1F38, 8, 1, 0x1F30); (0x1F48, 6, 1, 0x1F40); (0x1F59, 4, 2, 0x1F51);
   (0x1F68, 8, 1, 0x1F60); (0x1F88, 8, 1, 0x1F80); (0x1F98, 8, 1, 0x1F90);
   (0x1FA8, 8, 1, 0x1FA0); (0x1FB8, 2, 1, 0x1FB0); (0x1FBA, 2, 1, 0x1F70);
   (0x1FBC, 1, 1, 0x1FB3); (0x1FC8, 4, 1, 0x1F72); (0x1FCC, 1, 1, 0x1FC3);
   (0x1FD8, 2, 1, 0x1FD0); (0x1FDA, 2, 1, 0x1F76); (0x1FE8, 2, 1, 0x1FE0);
   (0x1FEA, 2, 1, 0x1F7A); (0x1FEC, 1, 1, 0x1FE5); (0x1FF8, 2, 1, 0x1F78);
   (0x1FFA, 2, 1, 0x1F7C); (0x1FFC, 1, 1, 0x1FF3); (0x2126, 1, 1, 0x3C9);
   (0x212A, 1, 1, 0x6B); (0x212B, 1, 1, 0xE5); (0x2132, 1, 1, 0x214E);
   (0x2160, 16, 1, 0x2170); (0x2183, 1, 1, 0x2184);
   (0x24B6, 26, 1, 0x24D0); (0x2C00, 48, 1, 0x2C30);
   (0x2C60, 1, 1, 0x2C61); (0x2C62, 1, 1, 0x26B); (0x2C63, 1, 1, 0x1D7D);
   (0x2C64, 1, 1, 0x27D); (0x2C67, 3, 2, 0x2C68); (0x2C6D, 1, 1, 0x251);
   (0x2C6E, 1, 1, 0x271); (0x2C6F, 1, 1, 0x250); (0x2C70, 1, 1, 0x252);
   (0x2C72, 1, 1, 0x2C73); (0x2C75, 1, 1, 0x2C76); (0x2C7E, 2, 1, 0x23F);
   (0x2C80, 50, 2, 0x2C81); (0x2CEB, 2, 2, 0x2CEC);
   (0x2CF2, 1, 1, 0x2CF3); (0xA640, 23, 2, 0xA641);
   (0xA680, 14, 2, 0xA681); (0xA722, 7, 2, 0xA723);
   (0xA732, 31, 2, 0xA733); (0xA779, 2, 2, 0xA77A);
   (0xA77D, 1, 1, 0x1D79); (0xA77E, 5, 2, 0xA77F); (0xA78B, 1, 1, 0xA78C);
   (0xA78D, 1, 1, 0x265); (0xA790, 2, 2, 0xA791); (0xA796, 10, 2, 0xA797);
   (0xA7AA, 1, 1, 0x266); (0xA7AB, 1, 1, 0x25C); (0xA7AC, 1, 1, 0x261);
   (0xA7AD, 1, 1, 0x26C); (0xA7AE, 1, 1, 0x26A); (0xA7B0, 1, 1, 0x29E);
   (0xA7B1, 1, 1, 0x287); (0xA7B2, 1, 1, 0x29D); (0xA7B3, 1, 1, 0xAB53);
   (0xA7B4, 8, 2, 0xA7B5); (0xA7C4, 1, 1, 0xA794); (0xA7C5, 1, 1, 0x282);
   (0xA7C6, 1, 1, 0x1D8E); (0xA7C7, 2, 2, 0xA7C8); (0xA7D0, 1, 1, 0xA7D1);
   (0xA7D6, 2, 2, 0xA7D7); (0xA7F5, 1, 1, 0xA7F6);
   (0xFF21, 26, 1, 0xFF41); (0x10400, 40, 1, 0x10428);
   (0x104B0, 36, 1, 0x104D8); (0x10570, 11, 1, 0x10597);
   (0x1057C, 15, 1, 0x105A3); (0x1058C, 7, 1, 0x105B3);
   (0x10594, 2, 1, 0x105BB); (0x10C80, 51, 1, 0x10CC0);
   (0x118A0, 32, 1, 0x118C0); (0x16E40, 32, 1, 0x16E60);
   (0x1E900, 34, 1, 0x1E922)
  ].

Definition lower_table : list (N * N) :=
  Eval vm_compute in flat_map expand_run lower_runs.

(** The lower-case form of a character outside any context. *)
Definition simple_lower (p : N) : N := lookup p lower_table.

(** Simple upper-case mappings. *)
Definition upper_runs : list (N * N * N * N) :=
  [
   (0x61, 26, 1, 0x41); (0xB5, 1, 1, 0x39C); (0xE0, 23, 1, 0xC0);
   (0xF8, 7, 1, 0xD8); (0xFF, 1, 1, 0x178); (0x101, 24, 2, 0x100);
   (0x131, 1, 1, 0x49); (0x133, 3, 2, 0x132); (0x13A, 8, 2, 0x139);
   (0x14B, 23, 2, 0x14A); (0x17A, 3, 2, 0x179); (0x17F, 1, 1, 0x53);
   (0x180, 1, 1, 0x243); (0x183, 2, 2, 0x182); (0x188, 1, 1, 0x187);
   (0x18C, 1, 1, 0x18B); (0x192, 1, 1, 0x191); (0x195, 1, 1, 0x1F6);
   (0x199, 1, 1, 0x198); (0x19A, 1, 1, 0x23D); (0x19E, 1, 1, 0x220);
   (0x1A1, 3, 2, 0x1A0); (0x1A8, 1, 1, 0x1A7); (0x1AD, 1, 1, 0x1AC);
   (0x1B0, 1, 1, 0x1AF); (0x1B4, 2, 2, 0x1B3); (0x1B9, 1, 1, 0x1B8);
   (0x1BD, 1, 1, 0x1BC); (0x1BF, 1, 1, 0x1F7); (0x1C5, 1, 1, 0x1C4);
   (0x1C6, 1, 1, 0x1C4); (0x1C8, 1, 1, 0x1C7); (0x1C9, 1, 1, 0x1C7);
   (0x1CB, 1, 1, 0x1CA); (0x1CC, 1, 1, 0x1CA); (0x1CE, 8, 2, 0x1CD);
   (0x1DD, 1, 1, 0x18E); (0x1DF, 9, 2, 0x1DE); (0x1F2, 1, 1, 0x1F1);
   (0x1F3, 1, 1, 0x1F1); (0x1F5, 1, 1, 0x1F4); (0x1F9, 20, 2, 0x1F8);
   (0x223, 9, 2, 0x222); (0x23C, 1, 1, 0x23B); (0x23F, 2, 1, 0x2C7E);
   (0x242, 1, 1, 0x241); (0x247, 5, 2, 0x246); (0x250, 1, 1, 0x2C6F);
   (0x251, 1, 1, 0x2C6D); (0x252, 1, 1, 0x2C70); (0x253, 1, 1, 0x181);
   (0x254, 1, 1, 0x186); (0x256, 2, 1, 0x189); (0x259, 1, 1, 0x18F);
   (0x25B, 1, 1, 0x190); (0x25C, 1, 1, 0xA7AB); (0x260, 1, 1, 0x193);
   (0x261, 1, 1, 0xA7AC); (0x263, 1, 1, 0x194); (0x265, 1, 1, 0xA78D);
   (0x266, 1, 1, 0xA7AA); (0x268, 1, 1, 0x197); (0x269, 1, 1, 0x196);
   (0x26A, 1, 1, 0xA7AE); (0x26B, 1, 1, 0x2C62); (0x26C, 1, 1, 0xA7AD);
   (0x26F, 1, 1, 0x19C); (0x271, 1, 1, 0x2C6E); (0x272, 1, 1, 0x19D);
   (0x275, 1, 1, 0x19F); (0x27D, 1, 1, 0x2C64); (0x280, 1, 1, 0x1A6);
   (0x282, 1, 1, 0xA7C5); (0x283, 1, 1, 0x1A9); (0x287, 1, 1, 0xA7B1);
   (0x288, 1, 1, 0x1AE); (0x289, 1, 1, 0x244); (0x28A, 2, 1, 0x1B1);
   (0x28C, 1, 1, 0x245); (0x292, 1, 1, 0x1B7); (0x29D, 1, 1, 0xA7B2);
   (0x29E, 1, 1, 0xA7B0); (0x345, 1, 1, 0x399); (0x371, 2, 2, 0x370);
   (0x377, 1, 1, 0x376); (0x37B, 3, 1, 0x3FD); (0x3AC, 1, 1, 0x386);
   (0x3AD, 3, 1, 0x388); (0x3B1, 17, 1, 0x391); (0x3C2, 1, 1, 0x3A3);
   (0x3C3, 9, 1, 0x3A3); (0x3CC, 1, 1, 0x38C); (0x3CD, 2, 1, 0x38E);
   (0x3D0, 1, 1, 0x392); (0x3D1, 1, 1, 0x398); (0x3D5, 1, 1, 0x3A6);
   (0x3D6, 1, 1, 0x3A0); (0x3D7, 1, 1, 0x3CF); (0x3D9, 12, 2, 0x3D8);
   (0x3F0, 1, 1, 0x39A); (0x3F1, 1, 1, 0x3A1); (0x3F2, 1, 1, 0x3F9);
   (0x3F3, 1, 1, 0x37F); (0x3F5, 1, 1, 0x395); (0x3F8, 1, 1, 0x3F7);
   (0x3FB, 1, 1, 0x3FA); (0x430, 32, 1, 0x410); (0x450, 16, 1, 0x400);
   (0x461, 17, 2, 0x460); (0x48B, 27, 2, 0x48A); (0x4C2, 7, 2, 0x4C1);
   (0x4CF, 1, 1, 0x4C0); (0x4D1, 48, 2, 0x4D0); (0x561, 38, 1, 0x531);
   (0x10D0, 43, 1, 0x1C90); (0x10FD, 3, 1, 0x1CBD);
   (0x13F8, 6, 1, 0x13F0); (0x1C80, 1, 1, 0x412); (0x1C81, 1, 1, 0x414);
   (0x1C82, 1, 1, 0x41E); (0x1C83, 2, 1, 0x421); (0x1C85, 1, 1, 0x422);
   (0x1C86, 1, 1, 0x42A); (0x1C87, 1, 1, 0x462); (0x1C88, 1, 1, 0xA64A);
   (0x1D79, 1, 1, 0xA77D); (0x1D7D, 1, 1, 0x2C63); (0x1D8E, 1, 1, 0xA7C6);
   (0x1E01, 75, 2, 0x1E00); (0x1E9B, 1, 1, 0x1E60);
   (0x1EA1, 48, 2, 0x1EA0); (0x1F00, 8, 1, 0x1F08);
   (0x1F10, 6, 1, 0x1F18); (0x1F20, 8, 1, 0x1F28); (0x1F30, 8, 1, 0x1F38);
   (0x1F40, 6, 1, 0x1F48); (0x1F51, 4, 2, 0x1F59); (0x1F60, 8, 1, 0x1F68);
   (0x1F70, 2, 1, 0x1FBA); (0x1F72, 4, 1, 0x1FC8); (0x1F76, 2, 1, 0x1FDA);
   (0x1F78, 2, 1, 0x1FF8); (0x1F7A, 2, 1, 0x1FEA); (0x1F7C, 2, 1, 0x1FFA);
   (0x1FB0, 2, 1, 0x1FB8); (0x1FBE, 1, 1, 0x399); (0x1FD0, 2, 1, 0x1FD8);
   (0x1FE0, 2, 1, 0x1FE8); (0x1FE5, 1, 1, 0x1FEC); (0x214E, 1, 1, 0x2132);
   (0x2170, 16, 1, 0x2160); (0x2184, 1, 1, 0x2183);
   (0x24D0, 26, 1, 0x24B6); (0x2C30, 48, 1, 0x2C00);
   (0x2C61, 1, 1, 0x2C60); (0x2C65, 1, 1, 0x23A); (0x2C66, 1, 1, 0x23E);
   (0x2C68, 3, 2, 0x2C67); (0x2C73, 1, 1, 0x2C72); (0x2C76, 1, 1, 0x2C75);
   (0x2C81, 50, 2, 0x2C80); (0x2CEC, 2, 2, 0x2CEB);
   (0x2CF3, 1, 1, 0x2CF2); (0x2D00, 38, 1, 0x10A0);
   (0x2D27, 1, 1, 0x10C7); (0x2D2D, 1, 1, 0x10CD);
   (0xA641, 23, 2, 0xA640); (0xA681, 14, 2, 0xA680);
   (0xA723, 7, 2, 0xA722); (0xA733, 31, 2, 0xA732);
   (0xA77A, 2, 2, 0xA779); (0xA77F, 5, 2, 0xA77E); (0xA78C, 1, 1, 0xA78B);
   (0xA791, 2, 2, 0xA790); (0xA794, 1, 1, 0xA7C4);
   (0xA797, 10, 2, 0xA796); (0xA7B5, 8, 2, 0xA7B4);
   (0xA7C8, 2, 2, 0xA7C7); (0xA7D1, 1, 1, 0xA7D0); (0xA7D7, 2, 2, 0xA7D6);
   (0xA7F6, 1, 1, 0xA7F5); (0xAB53, 1, 1, 0xA7B3);
   (0xAB70, 80, 1, 0x13A0); (0xFF41, 26, 1, 0xFF21);
   (0x10428, 40, 1, 0x10400); (0x104D8, 36, 1, 0x104B0);
   (0x10597, 11, 1, 0x10570); (0x105A3, 15, 1, 0x1057C);
   (0x105B3, 7, 1, 0x1058C); (0x105BB, 2, 1, 0x10594);
   (0x10CC0, 51, 1, 0x10C80); (0x118C0, 32, 1, 0x118A0);
   (0x16E60, 32, 1, 0x16E40); (0x1E922, 34, 1, 0x1E900)
  ].

Definition upper_table : list (N * N) :=
  Eval vm_compute in flat_map expand_run upper_runs.

(** Characters whose upper-case form is more than one character. *)
Definition upper_special : list (N * list N) :=
  [
   (0xDF, [0x53; 0x53]); (0x149, [0x2BC; 0x4E]); (0x1F0, [0x4A; 0x30C]);
   (0x390, [0x399; 0x308; 0x301]); (0x3B0, [0x3A5; 0x308; 0x301]);
   (0x587, [0x535; 0x552]); (0x1E96, [0x48; 0x331]);
   (0x1E97, [0x54; 0x308]); (0x1E98, [0x57; 0x30A]);
   (0x1E99, [0x59; 0x30A]); (0x1E9A, [0x41; 0x2BE]);
   (0x1F50, [0x3A5; 0x313]); (0x1F52, [0x3A5; 0x313; 0x300]);
   (0x1F54, [0x3A5; 0x313; 0x301]); (0x1F56, [0x3A5; 0x313; 0x342]);
   (0x1F80, [0x1F08; 0x399]); (0x1F81, [0x1F09; 0x399]);
   (0x1F82, [0x1F0A; 0x399]); (0x1F83, [0x1F0B; 0x399]);
   (0x1F84, [0x1F0C; 0x399]); (0x1F85, [0x1F0D; 0x399]);
   (0x1F86, [0x1F0E; 0x399]); (0x1F87, [0x1F0F; 0x399]);
   (0x1F88, [0x1F08; 0x399]); (0x1F89, [0x1F09; 0x399]);
   (0x1F8A, [0x1F0A; 0x399]); (0x1F8B, [0x1F0B; 0x399]);
   (0x1F8C, [0x1F0C; 0x399]); (0x1F8D, [0x1F0D; 0x399]);
   (0x1F8E, [0x1F0E; 0x399]); (0x1F8F, [0x1F0F; 0x399]);
   (0x1F90, [0x1F28; 0x399]); (0x1F91, [0x1F29; 0x399]);
   (0x1F92, [0x1F2A; 0x399]); (0x1F93, [0x1F2B; 0x399]);
   (0x1F94, [0x1F2C; 0x399]); (0x1F95, [0x1F2D; 0x399]);
   (0x1F96, [0x1F2E; 0x399]); (0x1F97, [0x1F2F; 0x399]);
   (0x1F98, [0x1F28; 0x399]); (0x1F99, [0x1F29; 0x399]);
   (0x1F9A, [0x1F2A; 0x399]); (0x1F9B, [0x1F2B; 0x399]);
   (0x1F9C, [0x1F2C; 0x399]); (0x1F9D, [0x1F2D; 0x399]);
   (0x1F9E, [0x1F2E; 0x399]); (0x1F9F, [0x1F2F; 0x399]);
   (0x1FA0, [0x1F68; 0x399]); (0x1FA1, [0x1F69; 0x399]);
   (0x1FA2, [0x1F6A; 0x399]); (0x1FA3, [0x1F6B; 0x399]);
   (0x1FA4, [0x1F6C; 0x399]); (0x1FA5, [0x1F6D; 0x399]);
   (0x1FA6, [0x1F6E; 0x399]); (0x1FA7, [0x1F6F; 0x399]);
   (0x1FA8, [0x1F68; 0x399]); (0x1FA9, [0x1F69; 0x399]);
   (0x1FAA, [0x1F6A; 0x399]); (0x1FAB, [0x1F6B; 0x399]);
   (0x1FAC, [0x1F6C; 0x399]); (0x1FAD, [0x1F6D; 0x399]);
   (0x1FAE, [0x1F6E; 0x399]); (0x1FAF, [0x1F6F; 0x399]);
   (0x1FB2, [0x1FBA; 0x399]); (0x1FB3, [0x391; 0x399]);
   (0x1FB4, [0x386; 0x399]); (0x1FB6, [0x391; 0x342]);
   (0x1FB7, [0x391; 0x342; 0x399]); (0x1FBC, [0x391; 0x399]);
   (0x1FC2, [0x1FCA; 0x399]); (0x1FC3, [0x397; 0x399]);
   (0x1FC4, [0x389; 0x399]); (0x1FC6, [0x397; 0x342]);
   (0x1FC7, [0x397; 0x342; 0x399]); (0x1FCC, [0x397; 0x399]);
   (0x1FD2, [0x399; 0x308; 0x300]); (0x1FD3, [0x399; 0x308; 0x301]);
   (0x1FD6, [0x399; 0x342]); (0x1FD7, [0x399; 0x308; 0x342]);
   (0x1FE2, [0x3A5; 0x308; 0x300]); (0x1FE3, [0x3A5; 0x308; 0x301]);
   (0x1FE4, [0x3A1; 0x313]); (0x1FE6, [0x3A5; 0x342]);
   (0x1FE7, [0x3A5; 0x308; 0x342]); (0x1FF2, [0x1FFA; 0x399]);
   (0x1FF3, [0x3A9; 0x399]); (0x1FF4, [0x38F; 0x399]);
   (0x1FF6, [0x3A9; 0x342]); (0x1FF7, [0x3A9; 0x342; 0x399]);
   (0x1FFC, [0x3A9; 0x399]); (0xFB00, [0x46; 0x46]);
   (0xFB01, [0x46; 0x49]); (0xFB02, [0x46; 0x4C]);
   (0xFB03, [0x46; 0x46; 0x49]); (0xFB04, [0x46; 0x46; 0x4C]);
   (0xFB05, [0x53; 0x54]); (0xFB06, [0x53; 0x54]);
   (0xFB13, [0x544; 0x546]); (0xFB14, [0x544; 0x535]);
   (0xFB15, [0x544; 0x53B]); (0xFB16, [0x54E; 0x546]);
   (0xFB17, [0x544; 0x53D])
  ].

Definition full_upper (p : N) : list N :=
  match find (fun entry => fst entry =? p) upper_special with
  | Some entry => snd entry
  | None => [lookup p upper_table]
  end.

(** Case_Ignorable. *)
Definition case_ignorable_ranges : list (N * N) :=
  [
   (0x27, 0x27); (0x2E, 0x2E); (0x3A, 0x3A); (0x5E, 0x5E); (0x60, 0x60);
   (0xA8, 0xA8); (0xAD, 0xAD); (0xAF, 0xAF); (0xB4, 0xB4); (0xB7, 0xB8);
   (0x2B0, 0x36F); (0x374, 0x375); (0x37A, 0x37A); (0x384, 0x385);
   (0x387, 0x387); (0x483, 0x489); (0x559, 0x559); (0x55F, 0x55F);
   (0x591, 0x5BD); (0x5BF, 0x5BF); (0x5C1, 0x5C2); (0x5C4, 0x5C5);
   (0x5C7, 0x5C7); (0x5F4, 0x5F4); (0x600, 0x605); (0x610, 0x61A);
   (0x61C, 0x61C); (0x640, 0x640); (0x64B, 0x65F); (0x670, 0x670);
   (0x6D6, 0x6DD); (0x6DF, 0x6E8); (0x6EA, 0x6ED); (0x70F, 0x70F);
   (0x711, 0x711); (0x730, 0x74A); (0x7A6, 0x7B0); (0x7EB, 0x7F5);
   (0x7FA, 0x7FA); (0x7FD, 0x7FD); (0x816, 0x82D); (0x859, 0x85B);
   (0x888, 0x888); (0x890, 0x891); (0x898, 0x89F); (0x8C9, 0x902);
   (0x93A, 0x93A); (0x93C, 0x93C); (0x941, 0x948); (0x94D, 0x94D);
   (0x951, 0x957); (0x962, 0x963); (0x971, 0x971); (0x981, 0x981);
   (0x9BC, 0x9BC); (0x9C1, 0x9C4); (0x9CD, 0x9CD); (0x9E2, 0x9E3);
   (0x9FE, 0x9FE); (0xA01, 0xA02); (0xA3C, 0xA3C); (0xA41, 0xA42);
   (0xA47, 0xA48); (0xA4B, 0xA4D); (0xA51, 0xA51); (0xA70, 0xA71);
   (0xA75, 0xA75); (0xA81, 0xA82); (0xABC, 0xABC); (0xAC1, 0xAC5);
   (0xAC7, 0xAC8); (0xACD, 0xACD); (0xAE2, 0xAE3); (0xAFA, 0xAFF);
   (0xB01, 0xB01); (0xB3C, 0xB3C); (0xB3F, 0xB3F); (0xB41, 0xB44);
   (0xB4D, 0xB4D); (0xB55, 0xB56); (0xB62, 0xB63); (0xB82, 0xB82);
   (0xBC0, 0xBC0); (0xBCD, 0xBCD); (0xC00, 0xC00); (0xC04, 0xC04);
   (0xC3C, 0xC3C); (0xC3E, 0xC40); (0xC46, 0xC48); (0xC4A, 0xC4D);
   (0xC55, 0xC56); (0xC62, 0xC63); (0xC81, 0xC81); (0xCBC, 0xCBC);
   (0xCBF, 0xCBF); (0xCC6, 0xCC6); (0xCCC, 0xCCD); (0xCE2, 0xCE3);
   (0xD00, 0xD01); (0xD3B, 0xD3C); (0xD41, 0xD44); (0xD4D, 0xD4D);
   (0xD62, 0xD63); (0xD81, 0xD81); (0xDCA, 0xDCA); (0xDD2, 0xDD4);
   (0xDD6, 0xDD6); (0xE31, 0xE31); (0xE34, 0xE3A); (0xE46, 0xE4E);
   (0xEB1, 0xEB1); (0xEB4, 0xEBC); (0xEC6, 0xEC6); (0xEC8, 0xECD);
   (0xF18, 0xF19); (0xF35, 0xF35); (0xF37, 0xF37); (0xF39, 0xF39);
   (0xF71, 0xF7E); (0xF80, 0xF84); (0xF86, 0xF87); (0xF8D, 0xF97);
   (0xF99, 0xFBC); (0xFC6, 0xFC6); (0x102D, 0x1030); (0x1032, 0x1037);
   (0x1039, 0x103A); (0x103D, 0x103E); (0x1058, 0x1059); (0x105E, 0x1060);
   (0x1071, 0x1074); (0x1082, 0x1082); (0x1085, 0x1086); (0x108D, 0x108D);
   (0x109D, 0x109D); (0x10FC, 0x10FC); (0x135D, 0x135F); (0x1712, 0x1714);
   (0x1732, 0x1733); (0x1752, 0x1753); (0x1772, 0x1773); (0x17B4, 0x17B5);
   (0x17B7, 0x17BD); (0x17C6, 0x17C6); (0x17C9, 0x17D3); (0x17D7, 0x17D7);
   (0x17DD, 0x17DD); (0x180B, 0x180F); (0x1843, 0x1843); (0x1885, 0x1886);
   (0x18A9, 0x18A9); (0x1920, 0x1922); (0x1927, 0x1928); (0x1932, 0x1932);
   (0x1939, 0x193B); (0x1A17, 0x1A18); (0x1A1B, 0x1A1B); (0x1A56, 0x1A56);
   (0x1A58, 0x1A5E); (0x1A60, 0x1A60); (0x1A62, 0x1A62); (0x1A65, 0x1A6C);
   (0x1A73, 0x1A7C); (0x1A7F, 0x1A7F); (0x1AA7, 0x1AA7); (0x1AB0, 0x1ACE);
   (0x1B00, 0x1B03); (0x1B34, 0x1B34); (0x1B36, 0x1B3A); (0x1B3C, 0x1B3C);
   (0x1B42, 0x1B42); (0x1B6B, 0x1B73); (0x1B80, 0x1B81); (0x1BA2, 0x1BA5);
   (0x1BA8, 0x1BA9); (0x1BAB, 0x1BAD); (0x1BE6, 0x1BE6); (0x1BE8, 0x1BE9);
   (0x1BED, 0x1BED); (0x1BEF, 0x1BF1); (0x1C2C, 0x1C33); (0x1C36, 0x1C37);
   (0x1C78, 0x1C7D); (0x1CD0, 0x1CD2); (0x1CD4, 0x1CE0); (0x1CE2, 0x1CE8);
   (0x1CED, 0x1CED); (0x1CF4, 0x1CF4); (0x1CF8, 0x1CF9); (0x1D2C, 0x1D6A);
   (0x1D78, 0x1D78); (0x1D9B, 0x1DFF); (0x1FBD, 0x1FBD); (0x1FBF, 0x1FC1);
   (0x1FCD, 0x1FCF); (0x1FDD, 0x1FDF); (0x1FED, 0x1FEF); (0x1FFD, 0x1FFE);
   (0x200B, 0x200F); (0x2018, 0x2019); (0x2024, 0x2024); (0x2027, 0x2027);
   (0x202A, 0x202E); (0x2060, 0x2064); (0x2066, 0x206F); (0x2071, 0x2071);
   (0x207F, 0x207F); (0x2090, 0x209C); (0x20D0, 0x20F0); (0x2C7C, 0x2C7D);
   (0x2CEF, 0x2CF1); (0x2D6F, 0x2D6F); (0x2D7F, 0x2D7F); (0x2DE0, 0x2DFF);
   (0x2E2F, 0x2E2F); (0x3005, 0x3005); (0x302A, 0x302D); (0x3031, 0x3035);
   (0x303B, 0x303B); (0x3099, 0x309E); (0x30FC, 0x30FE); (0xA015, 0xA015);
   (0xA4F8, 0xA4FD); (0xA60C, 0xA60C); (0xA66F, 0xA672); (0xA674, 0xA67D);
   (0xA67F, 0xA67F); (0xA69C, 0xA69F); (0xA6F0, 0xA6F1); (0xA700, 0xA721);
   (0xA770, 0xA770); (0xA788, 0xA78A); (0xA7F2, 0xA7F4); (0xA7F8, 0xA7F9);
   (0xA802, 0xA802); (0xA806, 0xA806); (0xA80B, 0xA80B); (0xA825, 0xA826);
   (0xA82C, 0xA82C); (0xA8C4, 0xA8C5); (0xA8E0, 0xA8F1); (0xA8FF, 0xA8FF);
   (0xA926, 0xA92D); (0xA947, 0xA951); (0xA980, 0xA982); (0xA9B3, 0xA9B3);
   (0xA9B6, 0xA9B9); (0xA9BC, 0xA9BD); (0xA9CF, 0xA9CF); (0xA9E5, 0xA9E6);
   (0xAA29, 0xAA2E); (0xAA31, 0xAA32); (0xAA35, 0xAA36); (0xAA43, 0xAA43);
   (0xAA4C, 0xAA4C); (0xAA70, 0xAA70); (0xAA7C, 0xAA7C); (0xAAB0, 0xAAB0);
   (0xAAB2, 0xAAB4); (0xAAB7, 0xAAB8); (0xAABE, 0xAABF); (0xAAC1, 0xAAC1);
   (0xAADD, 0xAADD); (0xAAEC, 0xAAED); (0xAAF3, 0xAAF4); (0xAAF6, 0xAAF6);
   (0xAB5B, 0xAB5F); (0xAB69, 0xAB6B); (0xABE5, 0xABE5); (0xABE8, 0xABE8);
   (0xABED, 0xABED); (0xFB1E, 0xFB1E); (0xFBB2, 0xFBC2); (0xFE00, 0xFE0F);
   (0xFE13, 0xFE13); (0xFE20, 0xFE2F); (0xFE52, 0xFE52); (0xFE55, 0xFE55);
   (0xFEFF, 0xFEFF); (0xFF07, 0xFF07); (0xFF0E, 0xFF0E); (0xFF1A, 0xFF1A);
   (0xFF3E, 0xFF3E); (0xFF40, 0xFF40); (0xFF70, 0xFF70); (0xFF9E, 0xFF9F);
   (0xFFE3, 0xFFE3); (0xFFF9, 0xFFFB); (0x101FD, 0x101FD);
   (0x102E0, 0x102E0); (0x10376, 0x1037A); (0x10780, 0x10785);
   (0x10787, 0x107B0); (0x107B2, 0x107BA); (0x10A01, 0x10A03);
   (0x10A05, 0x10A06); (0x10A0C, 0x10A0F); (0x10A38, 0x10A3A);
   (0x10A3F, 0x10A3F); (0x10AE5, 0x10AE6); (0x10D24, 0x10D27);
   (0x10EAB, 0x10EAC); (0x10F46, 0x10F50); (0x10F82, 0x10F85);
   (0x11001, 0x11001); (0x11038, 0x11046); (0x11070, 0x11070);
   (0x11073, 0x11074); (0x1107F, 0x11081); (0x110B3, 0x110B6);
   (0x110B9, 0x110BA); (0x110BD, 0x110BD); (0x110C2, 0x110C2);
   (0x110CD, 0x110CD); (0x11100, 0x11102); (0x11127, 0x1112B);
   (0x1112D, 0x11134); (0x11173, 0x11173); (0x11180, 0x11181);
   (0x111B6, 0x111BE); (0x111C9, 0x111CC); (0x111CF, 0x111CF);
   (0x1122F, 0x11231); (0x11234, 0x11234); (0x11236, 0x11237);
   (0x1123E, 0x1123E); (0x112DF, 0x112DF); (0x112E3, 0x112EA);
   (0x11300, 0x11301); (0x1133B, 0x1133C); (0x11340, 0x11340);
   (0x11366, 0x1136C); (0x11370, 0x11374); (0x11438, 0x1143F);
   (0x11442, 0x11444); (0x11446, 0x11446); (0x1145E, 0x1145E);
   (0x114B3, 0x114B8); (0x114BA, 0x114BA); (0x114BF, 0x114C0);
   (0x114C2, 0x114C3); (0x115B2, 0x115B5); (0x115BC, 0x115BD);
   (0x115BF, 0x115C0); (0x115DC, 0x115DD); (0x11633, 0x1163A);
   (0x1163D, 0x1163D); (0x1163F, 0x11640); (0x116AB, 0x116AB);
   (0x116AD, 0x116AD); (0x116B0, 0x116B5); (0x116B7, 0x116B7);
   (0x1171D, 0x1171F); (0x11722, 0x11725); (0x11727, 0x1172B);
   (0x1182F, 0x11837); (0x11839, 0x1183A); (0x1193B, 0x1193C);
   (0x1193E, 0x1193E); (0x11943, 0x11943); (0x119D4, 0x119D7);
   (0x119DA, 0x119DB); (0x119E0, 0x119E0); (0x11A01, 0x11A0A);
   (0x11A33, 0x11A38); (0x11A3B, 0x11A3E); (0x11A47, 0x11A47);
   (0x11A51, 0x11A56); (0x11A59, 0x11A5B); (0x11A8A, 0x11A96);
   (0x11A98, 0x11A99); (0x11C30, 0x11C36); (0x11C38, 0x11C3D);
   (0x11C3F, 0x11C3F); (0x11C92, 0x11CA7); (0x11CAA, 0x11CB0);
   (0x11CB2, 0x11CB3); (0x11CB5, 0x11CB6); (0x11D31, 0x11D36);
   (0x11D3A, 0x11D3A); (0x11D3C, 0x11D3D); (0x11D3F, 0x11D45);
   (0x11D47, 0x11D47); (0x11D90, 0x11D91); (0x11D95, 0x11D95);
   (0x11D97, 0x11D97); (0x11EF3, 0x11EF4); (0x13430, 0x13438);
   (0x16AF0, 0x16AF4); (0x16B30, 0x16B36); (0x16B40, 0x16B43);
   (0x16F4F, 0x16F4F); (0x16F8F, 0x16F9F); (0x16FE0, 0x16FE1);
   (0x16FE3, 0x16FE4); (0x1AFF0, 0x1AFF3); (0x1AFF5, 0x1AFFB);
   (0x1AFFD, 0x1AFFE); (0x1BC9D, 0x1BC9E); (0x1BCA0, 0x1BCA3);
   (0x1CF00, 0x1CF2D); (0x1CF30, 0x1CF46); (0x1D167, 0x1D169);
   (0x1D173, 0x1D182); (0x1D185, 0x1D18B); (0x1D1AA, 0x1D1AD);
   (0x1D242, 0x1D244); (0x1DA00, 0x1DA36); (0x1DA3B, 0x1DA6C);
   (0x1DA75, 0x1DA75); (0x1DA84, 0x1DA84); (0x1DA9B, 0x1DA9F);
   (0x1DAA1, 0x1DAAF); (0x1E000, 0x1E006); (0x1E008, 0x1E018);
   (0x1E01B, 0x1E021); (0x1E023, 0x1E024); (0x1E026, 0x1E02A);
   (0x1E130, 0x1E13D); (0x1E2AE, 0x1E2AE); (0x1E2EC, 0x1E2EF);
   (0x1E8D0, 0x1E8D6); (0x1E944, 0x1E94B); (0x1F3FB, 0x1F3FF);
   (0xE0001, 0xE0001); (0xE0020, 0xE007F); (0xE0100, 0xE01EF)
  ].

(** Cased, without the characters that are also Case_Ignorable. *)
Definition cased_ranges : list (N * N) :=
  [
   (0x41, 0x5A); (0x61, 0x7A); (0xAA, 0xAA); (0xB5, 0xB5); (0xBA, 0xBA);
   (0xC0, 0xD6); (0xD8, 0xF6); (0xF8, 0x1BA); (0x1BC, 0x1BF);
   (0x1C4, 0x293); (0x295, 0x2AF); (0x370, 0x373); (0x376, 0x377);
   (0x37B, 0x37D); (0x37F, 0x37F); (0x386, 0x386); (0x388, 0x38A);
   (0x38C, 0x38C); (0x38E, 0x3A1); (0x3A3, 0x3F5); (0x3F7, 0x481);
   (0x48A, 0x52F); (0x531, 0x556); (0x560, 0x588); (0x10A0, 0x10C5);
   (0x10C7, 0x10C7); (0x10CD, 0x10CD); (0x10D0, 0x10FA); (0x10FD, 0x10FF);
   (0x13A0, 0x13F5); (0x13F8, 0x13FD); (0x1C80, 0x1C88); (0x1C90, 0x1CBA);
   (0x1CBD, 0x1CBF); (0x1D00, 0x1D2B); (0x1D6B, 0x1D77); (0x1D79, 0x1D9A);
   (0x1E00, 0x1F15); (0x1F18, 0x1F1D); (0x1F20, 0x1F45); (0x1F48, 0x1F4D);
   (0x1F50, 0x1F57); (0x1F59, 0x1F59); (0x1F5B, 0x1F5B); (0x1F5D, 0x1F5D);
   (0x1F5F, 0x1F7D); (0x1F80, 0x1FB4); (0x1FB6, 0x1FBC); (0x1FBE, 0x1FBE);
   (0x1FC2, 0x1FC4); (0x1FC6, 0x1FCC); (0x1FD0, 0x1FD3); (0x1FD6, 0x1FDB);
   (0x1FE0, 0x1FEC); (0x1FF2, 0x1FF4); (0x1FF6, 0x1FFC); (0x2102, 0x2102);
   (0x2107, 0x2107); (0x210A, 0x2113); (0x2115, 0x2115); (0x2119, 0x211D);
   (0x2124, 0x2124); (0x2126, 0x2126); (0x2128, 0x2128); (0x212A, 0x212D);
   (0x212F, 0x2134); (0x2139, 0x2139); (0x213C, 0x213F); (0x2145, 0x2149);
   (0x214E, 0x214E); (0x2160, 0x217F); (0x2183, 0x2184); (0x24B6, 0x24E9);
   (0x2C00, 0x2C7B); (0x2C7E, 0x2CE4); (0x2CEB, 0x2CEE); (0x2CF2, 0x2CF3);
   (0x2D00, 0x2D25); (0x2D27, 0x2D27); (0x2D2D, 0x2D2D); (0xA640, 0xA66D);
   (0xA680, 0xA69B); (0xA722, 0xA76F); (0xA771, 0xA787); (0xA78B, 0xA78E);
   (0xA790, 0xA7CA); (0xA7D0, 0xA7D1); (0xA7D3, 0xA7D3); (0xA7D5, 0xA7D9);
   (0xA7F5, 0xA7F6); (0xA7FA, 0xA7FA); (0xAB30, 0xAB5A); (0xAB60, 0xAB68);
   (0xAB70, 0xABBF); (0xFB00, 0xFB06); (0xFB13, 0xFB17); (0xFF21, 0xFF3A);
   (0xFF41, 0xFF5A); (0x10400, 0x1044F); (0x104B0, 0x104D3);
   (0x104D8, 0x104FB); (0x10570, 0x1057A); (0x1057C, 0x1058A);
   (0x1058C, 0x10592); (0x10594, 0x10595); (0x10597, 0x105A1);
   (0x105A3, 0x105B1); (0x105B3, 0x105B9); (0x105BB, 0x105BC);
   (0x10C80, 0x10CB2); (0x10CC0, 0x10CF2); (0x118A0, 0x118DF);
   (0x16E40, 0x16E7F); (0x1D400, 0x1D454); (0x1D456, 0x1D49C);
   (0x1D49E, 0x1D49F); (0x1D4A2, 0x1D4A2); (0x1D4A5, 0x1D4A6);
   (0x1D4A9, 0x1D4AC); (0x1D4AE, 0x1D4B9); (0x1D4BB, 0x1D4BB);
   (0x1D4BD, 0x1D4C3); (0x1D4C5, 0x1D505); (0x1D507, 0x1D50A);
   (0x1D50D, 0x1D514); (0x1D516, 0x1D51C); (0x1D51E, 0x1D539);
   (0x1D53B, 0x1D53E); (0x1D540, 0x1D544); (0x1D546, 0x1D546);
   (0x1D54A, 0x1D550); (0x1D552, 0x1D6A5); (0x1D6A8, 0x1D6C0);
   (0x1D6C2, 0x1D6DA); (0x1D6DC, 0x1D6FA); (0x1D6FC, 0x1D714);
   (0x1D716, 0x1D734); (0x1D736, 0x1D74E); (0x1D750, 0x1D76E);
   (0x1D770, 0x1D788); (0x1D78A, 0x1D7A8); (0x1D7AA, 0x1D7C2);
   (0x1D7C4, 0x1D7CB); (0x1DF00, 0x1DF09); (0x1DF0B, 0x1DF1E);
   (0x1E900, 0x1E943); (0x1F130, 0x1F149); (0x1F150, 0x1F169);
   (0x1F170, 0x1F189)
  ].

Definition case_ignorable (p : N) : bool :=
  in_ranges p case_ignorable_ranges.

Definition cased (p : N) : bool := in_ranges p cased_ranges.

(** A cased letter follows, after any number of case-ignorable
    characters. *)
Fixpoint followed_by_cased (rest : list N) : bool :=
  match rest with
  | [] => false
  | p :: r => if case_ignorable p then followed_by_cased r else cased p
  end.

(** [toLowerCase] on the characters of a string.  [after_cased] says
    that a cased letter precedes, with only case-ignorable characters in
    between: a capital sigma is then final unless a cased letter follows;
    U+0130 becomes [i] with a combining dot. *)
Fixpoint lower (after_cased : bool) (l : list N) : list N :=
  match l with
  | [] => []
  | p :: r =>
      (if p =? 0x3A3
       then [if after_cased && negb (followed_by_cased r)
             then 0x3C2 else 0x3C3]
       else if p =? 0x130 then [0x69; 0x307]
       else [simple_lower p])
        ++ lower (if case_ignorable p then after_cased else cased p) r
  end.

Definition upper (l : list N) : list N := flat_map full_upper l.

Fixpoint drop_spaces (l : list N) : list N :=
  match l with
  | [] => []
  | p :: r => if white_space p then drop_spaces r else l
  end.

Definition trim (l : list N) : list N :=
  rev (drop_spaces (rev (drop_spaces l))).

(** Splitting at each run of white space: [cur] is the piece being
    read, in reverse. *)
Fixpoint split (cur : list N) (in_gap : bool) (l : list N)
  : list (list N) :=
  match l with
  | [] => [rev cur]
  | p :: r =>
      if white_space p then
        if in_gap then split cur true r
        else rev cur :: split [] true r
      else split (p :: (if in_gap then [] else cur)) false r
  end.

End Unicode.

(* ===================================================================== *)
(** ** JavaScript strings *)
(* ===================================================================== *)

Module JsString.

Definition code (c : ascii) : N := N_of_ascii c.

Definition is_upper (c : ascii) : bool :=
  (65 <=? code c)%N && (code c <=? 90)%N.

Definition is_lower (c : ascii) : bool :=
  (97 <=? code c)%N && (code c <=? 122)%N.

Definition is_digit (c : ascii) : bool :=
  (48 <=? code c)%N && (code c <=? 57)%N.

(** The ASCII part of the class [\s]: tab, line feed, vertical tab, form
    feed, carriage return and space. *)
Definition is_space (c : ascii) : bool :=
  ((9 <=? code c)%N && (code c <=? 13)%N) || (code c =? 32)%N.

Fixpoint map_chars (f : ascii -> ascii) (s : string) : string :=
  match s with
  | EmptyString => EmptyString
  | String c r => String (f c) (map_chars f r)
  end.

Definition toLowerCase (s : string) : string :=
  Utf8.encode (Unicode.lower false (Utf8.decode s)).

Definition toUpperCase (s : string) : string :=
  Utf8.encode (Unicode.upper (Utf8.decode s)).

(** [s.replaceAll(a, b)] for one-character ASCII [a] and [b]. *)
Definition replaceAll (a b : ascii) (s : string) : string :=
  map_chars (fun c => if Ascii.eqb c a then b else c) s.

Definition trim (s : string) : string :=
  Utf8.encode (Unicode.trim (Utf8.decode s)).

(** [s.replaceAll(/\s+/g, '')]: every whitespace character is removed. *)
Definition remove_spaces (s : string) : string :=
  Utf8.encode
    (filter (fun p => negb (Unicode.white_space p)) (Utf8.decode s)).

(** [s.split(/\s+/)] *)
Definition split_spaces (s : string) : list string :=
  map Utf8.encode (Unicode.split [] false (Utf8.decode s)).

(** [s.substring(a, b)] for [a <= b], on a string of ASCII characters. *)
Definition substring (a b : nat) (s : string) : string :=
  String.substring a (b - a) s.

Definition truthy (s : string) : bool := negb (s =? "").

Definition newline : string := String (ascii_of_N 10) EmptyString.

(** [a || b] on strings. *)
Definition or_else (a b : string) : string := if truthy a then a else b.

Definition of_N (n : N) : string := NilEmpty.string_of_uint (N.to_uint n).
Definition of_Z (z : Z) : string := NilEmpty.string_of_int (Z.to_int z).
Definition of_nat (n : nat) : string := of_N (N.of_nat n).

(** A template literal applied to a value that may be [undefined]. *)
Definition of_option (o : option string) : string :=
  match o with Some s => s | None => "undefined" end.

(** [Number.parseInt(s, 10)]: leading whitespace, an optional sign, then
    the longest run of decimal digits; [None] is [NaN].  The value is the
    integer the digits denote; the engine rounds one beyond 2^53 to the
    nearest double. *)
Fixpoint digits_value (acc : Z) (seen : bool) (l : list N) : option Z :=
  match l with
  | [] => if seen then Some acc else None
  | p :: r =>
      if (48 <=? p)%N && (p <=? 57)%N
      then digits_value (10 * acc + Z.of_N (p - 48)) true r
      else if seen then Some acc else None
  end.

Definition parseInt10 (s : string) : option Z :=
  match Unicode.drop_spaces (Utf8.decode s) with
  | p :: r =>
      if (p =? 45)%N then option_map Z.opp (digits_value 0 false r)
      else if (p =? 43)%N then digits_value 0 false r
      else digits_value 0 false (p :: r)
  | [] => None
  end.

End JsString.

(* ===================================================================== *)
(** ** JavaScript values, errors and results *)
(* ===================================================================== *)

(** The values [JSON.parse] can return. *)
#[local] Set Warnings "-register-all".
Inductive JsVal : Type :=
| JNull
| JBool (b : bool)
| JNum (q : Q)
| JStr (s : string)
| JArr (items : list JsVal)
| JObj (entries : list (string * JsVal)).

(** An [Error] object; only its [message] is ever read. *)
Record JsError : Type := mkError { message : string }.

Inductive Result (A : Type) : Type :=
| Ok (a : A)
| Throw (e : JsError).
Arguments Ok {A} a.
Arguments Throw {A} e.

Module Js.

(** Truthiness, as tested by [if (value)]. *)
Definition truthy (v : JsVal) : bool :=
  match v with
  | JNull => false
  | JBool b => b
  | JNum q => negb (Qnum q =? 0)%Z
  | JStr s => JsString.truthy s
  | JArr _ => true
  | JObj _ => true
  end.

Fixpoint indexed {A : Type} (i : nat) (l : list A) : list (string * A) :=
  match l with
  | [] => []
  | x :: r => (JsString.of_nat i, x) :: indexed (S i) r
  end.

(** The characters of a string as indexing sees them: one string per
    UTF-16 code unit. *)
Definition chars (s : string) : list JsVal :=
  map (fun unit => JStr (Utf8.encode1 unit))
      (flat_map Utf8.units (Utf8.decode s)).

(** [Object.entries(v)]: throws on [null], is empty on the other
    primitives except strings, which are indexed like arrays. *)
Definition Object_entries (v : JsVal) : Result (list (string * JsVal)) :=
  match v with
  | JNull => Throw (mkError "Cannot convert undefined or null to object")
  | JBool _ => Ok []
  | JNum _ => Ok []
  | JStr s => Ok (indexed 0 (chars s))
  | JArr l => Ok (indexed 0 l)
  | JObj l => Ok l
  end.

End Js.

(* ===================================================================== *)
(** ** config.js *)
(* ===================================================================== *)

Module Config.

(** The [config] argument of [buildJobConfig] and [createJob]. *)
Record JobOptions : Type := mkJobOptions {
  image : string;
  command : option (list string);
  userManagedIdentity : string;
  environmentVariables : JsVal;
  secrets : JsVal;
  cpu : string;
  memory : string;
  registryServer : string;
  registryUsername : string;
  registryPassword : string;
  cronSchedule : string
}.

(** An element of the container's [env] array. *)
Inductive EnvVar : Type :=
| EnvValue (name : string) (value : JsVal)
| EnvSecretRef (name : string) (secretRef : string).

(** An element of [configuration.secrets]. *)
Inductive Secret : Type :=
| SecretKeyVault (name : string) (keyVaultUrl : JsVal) (identity : string)
| SecretValue (name : string) (value : string).

Record Registry : Type := mkRegistry {
  server : string;
  username : string;
  passwordSecretRef : string
}.

(** [Number.parseFloat(cpu)], kept symbolic. *)
Inductive JsNumber : Type :=
| ParseFloat (text : string).

Record Resources : Type := mkResources {
  res_cpu : JsNumber;
  res_memory : string
}.

Record Container : Type := mkContainer {
  c_name : string;
  c_image : string;
  c_resources : Resources;
  c_env : list EnvVar;
  c_command : option (list string)
}.

Inductive TriggerConfig : Type :=
| ScheduleTriggerConfig (cronExpression : string)
                        (parallelism replicaCompletionCount : Z)
| ManualTriggerConfig (replicaCompletionCount parallelism : Z).

Record Configuration : Type := mkConfiguration {
  triggerType : string;
  replicaTimeout : Z;
  replicaRetryLimit : Z;
  triggerConfig : TriggerConfig;
  cfg_secrets : list Secret;
  cfg_registries : list Registry
}.

Record Identity : Type := mkIdentity {
  id_type : string;
  userAssignedIdentities : list string
}.

Record JobConfig : Type := mkJobConfig {
  configuration : Configuration;
  environmentId : string;
  location : string;
  workLoadProfileName : string;
  template_containers : list Container;
  identity : option Identity
}.

Definition secret_name (s : Secret) : string :=
  match s with
  | SecretKeyVault n _ _ => n
  | SecretValue n _ => n
  end.

(** [key.toLowerCase().replaceAll('_', '-')] *)
Definition secretName (key : string) : string :=
  JsString.replaceAll "_" "-" (JsString.toLowerCase key).

(** First loop: one [{name, value}] per environment variable. *)
Definition push_env (envVars : list EnvVar) (kv : string * JsVal)
  : list EnvVar :=
  envVars ++ [EnvValue (fst kv) (snd kv)].

(** Body of the second loop, on the pair [(secretsArray, envVars)]. *)
Definition push_secret (identity : string)
    (st : list Secret * list EnvVar) (kv : string * JsVal)
  : list Secret * list EnvVar :=
  let key := fst kv in
  let value := snd kv in
  let name := secretName key in
  if Js.truthy value then
    (fst st ++ [SecretKeyVault name value identity],
     snd st ++ [EnvSecretRef key name])
  else st.

Definition registry_complete (o : JobOptions) : bool :=
  JsString.truthy (registryServer o)
  && JsString.truthy (registryUsername o)
  && JsString.truthy (registryPassword o).

Definition buildJobConfig
    (subscriptionId resourceGroup environmentName location : string)
    (config : JobOptions) : Result JobConfig :=
  match Js.Object_entries (environmentVariables config) with
  | Throw e => Throw e
  | Ok envEntries =>
    let envVars0 := fold_left push_env envEntries [] in
    match Js.Object_entries (secrets config) with
    | Throw e => Throw e
    | Ok secretEntries =>
      let st := fold_left (push_secret (userManagedIdentity config))
                          secretEntries ([], envVars0) in
      let secretsArray0 := fst st in
      let envVars := snd st in
      let container :=
        mkContainer "main" (image config)
                    (mkResources (ParseFloat (cpu config)) (memory config))
                    envVars
                    (command config) in
      let registries :=
        if registry_complete config
        then [mkRegistry (registryServer config) (registryUsername config)
                         "registry-password"]
        else [] in
      let secretsArray :=
        if registry_complete config
        then secretsArray0
               ++ [SecretValue "registry-password" (registryPassword config)]
        else secretsArray0 in
      let trigger :=
        if JsString.truthy (cronSchedule config)
        then ("Schedule", ScheduleTriggerConfig (cronSchedule config) 1 1)
        else ("Manual", ManualTriggerConfig 1 1) in
      Ok (mkJobConfig
            (mkConfiguration (fst trigger) 1800 0 (snd trigger)
                             secretsArray registries)
            ("/subscriptions/" ++ subscriptionId
               ++ "/resourceGroups/" ++ resourceGroup
               ++ "/providers/Microsoft.App/managedEnvironments/"
               ++ environmentName)
            location
            "Consumption"
            [container]
            (if JsString.truthy (userManagedIdentity config)
             then Some (mkIdentity "UserAssigned"
                                   [userManagedIdentity config])
             else None))
    end
  end.

End Config.

(* ===================================================================== *)
(** ** Effects: events, the outside world, and the monad of the model *)
(* ===================================================================== *)

(** The calls that leave the process. *)
Inductive RemoteCall : Type :=
| ManagedEnvironmentsGet (resourceGroup environmentName : string)
| JobsCreateOrUpdate (resourceGroup jobName : string)
                     (jobConfig : Config.JobConfig)
| JobsStart (resourceGroup jobName : string)
| JobExecutionGet (resourceGroup jobName : string)
                  (executionName : option string)
| JobsDelete (resourceGroup jobName : string)
| LogsQueryWorkspace (workspaceId jobName : string).

(** What a run does that an observer can see, in order. *)
Inductive Event : Type :=
| Debug (text : string)
| Info (text : string)
| Warning (text : string)
| ErrorLog (text : string)
| ErrorStack (e : JsError)
| SetOutput (name : string) (value : option string)
| SetFailed (text : string)
| Remote (call : RemoteCall)
| Sleep (ms : Z).

(** A value of [Math.random()]: the double [numerator / 2 ^ log2_den]. *)
Record UnitDouble : Type := mkUnitDouble {
  numerator : N;
  log2_den : N
}.

(** An execution object of the provider.  [ex_status] is the object's own
    [status]; [ex_properties] is its [properties], whose [p_exitCode]
    stands for [template?.containers?.[0]?.exitCode]. *)
Record ExecutionProperties : Type := mkExecutionProperties {
  p_status : option string;
  p_exitCode : option Z
}.

Record Execution : Type := mkExecution {
  ex_name : option string;
  ex_status : option string;
  ex_properties : option ExecutionProperties
}.

(** The result object of a log query: [tables[0].rows] is [lr_rows], and
    [lr_has_table] tells whether [tables] is a non-empty array. *)
Record LogsResult : Type := mkLogsResult {
  lr_status : string;
  lr_has_table : bool;
  lr_rows : list (string * string);
  lr_partialError : list JsError
}.

(** Everything a run reads from outside: the action inputs, the process
    environment, the clock, the random source, [JSON.parse], and the
    answers of the remote services.  [poll_now i] is the clock at the head
    of the [i]-th iteration of the polling loop and [job_execution i] the
    answer to the status read of that iteration. *)
Record World : Type := mkWorld {
  core_getInput : string -> Result string;
  process_env : string -> option string;
  JSON_parse : string -> Result JsVal;
  name_timestamp : Z;
  Math_random : UnitDouble;
  managedEnvironments_get : Result (option string);
  jobs_beginCreateOrUpdateAndWait : Result unit;
  jobs_beginStartAndWait : Result Execution;
  poll_start : Z;
  poll_now : nat -> Z;
  job_execution : nat -> Result (option Execution);
  jobs_beginDeleteAndWait : Result unit;
  logs_queryWorkspace : Result LogsResult
}.

(** How a computation ends: with a value, with a thrown error, or without
    an end inside the fuel it was given. *)
Inductive Outcome (A : Type) : Type :=
| Done (a : A)
| Raised (e : JsError)
| OutOfFuel.
Arguments Done {A} a.
Arguments Raised {A} e.
Arguments OutOfFuel {A}.

(** A computation: the events it emitted and how it ended. *)
Definition M (A : Type) : Type := (list Event * Outcome A)%type.

Module Eff.

Definition ret {A : Type} (a : A) : M A := ([], Done a).

Definition bind {A B : Type} (c : M A) (k : A -> M B) : M B :=
  match c with
  | (events, Done a) => let (rest, outcome) := k a in (events ++ rest, outcome)
  | (events, Raised e) => (events, Raised e)
  | (events, OutOfFuel) => (events, OutOfFuel)
  end.

Definition emit (e : Event) : M unit := ([e], Done tt).

Definition throw {A : Type} (e : JsError) : M A := ([], Raised e).

Definition diverge {A : Type} : M A := ([], OutOfFuel).

(** [try { c } catch (error) { h error }] *)
Definition try_catch {A : Type} (c : M A) (h : JsError -> M A) : M A :=
  match c with
  | (events, Raised e) =>
      let (rest, outcome) := h e in (events ++ rest, outcome)
  | _ => c
  end.

Definition lift {A : Type} (r : Result A) : M A :=
  match r with
  | Ok a => ret a
  | Throw e => throw e
  end.

End Eff.

Declare Scope eff_scope.
Delimit Scope eff_scope with eff.
Notation "x <- c ;; k" := (Eff.bind c (fun x => k))
  (at level 61, c at next level, right associativity) : eff_scope.
Notation "c ;; k" := (Eff.bind c (fun _ => k))
  (at level 61, right associativity) : eff_scope.
Open Scope eff_scope.

(* ===================================================================== *)
(** ** utils.js *)
(* ===================================================================== *)

Module Utils.

Definition base36_digit (d : N) : ascii :=
  if (d <? 10)%N then ascii_of_N (48 + d) else ascii_of_N (87 + d).

(** The digits of [num / den] after the point in base 36, until the
    remainder is zero. *)
Fixpoint fraction_digits36 (fuel : nat) (num den : N) : string :=
  match fuel with
  | O => EmptyString
  | S fuel' =>
      if (num =? 0)%N then EmptyString
      else String (base36_digit ((36 * num) / den))
                  (fraction_digits36 fuel' ((36 * num) mod den) den)
  end.

(** [x.toString(36)] for a double [0 <= x < 1], as its exact positional
    expansion: ["0"] for zero, else ["0."] and the fraction digits.  An
    engine stops as soon as the digits printed identify the double, so it
    never prints more digits than this, and it prints exactly this when
    the expansion is a few digits long. *)
Definition Number_toString36 (x : UnitDouble) : string :=
  if (numerator x =? 0)%N then "0"
  else "0." ++ fraction_digits36 (S (N.to_nat (log2_den x)))
                                 (numerator x) (2 ^ log2_den x)%N.

(** [generateJobName(prefix)], given the values of [Date.now()] and
    [Math.random()]. *)
Definition generateJobName (prefix : string) (timestamp : Z)
    (random_value : UnitDouble) : string :=
  let random :=
    JsString.substring 2 8 (Number_toString36 random_value) in
  prefix ++ "-" ++ JsString.of_Z timestamp ++ "-" ++ random.

Definition parseCommand (commandString : string) : option (list string) :=
  if negb (JsString.truthy commandString)
     || (JsString.trim commandString =? "")
  then None
  else Some (JsString.split_spaces (JsString.trim commandString)).

Definition normalizeAzureLocation (location : option string) : string :=
  match location with
  | None => "eastus"
  | Some l =>
      if negb (JsString.truthy l) then "eastus"
      else JsString.remove_spaces (JsString.toLowerCase l)
  end.

Fixpoint print_rows (rows : list (string * string)) : M unit :=
  match rows with
  | [] => Eff.ret tt
  | row :: rest =>
      Eff.emit (Info ("[" ++ fst row ++ "] " ++ snd row)) ;;
      print_rows rest
  end.

Fixpoint warn_each (errors : list JsError) : M unit :=
  match errors with
  | [] => Eff.ret tt
  | e :: rest => Eff.emit (Warning (message e)) ;; warn_each rest
  end.

Definition dumpJobLogs (w : World) (workspaceId jobName : string)
  : M unit :=
  if negb (JsString.truthy workspaceId)
     || (JsString.trim workspaceId =? "")
  then
    Eff.emit (Info
      "No Log Analytics Workspace ID provided, skipping log dump")
  else
    Eff.emit (Info "Querying container job logs from Log Analytics...") ;;
    Eff.emit (Remote (LogsQueryWorkspace workspaceId jobName)) ;;
    match logs_queryWorkspace w with
    | Ok result =>
        if (lr_status result =? "Success") && lr_has_table result then
          let logCount := List.length (lr_rows result) in
          if (logCount =? 0)%nat then
            Eff.emit (Info
              "No logs found for this job. Logs may take a few minutes to appear in Log Analytics.")
          else
            Eff.emit (Info (JsString.newline
                            ++ "========== Container Job Logs ("
                            ++ JsString.of_nat logCount
                            ++ " entries) ==========")) ;;
            print_rows (lr_rows result) ;;
            Eff.emit (Info ("========== End of Logs =========="
                            ++ JsString.newline))
        else if lr_status result =? "PartialError" then
          Eff.emit (Warning "Partial error retrieving logs:") ;;
          warn_each (lr_partialError result)
        else
          Eff.emit (Warning "No logs returned from query")
    | Throw error =>
        Eff.emit (Warning
          ("Failed to retrieve logs from Log Analytics: "
           ++ message error)) ;;
        Eff.emit (Info
          "Note: Logs can take several minutes to appear in Log Analytics after job execution")
    end.

End Utils.

(* ===================================================================== *)
(** ** input.js *)
(* ===================================================================== *)

Module Input.

(** [getInput(name, { required })] *)
Definition getInput (w : World) (name : string) (required : bool)
  : M string :=
  val <- match core_getInput w name with
         | Ok v => Eff.ret v
         | Throw error =>
             Eff.emit (Debug ("core.getInput failed for " ++ name ++ ": "
                              ++ message error)) ;;
             Eff.ret ""
         end ;;
  let val :=
    if negb (JsString.truthy val) then
      let envName :=
        ("INPUT_"
           ++ JsString.toUpperCase (JsString.replaceAll "-" "_" name))%string
      in
      match process_env w envName with
      | Some v => JsString.or_else v ""
      | None => ""
      end
    else val in
  if required && negb (JsString.truthy val)
  then Eff.throw (mkError ("Input required and not supplied: " ++ name))
  else Eff.ret val.

Definition parseJsonInput (w : World) (inputName : string) : M JsVal :=
  input <- getInput w inputName false ;;
  if negb (JsString.truthy input) || (JsString.trim input =? "")
  then Eff.ret (JObj [])
  else
    match JSON_parse w input with
    | Ok v => Eff.ret v
    | Throw error =>
        Eff.throw (mkError ("Failed to parse " ++ inputName ++ ": "
                            ++ message error))
    end.

(** The object returned by [getInputs]. *)
Record Inputs : Type := mkInputs {
  subscriptionId : string;
  resourceGroup : string;
  environmentName : string;
  jobName : string;
  image : string;
  command : option (list string);
  userManagedIdentity : string;
  cronSchedule : string;
  cpu : string;
  memory : string;
  timeout : option Z;
  registryServer : string;
  registryUsername : string;
  registryPassword : string;
  dryRun : bool;
  logAnalyticsWorkspaceId : string;
  manualExecution : bool;
  onlyDeleteJob : bool;
  environmentVariables : JsVal;
  secrets : JsVal
}.

Definition is_true (v : string) : bool :=
  JsString.toLowerCase (JsString.or_else v "") =? "true".

Definition getInputs (w : World) : M Inputs :=
  subscriptionId <- getInput w "subscription-id" true ;;
  resourceGroup <- getInput w "resource-group" true ;;
  environmentName <- getInput w "environment-name" true ;;
  jobName <- getInput w "job-name" false ;;
  image <- getInput w "image" false ;;
  commandString <- getInput w "command" false ;;
  userManagedIdentity <- getInput w "user-managed-identity" false ;;
  cronSchedule <- getInput w "cron-schedule" false ;;
  cpu_in <- getInput w "cpu" false ;;
  let cpu := JsString.or_else cpu_in "0.5" in
  memory_in <- getInput w "memory" false ;;
  let memory := JsString.or_else memory_in "1Gi" in
  timeout_in <- getInput w "timeout" false ;;
  let timeout := JsString.parseInt10 (JsString.or_else timeout_in "1800") in
  registryServer <- getInput w "registry-server" false ;;
  registryUsername <- getInput w "registry-username" false ;;
  registryPassword <- getInput w "registry-password" false ;;
  dryRun_in <- getInput w "dry-run" false ;;
  let dryRun := is_true dryRun_in in
  logAnalyticsWorkspaceId <-
    getInput w "log-analytics-workspace-id" false ;;
  manualExecution_in <- getInput w "manual-execution" false ;;
  let manualExecution := is_true manualExecution_in in
  onlyDeleteJob_in <- getInput w "only-delete-job" false ;;
  let onlyDeleteJob := is_true onlyDeleteJob_in in
  environmentVariables <- parseJsonInput w "environment-variables" ;;
  secrets <- parseJsonInput w "secrets" ;;
  let command := Utils.parseCommand commandString in
  Eff.ret (mkInputs subscriptionId resourceGroup environmentName jobName
                    image command userManagedIdentity cronSchedule
                    cpu memory timeout
                    registryServer registryUsername registryPassword
                    dryRun logAnalyticsWorkspaceId
                    manualExecution onlyDeleteJob
                    environmentVariables secrets).

End Input.

(* ===================================================================== *)
(** ** job.js *)
(* ===================================================================== *)

(** The API client; [client.subscriptionId] is the only field read. *)
Record Client : Type := mkClient { client_subscriptionId : string }.

Module Job.

Definition pollInterval : Z := 10000.

Definition createJob (w : World) (client : Client)
    (resourceGroup environmentName jobName : string)
    (config : Config.JobOptions) : M unit :=
  Eff.emit (Info ("Creating job: " ++ jobName)) ;;
  location <-
    (Eff.emit (Remote (ManagedEnvironmentsGet resourceGroup
                                              environmentName)) ;;
     match managedEnvironments_get w with
     | Ok environment_location =>
         let location :=
           JsString.or_else
             (Utils.normalizeAzureLocation environment_location)
             "eastus" in
         Eff.emit (Info ("Using location from environment: "
                         ++ JsString.of_option environment_location
                         ++ " -> " ++ location)) ;;
         Eff.ret location
     | Throw error =>
         Eff.emit (Warning
           ("Could not get environment location, using default: "
            ++ message error)) ;;
         Eff.ret "eastus"
     end) ;;
  jobConfig <-
    Eff.lift (Config.buildJobConfig (client_subscriptionId client)
                resourceGroup environmentName location config) ;;
  Eff.emit (Remote (JobsCreateOrUpdate resourceGroup jobName jobConfig)) ;;
  match jobs_beginCreateOrUpdateAndWait w with
  | Ok _ =>
      Eff.emit (Info ("Job created successfully: " ++ jobName))
  | Throw error =>
      Eff.emit (ErrorLog "Azure rejected job create with error:") ;;
      Eff.emit (ErrorLog (if JsString.truthy (message error)
                          then message error else "Error")) ;;
      Eff.throw (mkError ("Failed to create job: " ++ message error))
  end.

Definition startJobExecution (w : World) (client : Client)
    (resourceGroup jobName : string) : M Execution :=
  Eff.emit (Info ("Starting job execution: " ++ jobName)) ;;
  Eff.emit (Remote (JobsStart resourceGroup jobName)) ;;
  match jobs_beginStartAndWait w with
  | Ok execution =>
      Eff.emit (Info ("Job execution started: "
                      ++ JsString.of_option (ex_name execution))) ;;
      Eff.ret execution
  | Throw error =>
      Eff.throw (mkError ("Failed to start job execution: "
                          ++ message error))
  end.

Definition is_terminal (status : option string) : bool :=
  match status with
  | Some s => (s =? "Succeeded") || (s =? "Failed")
  | None => false
  end.

(** [timeout * 1000]; [NaN] stays [NaN]. *)
Definition timeoutMs (timeout : option Z) : option Z :=
  option_map (fun t => t * 1000)%Z timeout.

(** [elapsed > timeoutMs], false when the right-hand side is [NaN]. *)
Definition exceeds (elapsed : Z) (limit : option Z) : bool :=
  match limit with
  | Some l => (l <? elapsed)%Z
  | None => false
  end.

Definition show_number (n : option Z) : string :=
  match n with Some z => JsString.of_Z z | None => "NaN" end.

Definition timeout_error (timeout : option Z) : JsError :=
  mkError ("Job execution timed out after " ++ show_number timeout
           ++ " seconds").

(** The [while (true)] loop of [pollJobExecution], from its [i]-th
    iteration on. *)
Fixpoint poll_loop (w : World) (resourceGroup jobName : string)
    (executionName : option string) (timeout : option Z)
    (startTime : Z) (fuel i : nat) : M Execution :=
  match fuel with
  | O => Eff.diverge
  | S fuel' =>
      let elapsed := (poll_now w i - startTime)%Z in
      if exceeds elapsed (timeoutMs timeout) then
        Eff.throw (timeout_error timeout)
      else
        Eff.emit (Remote (JobExecutionGet resourceGroup jobName
                                          executionName)) ;;
        let next :=
          Eff.emit (Sleep pollInterval) ;;
          poll_loop w resourceGroup jobName executionName timeout
                    startTime fuel' (S i) in
        match job_execution w i with
        | Ok execution =>
            let status :=
              match execution with
              | Some ex => ex_status ex
              | None => None
              end in
            Eff.emit (Info ("Job status: " ++ JsString.of_option status)) ;;
            match execution with
            | Some ex => if is_terminal status then Eff.ret ex else next
            | None => next
            end
        | Throw error =>
            Eff.emit (Warning ("Error polling job status: "
                               ++ message error)) ;;
            next
        end
  end.

Definition pollJobExecution (w : World) (client : Client)
    (resourceGroup jobName : string) (executionName : option string)
    (timeout : option Z) (fuel : nat) : M Execution :=
  Eff.emit (Info ("Polling for job completion (timeout: "
                  ++ show_number timeout ++ "s)")) ;;
  poll_loop w resourceGroup jobName executionName timeout
            (poll_start w) fuel 0.

Definition deleteJob (w : World) (client : Client)
    (resourceGroup jobName : string) : M unit :=
  Eff.emit (Info ("Deleting job: " ++ jobName)) ;;
  Eff.emit (Remote (JobsDelete resourceGroup jobName)) ;;
  match jobs_beginDeleteAndWait w with
  | Ok _ => Eff.emit (Info ("Job deleted successfully: " ++ jobName))
  | Throw error =>
      Eff.emit (Warning ("Failed to delete job: " ++ message error))
  end.

End Job.

(* ===================================================================== *)
(** ** main.js *)
(* ===================================================================== *)

Module Main.

(** The four [let] variables of [run] that the [catch] block reads;
    [None] is their initial [null]. *)
Record Vars : Type := mkVars {
  client : option Client;
  jobName : option string;
  resourceGroup : option string;
  cronSchedule : option string
}.

Definition initial_vars : Vars := mkVars None None None None.

Definition job_options (inputs : Input.Inputs) : Config.JobOptions :=
  Config.mkJobOptions
    (Input.image inputs) (Input.command inputs)
    (Input.userManagedIdentity inputs)
    (Input.environmentVariables inputs) (Input.secrets inputs)
    (Input.cpu inputs) (Input.memory inputs)
    (Input.registryServer inputs) (Input.registryUsername inputs)
    (Input.registryPassword inputs) (Input.cronSchedule inputs).

Definition runType (inputs : Input.Inputs) : string :=
  if Input.onlyDeleteJob inputs then "Delete a job"
  else if JsString.truthy (Input.cronSchedule inputs)
  then "Scheduled execution (cron: " ++ Input.cronSchedule inputs ++ ")"
  else if Input.manualExecution inputs
  then "Manual execution (no automatic start)"
  else "One off execution".

(** The [core.info] lines between the reading of the inputs and the
    construction of the client. *)
Definition announce (inputs : Input.Inputs) (jobName : string) : M unit :=
  Eff.emit (Info "=== Azure Container App Job Configuration ===") ;;
  Eff.emit (Info ("Subscription: " ++ Input.subscriptionId inputs)) ;;
  Eff.emit (Info ("Resource Group: " ++ Input.resourceGroup inputs)) ;;
  Eff.emit (Info ("Environment: " ++ Input.environmentName inputs)) ;;
  Eff.emit (Info ("Job Name: " ++ jobName)) ;;
  Eff.emit (Info ("Image: " ++ Input.image inputs)) ;;
  Eff.emit (Info ("Command: "
                  ++ match Input.command inputs with
                     | Some tokens => String.concat " " tokens
                     | None => "default"
                     end)) ;;
  Eff.emit (Info ("Timeout: " ++ Job.show_number (Input.timeout inputs)
                  ++ "s")) ;;
  Eff.emit (Info ("Run type: " ++ runType inputs ++ " "
                  ++ if Input.dryRun inputs then "[Dry Run]" else "")) ;;
  Eff.emit (Info "Authenticating with Azure...").

(** [finalExecution.properties?.status] *)
Definition final_status (finalExecution : Execution) : option string :=
  match ex_properties finalExecution with
  | Some p => p_status p
  | None => None
  end.

(** [finalExecution.properties?.template?.containers?.[0]?.exitCode || 0] *)
Definition final_exitCode (finalExecution : Execution) : Z :=
  match ex_properties finalExecution with
  | Some p => match p_exitCode p with
              | Some c => c
              | None => 0%Z
              end
  | None => 0%Z
  end.

Definition status_is_Failed (status : option string) : bool :=
  match status with
  | Some s => s =? "Failed"
  | None => false
  end.

(** The [try] block from the first use of the client to its end.  The
    callees take the parameters that job.js declares; the [dryRun]
    argument that [run] passes after them to [deleteJob] and [createJob]
    is not bound to any parameter. *)
Definition run_with_client (w : World) (fuel : nat) (client : Client)
    (inputs : Input.Inputs) (jobName : string) : M unit :=
  let resourceGroup := Input.resourceGroup inputs in
  if Input.onlyDeleteJob inputs then
    Job.deleteJob w client resourceGroup jobName
  else
    Job.createJob w client resourceGroup (Input.environmentName inputs)
                  jobName (job_options inputs) ;;
    Eff.emit (SetOutput "job-name" (Some jobName)) ;;
    if JsString.truthy (Input.cronSchedule inputs)
       || Input.manualExecution inputs
    then Eff.emit (Info "Job created successfully.")
    else if Input.dryRun inputs
    then Eff.emit (Info "Dry run mode enabled, skipping job execution")
    else
      execution <- Job.startJobExecution w client resourceGroup jobName ;;
      let executionName := ex_name execution in
      Eff.emit (SetOutput "execution-name" executionName) ;;
      finalExecution <-
        Job.pollJobExecution w client resourceGroup jobName executionName
                             (Input.timeout inputs) fuel ;;
      let status := final_status finalExecution in
      let exitCode := final_exitCode finalExecution in
      Eff.emit (Info "=== Job Completed ===") ;;
      Eff.emit (Info ("Status: " ++ JsString.of_option status)) ;;
      Eff.emit (Info ("Exit Code: " ++ JsString.of_Z exitCode)) ;;
      Utils.dumpJobLogs w (Input.logAnalyticsWorkspaceId inputs) jobName ;;
      Job.deleteJob w client resourceGroup jobName ;;
      if status_is_Failed status || negb (exitCode =? 0)%Z
      then Eff.emit (SetFailed ("Job execution failed with exit code: "
                                ++ JsString.of_Z exitCode))
      else Eff.ret tt.

(** The [try] block, with the values the four variables have when it
    ends or throws: they are all still [null] while the inputs are read,
    and all assigned before anything after that can throw. *)
Definition run_try (w : World) (fuel : nat) : Vars * M unit :=
  match Input.getInputs w with
  | (events, Done inputs) =>
      let resourceGroup := Input.resourceGroup inputs in
      let jobName :=
        JsString.or_else
          (Input.jobName inputs)
          (Utils.generateJobName "gh-job" (name_timestamp w)
                                 (Math_random w)) in
      let cronSchedule := Input.cronSchedule inputs in
      let client := mkClient (Input.subscriptionId inputs) in
      (mkVars (Some client) (Some jobName) (Some resourceGroup)
              (Some cronSchedule),
       (events, Done tt) ;;
       announce inputs jobName ;;
       run_with_client w fuel client inputs jobName)
  | (events, Raised e) => (initial_vars, (events, Raised e))
  | (events, OutOfFuel) => (initial_vars, (events, OutOfFuel))
  end.

Definition truthy_opt (o : option string) : bool :=
  match o with
  | Some s => JsString.truthy s
  | None => false
  end.

(** The [catch (error)] block. *)
Definition run_catch (w : World) (vars : Vars) (error : JsError)
  : M unit :=
  Eff.emit (ErrorLog ("Error: " ++ message error)) ;;
  Eff.emit (ErrorStack error) ;;
  match client vars, resourceGroup vars, jobName vars with
  | Some c, Some rg, Some jn =>
      if JsString.truthy rg && JsString.truthy jn
         && negb (truthy_opt (cronSchedule vars))
      then
        Eff.try_catch
          (Job.deleteJob w c rg jn)
          (fun cleanupError =>
             Eff.emit (Warning ("Failed to cleanup job: "
                                ++ message cleanupError)))
      else Eff.ret tt
  | _, _, _ => Eff.ret tt
  end ;;
  Eff.emit (SetFailed (message error)).

Definition run (w : World) (fuel : nat) : M unit :=
  let (vars, body) := run_try w fuel in
  Eff.try_catch body (run_catch w vars).

(** What [deleteJob] logs after its remote call. *)
Definition delete_report (w : World) (jobName : string) : Event :=
  match jobs_beginDeleteAndWait w with
  | Ok _ => Info ("Job deleted successfully: " ++ jobName)
  | Throw error => Warning ("Failed to delete job: " ++ message error)
  end.

(** ** Observations on a trace *)

Definition remote_calls (events : list Event) : list RemoteCall :=
  flat_map (fun e => match e with Remote c => [c] | _ => [] end) events.

Definition outputs (events : list Event)
  : list (string * option string) :=
  flat_map (fun e => match e with
                     | SetOutput n v => [(n, v)]
                     | _ => []
                     end) events.

Definition failures (events : list Event) : list string :=
  flat_map (fun e => match e with SetFailed m => [m] | _ => [] end) events.

Definition infos (events : list Event) : list string :=
  flat_map (fun e => match e with Info t => [t] | _ => [] end) events.

Definition warnings (events : list Event) : list string :=
  flat_map (fun e => match e with Warning t => [t] | _ => [] end) events.

End Main.

(* ===================================================================== *)
(** ** Reading an assembled document *)
(* ===================================================================== *)

Module Doc.

Definition secrets (d : Config.JobConfig) : list Config.Secret :=
  Config.cfg_secrets (Config.configuration d).

Definition secret_names (d : Config.JobConfig) : list string :=
  map Config.secret_name (secrets d).

Definition registries (d : Config.JobConfig) : list Config.Registry :=
  Config.cfg_registries (Config.configuration d).

(** The [env] arrays of the document's containers, in order. *)
Definition env (d : Config.JobConfig) : list Config.EnvVar :=
  flat_map Config.c_env (Config.template_containers d).

(** The entries of a secrets mapping that the assembler wires up. *)
Definition wired (entries : list (string * JsVal))
  : list (string * JsVal) :=
  filter (fun kv => Js.truthy (snd kv)) entries.

(** A key lower-cased, with its underscores replaced by hyphens. *)
Definition normalized (key : string) : string :=
  JsString.replaceAll "_" "-" (JsString.toLowerCase key).

(** The same on one ASCII character: a capital letter becomes the small
    one, an underscore a hyphen. *)
Definition normal_char (c : ascii) : ascii :=
  if ((65 <=? JsString.code c) && (JsString.code c <=? 90))%N
  then ascii_of_N (JsString.code c + 32)
  else if (JsString.code c =? 95)%N then ascii_of_N 45
  else c.

Definition wired_names (entries : list (string * JsVal)) : list string :=
  map (fun kv => normalized (fst kv)) (wired entries).

Definition with_secrets (o : Config.JobOptions) (s : JsVal)
  : Config.JobOptions :=
  Config.mkJobOptions
    (Config.image o) (Config.command o) (Config.userManagedIdentity o)
    (Config.environmentVariables o) s
    (Config.cpu o) (Config.memory o)
    (Config.registryServer o) (Config.registryUsername o)
    (Config.registryPassword o) (Config.cronSchedule o).

Definition with_registryPassword (o : Config.JobOptions) (p : string)
  : Config.JobOptions :=
  Config.mkJobOptions
    (Config.image o) (Config.command o) (Config.userManagedIdentity o)
    (Config.environmentVariables o) (Config.secrets o)
    (Config.cpu o) (Config.memory o)
    (Config.registryServer o) (Config.registryUsername o)
    p (Config.cronSchedule o).

(** The mapping without its entries under [key]. *)
Definition without_key (key : string) (entries : list (string * JsVal))
  : list (string * JsVal) :=
  filter (fun kv => negb (fst kv =? key)) entries.

End Doc.

(* ===================================================================== *)
(** ** Concrete inputs used by the examples below *)
(* ===================================================================== *)

Module Sample.

Definition options (secrets : JsVal) (server user password : string)
  : Config.JobOptions :=
  Config.mkJobOptions "ghcr.io/org/img:latest" None "" (JObj []) secrets
                      "0.5" "1Gi" server user password "".

Definition build (o : Config.JobOptions) : Result Config.JobConfig :=
  Config.buildJobConfig "sub" "rg" "env" "eastus" o.

(** Two distinct keys that normalize to the same secret name. *)
Definition colliding_secrets : list (string * JsVal) :=
  [("FOO-BAR", JStr "https://vault.example/secrets/a");
   ("FOO_BAR", JStr "https://vault.example/secrets/b")].

Definition mixed_secrets : list (string * JsVal) :=
  [("API_KEY", JStr "https://vault.example/secrets/api-key");
   ("Unused_Key", JStr "")].

(** Keys beyond ASCII. *)
Definition accented_secrets : list (string * JsVal) :=
  [("KEY_Ö", JStr "https://vault.example/secrets/o");
   ("Db_Password", JStr "https://vault.example/secrets/db")].

End Sample.

(* ===================================================================== *)
(** ** Reading the polling loop against the clock and the status reads *)
(* ===================================================================== *)

Module Poll.

(** [Date.now() - startTime] at the head of iteration [i]. *)
Definition elapsed (w : World) (i : nat) : Z :=
  (poll_now w i - poll_start w)%Z.

(** At the head of iteration [i] the elapsed time exceeds the timeout. *)
Definition exceeded (w : World) (timeout : option Z) (i : nat) : Prop :=
  exists t, timeout = Some t /\ (t * 1000 < elapsed w i)%Z.

(** The status read of iteration [i] answers with a terminal status. *)
Definition terminal_at (w : World) (i : nat) : Prop :=
  exists ex,
    job_execution w i = Ok (Some ex)
    /\ (ex_status ex = Some "Succeeded" \/ ex_status ex = Some "Failed").

Definition exceeded_b (w : World) (timeout : option Z) (i : nat) : bool :=
  Job.exceeds (elapsed w i) (Job.timeoutMs timeout).

Definition terminal_at_b (w : World) (i : nat) : bool :=
  match job_execution w i with
  | Ok (Some ex) => Job.is_terminal (ex_status ex)
  | _ => false
  end.

(** What iteration [i] logs about the answer to its status read. *)
Definition report (w : World) (i : nat) : Event :=
  match job_execution w i with
  | Ok (Some ex) => Info ("Job status: " ++ JsString.of_option (ex_status ex))
  | Ok None => Info "Job status: undefined"
  | Throw error => Warning ("Error polling job status: " ++ message error)
  end.

(** Fuel that is enough when each iteration takes at least the polling
    interval: more iterations than fit into [t] seconds. *)
Definition enough_fuel (t : Z) : nat := Z.to_nat (t / 10) + 2.

End Poll.

(* ===================================================================== *)
(** ** Concrete worlds used by the examples below *)
(* ===================================================================== *)

Module SampleWorld.

Fixpoint lookup (name : string) (inputs : list (string * string)) : string :=
  match inputs with
  | [] => ""
  | (n, v) :: rest => if name =? n then v else lookup name rest
  end.

Definition required_inputs : list (string * string) :=
  [("subscription-id", "sub"); ("resource-group", "rg");
   ("environment-name", "env")].

Definition running : Execution :=
  mkExecution (Some "exec-1") (Some "Running") None.

(** The shape the status read answers with: [status] on the object
    itself, no [properties]. *)
Definition failed : Execution :=
  mkExecution (Some "exec-1") (Some "Failed") None.

Definition succeeded : Execution :=
  mkExecution (Some "exec-1") (Some "Succeeded") None.

(** A world in which every remote call succeeds except as given: the
    inputs are [inputs], the create call answers [created], the status
    reads answer [statuses], the delete call answers [deleted]; the clock
    advances by one polling interval per iteration. *)
Definition world (inputs : list (string * string))
    (created : Result unit)
    (statuses : nat -> Result (option Execution))
    (deleted : Result unit) : World :=
  mkWorld (fun name => Ok (lookup name inputs))
          (fun _ => None)
          (fun _ => Throw (mkError "Unexpected token"))
          1700000000000%Z
          (mkUnitDouble 1 1)
          (Ok (Some "East US"))
          created
          (Ok running)
          0%Z
          (fun i => (Z.of_nat i * 10000)%Z)
          statuses
          deleted
          (Ok (mkLogsResult "Success" true [] [])).

(** The first status read fails, the second finds the job succeeded. *)
Definition flaky_statuses (i : nat) : Result (option Execution) :=
  match i with
  | O => Throw (mkError "socket hang up")
  | _ => Ok (Some succeeded)
  end.

Definition flaky : World :=
  world (("image", "img") :: ("job-name", "job-1") :: required_inputs)
        (Ok tt) flaky_statuses (Ok tt).

(** Standard mode, dry-run flag set. *)
Definition dry_run : World :=
  world (("dry-run", "true") :: ("image", "img") :: ("job-name", "job-1")
           :: required_inputs)
        (Ok tt) (fun _ => Ok (Some succeeded)) (Ok tt).

(** Delete-only mode, dry-run flag set. *)
Definition dry_run_delete_only : World :=
  world (("dry-run", "true") :: ("only-delete-job", "true")
           :: ("job-name", "job-1") :: required_inputs)
        (Ok tt) (fun _ => Ok (Some succeeded)) (Ok tt).

(** Standard mode; the create call is rejected and so is the delete. *)
Definition create_fails : World :=
  world (("image", "img") :: ("job-name", "job-1") :: required_inputs)
        (Throw (mkError "quota exceeded"))
        (fun _ => Ok (Some succeeded))
        (Throw (mkError "not found")).

(** The [try] block of that run: the variables it leaves and what it
    emits before it throws. *)
Definition create_fails_try : Main.Vars * M unit :=
  Eval vm_compute in Main.run_try create_fails 5.

(** Standard mode; the first status read finds the execution failed. *)
Definition job_fails : World :=
  world (("image", "img") :: ("job-name", "job-1") :: required_inputs)
        (Ok tt) (fun _ => Ok (Some failed)) (Ok tt).

(** Standard mode with no image input. *)
Definition no_image : World :=
  world (("job-name", "job-1") :: required_inputs)
        (Ok tt) (fun _ => Ok (Some succeeded)) (Ok tt).

End SampleWorld.

(* ===================================================================== *)
(** ** Computations and the failure of the run *)
(* ===================================================================== *)

Definition not_failure (e : Event) : Prop :=
  match e with
  | SetFailed _ => False
  | _ => True
  end.

(** Neither an output nor the failure. *)
Definition plain (e : Event) : Prop :=
  match e with
  | SetOutput _ _ => False
  | SetFailed _ => False
  | _ => True
  end.

(** A computation all of whose events satisfy [P]. *)
Definition Only {A : Type} (P : Event -> Prop) (c : M A) : Prop :=
  Forall P (fst c).

(** A computation that never calls [core.setFailed]. *)
Definition Quiet {A : Type} (c : M A) : Prop := Only not_failure c.

(** A computation that calls neither [core.setOutput] nor
    [core.setFailed]. *)
Definition Plain {A : Type} (c : M A) : Prop := Only plain c.


(* ===================================================================== *)
(** ** Predicates on strings used to state the properties *)
(* ===================================================================== *)

Module Chars.

(** Every character of [s] satisfies [p]. *)
Fixpoint all (p : ascii -> bool) (s : string) : bool :=
  match s with
  | EmptyString => true
  | String c r => p c && all p r
  end.

(** Every character of [s] is white space. *)
Definition blank (s : string) : bool :=
  forallb Unicode.white_space (Utf8.decode s).

(** No character of [s] is white space. *)
Definition no_space (s : string) : bool :=
  forallb (fun p => negb (Unicode.white_space p)) (Utf8.decode s).

(** A token: not empty and without whitespace. *)
Definition token (s : string) : bool := JsString.truthy s && no_space s.

(** An ASCII character. *)
Definition is_ascii (c : ascii) : bool := (JsString.code c <? 128)%N.

(** The characters a normalized secret name is made of: anything but the
    upper-case letters and the underscore. *)
Definition secret_char (c : ascii) : bool :=
  negb (JsString.is_upper c) && negb (Ascii.eqb c "_").

(** The characters a normalized location is made of. *)
Definition location_char (c : ascii) : bool :=
  negb (JsString.is_upper c) && negb (JsString.is_space c).

(** A digit of base 36 as [toString(36)] writes it. *)
Definition base36_char (c : ascii) : bool :=
  JsString.is_digit c || JsString.is_lower c.

End Chars.

(* ===================================================================== *)
(** ** Reading the job operations *)
(* ===================================================================== *)

Module JobFacts.

(** The location [createJob] ends up with: the normalized location of the
    environment, or the default when the read fails or leaves nothing. *)
Definition resolved_location (w : World) : string :=
  match managedEnvironments_get w with
  | Ok environment_location =>
      JsString.or_else (Utils.normalizeAzureLocation environment_location)
                       "eastus"
  | Throw _ => "eastus"
  end.

(** How many events of a trace satisfy [p]. *)
Definition count (p : Event -> bool) (events : list Event) : nat :=
  List.length (filter p events).

Definition is_status_read (e : Event) : bool :=
  match e with
  | Remote (JobExecutionGet _ _ _) => true
  | _ => false
  end.

Definition is_sleep (e : Event) : bool :=
  match e with
  | Sleep _ => true
  | _ => false
  end.

Definition is_delete (e : Event) : bool :=
  match e with
  | Remote (JobsDelete _ _) => true
  | _ => false
  end.

End JobFacts.

(* ===================================================================== *)
(** ** Reading the input functions *)
(* ===================================================================== *)

Module InputFacts.

(** The environment variable [getInput] falls back to. *)
Definition env_name (name : string) : string :=
  "INPUT_" ++ JsString.toUpperCase (JsString.replaceAll "-" "_" name).

(** What [core.getInput] contributes: its value, or nothing if it
    throws. *)
Definition core_value (w : World) (name : string) : string :=
  match core_getInput w name with
  | Ok v => v
  | Throw _ => ""
  end.

(** What the process environment contributes. *)
Definition env_value (w : World) (name : string) : string :=
  match process_env w (env_name name) with
  | Some v => v
  | None => ""
  end.

(** The value of an input: the one of [core.getInput] unless it is empty,
    else the one of the environment. *)
Definition value (w : World) (name : string) : string :=
  JsString.or_else (core_value w name) (env_value w name).

Definition missing (name : string) : JsError :=
  mkError ("Input required and not supplied: " ++ name).

Definition is_debug (e : Event) : Prop :=
  match e with
  | Debug _ => True
  | _ => False
  end.

End InputFacts.

(** Every error a computation can throw satisfies [Q]. *)
Definition Raises {A : Type} (Q : JsError -> Prop) (c : M A) : Prop :=
  forall e, snd c = Raised e -> Q e.

(** A computation that does not run out of fuel. *)
Definition Ends {A : Type} (c : M A) : Prop := snd c <> OutOfFuel.

(** The errors [getInputs] can throw: a missing required input, or text
    that [JSON.parse] rejects. *)
Definition input_error (e : JsError) : Prop :=
  e = InputFacts.missing "subscription-id"
  \/ e = InputFacts.missing "resource-group"
  \/ e = InputFacts.missing "environment-name"
  \/ (exists text,
        e = mkError ("Failed to parse environment-variables: " ++ text))
  \/ (exists text, e = mkError ("Failed to parse secrets: " ++ text)).

(** The events the polling of one execution may leave: log lines, the
    10-second sleep, and status reads of that execution. *)
Definition poll_event (resourceGroup jobName : string)
    (executionName : option string) (e : Event) : Prop :=
  match e with
  | Info _ => True
  | Warning _ => True
  | Sleep ms => ms = 10000%Z
  | Remote call => call = JobExecutionGet resourceGroup jobName executionName
  | _ => False
  end.

(** A log line. *)
Definition is_log (e : Event) : Prop :=
  match e with
  | Debug _ => True
  | Info _ => True
  | Warning _ => True
  | ErrorLog _ => True
  | _ => False
  end.

(** The line [dumpJobLogs] prints for a row. *)
Definition log_line (row : string * string) : string :=
  "[" ++ fst row ++ "] " ++ snd row.

(** [P] holds of every log line. *)
Definition Logs (P : Event -> Prop) : Prop := forall e, is_log e -> P e.

(** The resolved job name of a run: the job-name input, or a generated
    one when that is empty. *)
Definition resolved_jobName (w : World) (inputs : Input.Inputs) : string :=
  JsString.or_else (Input.jobName inputs)
                   (Utils.generateJobName "gh-job" (name_timestamp w)
                                          (Math_random w)).

(** A remote call, if [e] is one, is on the given resource group,
    environment, job and workspace. *)
Definition targets (rg en jn ws : string) (e : Event) : Prop :=
  match e with
  | Remote (ManagedEnvironmentsGet r e') => r = rg /\ e' = en
  | Remote (JobsCreateOrUpdate r j _) => r = rg /\ j = jn
  | Remote (JobsStart r j) => r = rg /\ j = jn
  | Remote (JobExecutionGet r j _) => r = rg /\ j = jn
  | Remote (JobsDelete r j) => r = rg /\ j = jn
  | Remote (LogsQueryWorkspace s j) => s = ws /\ j = jn
  | _ => True
  end.

Definition not_delete (e : Event) : Prop := JobFacts.is_delete e = false.

(** What the [catch] block of [run] leaves once the client exists: the
    two error lines, the delete with its report unless a cron schedule
    was requested, and the failure. *)
Definition catch_events (w : World) (rg jn cron : string)
    (error : JsError) : list Event :=
  [ErrorLog ("Error: " ++ message error); ErrorStack error]
    ++ (if JsString.truthy cron then []
        else [Info ("Deleting job: " ++ jn);
              Remote (JobsDelete rg jn);
              Main.delete_report w jn])
    ++ [SetFailed (message error)].

(** An event that is not a remote call. *)
Definition not_remote (e : Event) : Prop :=
  match e with
  | Remote _ => False
  | _ => True
  end.

(** An event that sets no output. *)
Definition not_output (e : Event) : Prop :=
  match e with
  | SetOutput _ _ => False
  | _ => True
  end.

(** A remote call other than the delete of a job. *)
Definition keeps_job (c : RemoteCall) : Prop :=
  match c with
  | JobsDelete _ _ => False
  | _ => True
  end.

(** ** More sample runs *)

Module SampleRuns.

(** The inputs object [getInputs] returns in a world where it returns. *)
Definition inputs_of (w : World) : Input.Inputs :=
  match snd (Input.getInputs w) with
  | Done inputs => inputs
  | _ => Input.mkInputs "" "" "" "" "" None "" "" "" "" None
                        "" "" "" false "" false false JNull JNull
  end.

(** A scheduled job, every remote call succeeding. *)
Definition scheduled : World :=
  SampleWorld.world
    (("cron-schedule", "0 * * * *") :: ("image", "img")
       :: ("job-name", "job-1") :: SampleWorld.required_inputs)
    (Ok tt) (fun _ => Ok None) (Ok tt).

(** A one-off job with a log workspace; the second status read finds
    the job succeeded under [properties]. *)
Definition one_off : World :=
  SampleWorld.world
    (("log-analytics-workspace-id", "ws-1") :: ("image", "img")
       :: ("job-name", "job-1") :: SampleWorld.required_inputs)
    (Ok tt)
    (fun i => match i with
              | O => Ok (Some SampleWorld.running)
              | _ => Ok (Some SampleWorld.succeeded)
              end)
    (Ok tt).

(** No subscription-id. *)
Definition no_subscription : World :=
  SampleWorld.world [("resource-group", "rg")] (Ok tt)
                    (fun _ => Ok None) (Ok tt).

End SampleRuns.

(** What a one-off run leaves after a poll that returned
    [finalExecution]: the three summary lines, the log retrieval, the
    delete with its report, and the failure if the execution failed. *)
Definition finish_events (w : World) (inputs : Input.Inputs)
    (jn : string) (finalExecution : Execution) : list Event :=
  let status := Main.final_status finalExecution in
  let exitCode := Main.final_exitCode finalExecution in
  [Info "=== Job Completed ===";
   Info ("Status: " ++ JsString.of_option status);
   Info ("Exit Code: " ++ JsString.of_Z exitCode)]
    ++ fst (Utils.dumpJobLogs w (Input.logAnalyticsWorkspaceId inputs) jn)
    ++ [Info ("Deleting job: " ++ jn);
        Remote (JobsDelete (Input.resourceGroup inputs) jn);
        Main.delete_report w jn]
    ++ (if Main.status_is_Failed status || negb (exitCode =? 0)%Z
        then [SetFailed ("Job execution failed with exit code: "
                         ++ JsString.of_Z exitCode)]
        else []).

(** The inputs object with other values for environment-variables,
    secrets and registry-password. *)
Definition with_secret_values (inputs : Input.Inputs)
    (environmentVariables secrets : JsVal) (registryPassword : string)
  : Input.Inputs :=
  Input.mkInputs
    (Input.subscriptionId inputs) (Input.resourceGroup inputs)
    (Input.environmentName inputs) (Input.jobName inputs)
    (Input.image inputs) (Input.command inputs)
    (Input.userManagedIdentity inputs) (Input.cronSchedule inputs)
    (Input.cpu inputs) (Input.memory inputs) (Input.timeout inputs)
    (Input.registryServer inputs) (Input.registryUsername inputs)
    registryPassword
    (Input.dryRun inputs) (Input.logAnalyticsWorkspaceId inputs)
    (Input.manualExecution inputs) (Input.onlyDeleteJob inputs)
    environmentVariables secrets.

Definition is_null (v : JsVal) : bool :=
  match v with
  | JNull => true
  | _ => false
  end.

(** An event with the document of a create call left out. *)
Definition hide_document (e : Event) : Event + string * string :=
  match e with
  | Remote (JobsCreateOrUpdate rg jn _) => inr (rg, jn)
  | _ => inl e
  end.

(** Two results that are both a value, or both the same error. *)
Definition same_error {A : Type} (r r' : Result A) : Prop :=
  match r, r' with
  | Ok _, Ok _ => True
  | Throw e, Throw e' => e = e'
  | _, _ => False
  end.

(* ===================================================================== *)
(** ** Predicates on the characters of a string *)
(* ===================================================================== *)

Module Points.

(** A code point. *)
Definition scalar (p : N) : Prop := (p < 0x110000)%N.

(** A character that lower-casing leaves alone, whatever surrounds it. *)
Definition stable (q : N) : bool :=
  (Unicode.simple_lower q =? q)%N && negb (q =? 0x130)%N.

Definition starts_nonspace (l : list N) : bool :=
  match l with
  | [] => false
  | p :: _ => negb (Unicode.white_space p)
  end.

Definition ends_nonspace (l : list N) : bool := starts_nonspace (rev l).

Definition no_space (l : list N) : bool :=
  forallb (fun p => negb (Unicode.white_space p)) l.

(** Not an ASCII capital letter. *)
Definition not_capital (p : N) : bool := negb ((65 <=? p) && (p <=? 90))%N.

End Points.

(* ===================================================================== *)
(** * Properties *)
(* ===================================================================== *)

(** ** The monad *)

Lemma bind_done {A B : Type} (tr : list Event) (a : A) (k : A -> M B) :
  Eff.bind (tr, Done a) k = (tr ++ fst (k a), snd (k a)).
Proof. unfold Eff.bind. now destruct (k a). Qed.

(** [bind] and [try_catch] by the outcome of their first argument. *)
Lemma bind_cases {A B : Type} (c : M A) (k : A -> M B) :
  Eff.bind c k
  = match snd c with
    | Done a => (fst c ++ fst (k a), snd (k a))
    | Raised e => (fst c, Raised e)
    | OutOfFuel => (fst c, OutOfFuel)
    end.
Proof.
  destruct c as [tr [a|e|]]; simpl; try reflexivity. now destruct (k a).
Qed.

Lemma try_catch_cases {A : Type} (c : M A) (h : JsError -> M A) :
  Eff.try_catch c h
  = match snd c with
    | Raised e => (fst c ++ fst (h e), snd (h e))
    | _ => c
    end.
Proof.
  destruct c as [tr [a|e|]]; simpl; try reflexivity. now destruct (h e).
Qed.

Lemma emit_then {A : Type} (e : Event) (c : M A) :
  Eff.bind (Eff.emit e) (fun _ => c) = (e :: fst c, snd c).
Proof. unfold Eff.emit. now rewrite bind_done. Qed.

(** ** The config assembler *)

Lemma fold_push_env (entries : list (string * JsVal)) :
  forall acc,
    fold_left Config.push_env entries acc
    = acc ++ map (fun kv => Config.EnvValue (fst kv) (snd kv)) entries.
Proof.
  induction entries as [|kv rest IH]; intros acc; simpl.
  - now rewrite app_nil_r.
  - rewrite IH. unfold Config.push_env. now rewrite <- app_assoc.
Qed.

Lemma fold_push_secret (identity : string) (entries : list (string * JsVal)) :
  forall sa ev,
    fold_left (Config.push_secret identity) entries (sa, ev)
    = (sa ++ map (fun kv => Config.SecretKeyVault
                              (Config.secretName (fst kv)) (snd kv) identity)
                 (Doc.wired entries),
       ev ++ map (fun kv => Config.EnvSecretRef
                              (fst kv) (Config.secretName (fst kv)))
                 (Doc.wired entries)).
Proof.
  induction entries as [|kv rest IH]; intros sa ev; simpl.
  - now rewrite !app_nil_r.
  - unfold Config.push_secret at 2. simpl.
    destruct (Js.truthy (snd kv)); simpl.
    + rewrite IH. now rewrite <- !app_assoc.
    + apply IH.
Qed.

(** What the assembler returns once both mappings can be enumerated. *)
Lemma buildJobConfig_shape
    (sub rg en loc : string) (o : Config.JobOptions)
    (envEntries secretEntries : list (string * JsVal)) :
  Js.Object_entries (Config.environmentVariables o) = Ok envEntries ->
  Js.Object_entries (Config.secrets o) = Ok secretEntries ->
  exists doc,
    Config.buildJobConfig sub rg en loc o = Ok doc
    /\ Doc.secrets doc
       = map (fun kv => Config.SecretKeyVault
                          (Config.secretName (fst kv)) (snd kv)
                          (Config.userManagedIdentity o))
             (Doc.wired secretEntries)
         ++ (if Config.registry_complete o
             then [Config.SecretValue "registry-password"
                                      (Config.registryPassword o)]
             else [])
    /\ Doc.env doc
       = map (fun kv => Config.EnvValue (fst kv) (snd kv)) envEntries
         ++ map (fun kv => Config.EnvSecretRef
                             (fst kv) (Config.secretName (fst kv)))
                (Doc.wired secretEntries)
    /\ Doc.registries doc
       = (if Config.registry_complete o
          then [Config.mkRegistry (Config.registryServer o)
                                  (Config.registryUsername o)
                                  "registry-password"]
          else []).
Proof.
  intros He Hs. unfold Config.buildJobConfig. rewrite He, Hs.
  rewrite fold_push_env, fold_push_secret. simpl.
  eexists. split; [reflexivity|].
  unfold Doc.secrets, Doc.env, Doc.registries. simpl.
  rewrite app_nil_r.
  destruct (Config.registry_complete o); simpl;
    rewrite ?app_nil_r; auto.
Qed.

(** The assembler returns a document only if both mappings could be
    enumerated. *)
Lemma buildJobConfig_entries
    (sub rg en loc : string) (o : Config.JobOptions) (doc : Config.JobConfig) :
  Config.buildJobConfig sub rg en loc o = Ok doc ->
  exists envEntries secretEntries,
    Js.Object_entries (Config.environmentVariables o) = Ok envEntries
    /\ Js.Object_entries (Config.secrets o) = Ok secretEntries.
Proof.
  unfold Config.buildJobConfig.
  destruct (Js.Object_entries (Config.environmentVariables o)) as [ee|];
    [|discriminate].
  destruct (Js.Object_entries (Config.secrets o)) as [se|]; [|discriminate].
  intros _. now exists ee, se.
Qed.

Lemma NoDup_snoc {A : Type} (l : list A) (x : A) :
  NoDup (l ++ [x]) <-> NoDup l /\ ~ In x l.
Proof.
  split.
  - intros H. apply NoDup_remove in H. now rewrite app_nil_r in H.
  - intros [Hl Hx]. apply NoDup_app; auto.
    + repeat constructor. intros [].
    + intros a Ha [<-|[]]. contradiction.
Qed.

(** The document's parts in terms of the enumerated mappings, for a
    document the assembler did return. *)
Lemma buildJobConfig_inv
    (sub rg en loc : string) (o : Config.JobOptions) (doc : Config.JobConfig)
    (secretEntries : list (string * JsVal)) :
  Js.Object_entries (Config.secrets o) = Ok secretEntries ->
  Config.buildJobConfig sub rg en loc o = Ok doc ->
  exists envEntries,
    Js.Object_entries (Config.environmentVariables o) = Ok envEntries
    /\ Doc.secrets doc
       = map (fun kv => Config.SecretKeyVault
                          (Config.secretName (fst kv)) (snd kv)
                          (Config.userManagedIdentity o))
             (Doc.wired secretEntries)
         ++ (if Config.registry_complete o
             then [Config.SecretValue "registry-password"
                                      (Config.registryPassword o)]
             else [])
    /\ Doc.env doc
       = map (fun kv => Config.EnvValue (fst kv) (snd kv)) envEntries
         ++ map (fun kv => Config.EnvSecretRef
                             (fst kv) (Config.secretName (fst kv)))
                (Doc.wired secretEntries)
    /\ Doc.registries doc
       = (if Config.registry_complete o
          then [Config.mkRegistry (Config.registryServer o)
                                  (Config.registryUsername o)
                                  "registry-password"]
          else []).
Proof.
  intros Hs Hb.
  destruct (buildJobConfig_entries _ _ _ _ _ _ Hb) as (ee & se & He & Hs').
  rewrite Hs in Hs'. injection Hs' as <-.
  destruct (buildJobConfig_shape sub rg en loc o ee secretEntries He Hs)
    as (doc' & Hb' & H).
  rewrite Hb in Hb'. injection Hb' as <-.
  exists ee. now split.
Qed.

Lemma truthy_string_iff (s : string) :
  JsString.truthy s = true <-> s <> "".
Proof.
  unfold JsString.truthy. destruct (String.eqb_spec s ""); simpl; split;
    congruence.
Qed.

Lemma registry_complete_iff (o : Config.JobOptions) :
  Config.registry_complete o = true
  <-> Config.registryServer o <> ""
      /\ Config.registryUsername o <> ""
      /\ Config.registryPassword o <> "".
Proof.
  unfold Config.registry_complete.
  rewrite !andb_true_iff, !truthy_string_iff. tauto.
Qed.

(** *** The normalization of a key *)

(** Settles a statement about every byte by trying all 256. *)
Ltac each_char c :=
  destruct c as [[] [] [] [] [] [] [] []]; vm_compute;
  first [reflexivity | discriminate | intros; discriminate
        | intros; reflexivity | intros; repeat split].

Lemma map_chars_append (f : ascii -> ascii) (a b : string) :
  JsString.map_chars f (a ++ b)
  = (JsString.map_chars f a ++ JsString.map_chars f b)%string.
Proof. induction a as [|c r IH]; simpl; [reflexivity | now rewrite IH]. Qed.

Lemma normal_char_byte (c : ascii) :
  Chars.is_ascii c = true ->
  JsString.replaceAll "_" "-"
    (Utf8.encode1 (Unicode.simple_lower (Utf8.code c)))
  = String (Doc.normal_char c) "".
Proof. each_char c. Qed.

Lemma ascii_point (c : ascii) :
  Chars.is_ascii c = true ->
  (Utf8.code c <? 0x80)%N = true
  /\ (Utf8.code c =? 0x3A3)%N = false
  /\ (Utf8.code c =? 0x130)%N = false.
Proof. each_char c. Qed.

Lemma lowered_ascii (key : string) :
  Chars.all Chars.is_ascii key = true ->
  forall after,
    JsString.replaceAll "_" "-"
      (Utf8.encode (Unicode.lower after (Utf8.decode key)))
    = JsString.map_chars Doc.normal_char key.
Proof.
  induction key as [|c r IH]; intros H after; [reflexivity|].
  simpl in H. apply andb_true_iff in H. destruct H as [Hc Hr].
  destruct (ascii_point c Hc) as (H1 & H2 & H3).
  unfold Utf8.decode. cbn [Utf8.decode_from]. unfold Utf8.head.
  cbv zeta. rewrite H1. fold (Utf8.decode r).
  cbn [Unicode.lower]. rewrite H2, H3. cbn [app Utf8.encode].
  pose proof (normal_char_byte c Hc) as Hn. specialize (IH Hr).
  unfold JsString.replaceAll in *. rewrite map_chars_append.
  rewrite Hn, IH. reflexivity.
Qed.

(** On a key of ASCII characters the normalization makes each capital
    letter small and each underscore a hyphen, and nothing else. *)
Lemma normalized_ascii (key : string) :
  Chars.all Chars.is_ascii key = true ->
  Doc.normalized key = JsString.map_chars Doc.normal_char key.
Proof. intros H. now apply lowered_ascii. Qed.

(** C4, as stated, fails: the two distinct keys [FOO-BAR] and [FOO_BAR],
    both with a vault URL, give two secret descriptors named [foo-bar]. *)
Lemma C4_colliding_keys_share_a_name :
  exists doc,
    Sample.build (Sample.options (JObj Sample.colliding_secrets) "" "" "")
    = Ok doc
    /\ NoDup (map fst Sample.colliding_secrets)
    /\ Doc.secret_names doc = ["foo-bar"; "foo-bar"]
    /\ ~ NoDup (Doc.secret_names doc).
Proof.
  eexists. split; [reflexivity|].
  split.
  - repeat constructor; simpl; intuition discriminate.
  - split; [reflexivity|].
    intros H. inversion H as [|x l Hin _]; subst.
    apply Hin. now left.
Qed.

(** C4 (amended): the secret names of the document are the normalized keys
    of the entries with a truthy value, in order, followed by
    [registry-password] when the registry credentials are complete; they
    are pairwise distinct exactly when those normalized keys are pairwise
    distinct and none of them is the name of the added registry secret.
    The normalized key is the key lower-cased as [toLowerCase] does, with
    each underscore replaced by a hyphen; on a key of ASCII characters
    that is: each capital letter made small, each underscore made a
    hyphen, every other character kept. *)
Theorem C4_secret_names_distinct_iff
    (sub rg en loc : string) (o : Config.JobOptions) (doc : Config.JobConfig)
    (entries : list (string * JsVal)) :
  Js.Object_entries (Config.secrets o) = Ok entries ->
  Config.buildJobConfig sub rg en loc o = Ok doc ->
  Doc.secret_names doc
  = map (fun kv => JsString.replaceAll
                     "_" "-" (JsString.toLowerCase (fst kv)))
        (Doc.wired entries)
    ++ (if Config.registry_complete o then ["registry-password"] else [])
  /\ (NoDup (Doc.secret_names doc)
      <-> NoDup (Doc.wired_names entries)
          /\ (Config.registry_complete o = true ->
              ~ In "registry-password" (Doc.wired_names entries)))
  /\ (forall key value,
        In (key, value) (Doc.wired entries) ->
        Chars.all Chars.is_ascii key = true ->
        In (JsString.map_chars Doc.normal_char key)
           (Doc.secret_names doc)).
Proof.
  intros Hs Hb.
  cut (Doc.secret_names doc
       = Doc.wired_names entries
         ++ (if Config.registry_complete o
             then ["registry-password"] else [])
       /\ (NoDup (Doc.secret_names doc)
           <-> NoDup (Doc.wired_names entries)
               /\ (Config.registry_complete o = true ->
                   ~ In "registry-password" (Doc.wired_names entries)))).
  { intros [Hn Hiff]. split; [exact Hn|]. split; [exact Hiff|].
    intros key value Hin Hascii. rewrite Hn. apply in_or_app. left.
    rewrite <- (normalized_ascii key Hascii).
    unfold Doc.wired_names. apply in_map_iff. now exists (key, value). }
  destruct (buildJobConfig_inv _ _ _ _ _ _ _ Hs Hb) as (ee & _ & Hsec & _).
  assert (Hn : Doc.secret_names doc
               = Doc.wired_names entries
                 ++ (if Config.registry_complete o
                     then ["registry-password"] else [])).
  { unfold Doc.secret_names. rewrite Hsec, map_app, map_map.
    unfold Doc.wired_names. simpl.
    now destruct (Config.registry_complete o). }
  split; [exact Hn|]. rewrite Hn.
  destruct (Config.registry_complete o).
  - rewrite NoDup_snoc. intuition.
  - rewrite app_nil_r. intuition discriminate.
Qed.

Lemma C4_secret_names_distinct_iff_witness :
  exists doc,
    Sample.build (Sample.options (JObj Sample.accented_secrets)
                                 "ghcr.io" "octocat" "s3cret") = Ok doc
    /\ Doc.secret_names doc
       = ["key-ö"; "db-password"; "registry-password"]
    /\ NoDup (Doc.secret_names doc).
Proof.
  eexists. split; [vm_compute; reflexivity|].
  destruct (C4_secret_names_distinct_iff
              "sub" "rg" "env" "eastus"
              (Sample.options (JObj Sample.accented_secrets)
                              "ghcr.io" "octocat" "s3cret")
              _ Sample.accented_secrets eq_refl
              ltac:(vm_compute; reflexivity)) as (Hn & Hiff & _).
  split; [rewrite Hn; vm_compute; reflexivity|].
  apply Hiff. split.
  - vm_compute. repeat constructor; simpl; intuition discriminate.
  - intros _. vm_compute. intuition discriminate.
Defined.

(** The assembler reads the registry password only when the registry
    triple is complete. *)
Lemma buildJobConfig_password_unused
    (sub rg en loc : string) (o : Config.JobOptions) (p : string) :
  Config.registryServer o = "" \/ Config.registryUsername o = "" ->
  Config.buildJobConfig sub rg en loc (Doc.with_registryPassword o p)
  = Config.buildJobConfig sub rg en loc o.
Proof.
  intros H. unfold Config.buildJobConfig, Config.registry_complete.
  destruct o as [im cm um ev se cp me rs ru rp cr]; simpl in *.
  destruct H as [-> | ->]; simpl; rewrite ?andb_false_r; reflexivity.
Qed.

(** C5: the registries list is non-empty iff server, username and password
    are all non-empty; then it is the single descriptor that refers to the
    secret [registry-password], and that secret carries the password as its
    literal value; otherwise the list is empty, no secret of the document
    carries a literal value, and when server or username is missing the
    document is the same whatever the password is. *)
Theorem C5_registry_all_or_nothing
    (sub rg en loc : string) (o : Config.JobOptions) (doc : Config.JobConfig) :
  Config.buildJobConfig sub rg en loc o = Ok doc ->
  (Doc.registries doc <> []
   <-> Config.registryServer o <> ""
       /\ Config.registryUsername o <> ""
       /\ Config.registryPassword o <> "")
  /\ (Doc.registries doc <> [] ->
      Doc.registries doc
      = [Config.mkRegistry (Config.registryServer o)
                           (Config.registryUsername o) "registry-password"]
      /\ In (Config.SecretValue "registry-password"
                                (Config.registryPassword o))
            (Doc.secrets doc)
      /\ forall name value,
           In (Config.SecretValue name value) (Doc.secrets doc) ->
           name = "registry-password"
           /\ value = Config.registryPassword o)
  /\ (Config.registryServer o = ""
      \/ Config.registryUsername o = ""
      \/ Config.registryPassword o = "" ->
      Doc.registries doc = []
      /\ (forall name value,
            ~ In (Config.SecretValue name value) (Doc.secrets doc))
      /\ (Config.registryServer o = "" \/ Config.registryUsername o = "" ->
          forall p,
            Config.buildJobConfig sub rg en loc
                                  (Doc.with_registryPassword o p)
            = Ok doc)).
Proof.
  intros Hb.
  destruct (buildJobConfig_entries _ _ _ _ _ _ Hb) as (ee & se & He & Hs).
  destruct (buildJobConfig_inv _ _ _ _ _ _ _ Hs Hb)
    as (ee' & _ & Hsec & _ & Hreg).
  pose proof (registry_complete_iff o) as Hc.
  assert (Hkv : forall name value l,
             ~ In (Config.SecretValue name value)
                  (map (fun kv => Config.SecretKeyVault
                                    (Config.secretName (fst kv)) (snd kv)
                                    (Config.userManagedIdentity o)) l)).
  { intros name value l Hin. apply in_map_iff in Hin.
    destruct Hin as (kv & Heq & _). discriminate Heq. }
  destruct (Config.registry_complete o) eqn:Hrc.
  - assert (Hall : Config.registryServer o <> ""
                   /\ Config.registryUsername o <> ""
                   /\ Config.registryPassword o <> "")
      by now apply Hc.
    split; [|split].
    + rewrite Hreg. split; [intros _; exact Hall | intros _; discriminate].
    + intros _. split; [exact Hreg|]. rewrite Hsec. split.
      * apply in_or_app. right. now left.
      * intros name value Hin. apply in_app_or in Hin.
        destruct Hin as [Hin | [Heq | []]].
        -- now apply Hkv in Hin.
        -- injection Heq as <- <-. now split.
    + intros Hmiss. exfalso. tauto.
  - assert (Hnot : ~ (Config.registryServer o <> ""
                      /\ Config.registryUsername o <> ""
                      /\ Config.registryPassword o <> "")).
    { intros Hall. apply Hc in Hall. discriminate Hall. }
    split; [|split].
    + rewrite Hreg. split; [intros H; now elim H | intros H; now elim Hnot].
    + rewrite Hreg. intros H. now elim H.
    + intros _. split; [exact Hreg|]. split.
      * intros name value Hin. rewrite Hsec, app_nil_r in Hin.
        now apply Hkv in Hin.
      * intros Hsu p. rewrite buildJobConfig_password_unused; assumption.
Qed.

Lemma C5_registry_all_or_nothing_witness :
  exists doc,
    Sample.build (Sample.options (JObj []) "ghcr.io" "octocat" "s3cret")
    = Ok doc
    /\ Doc.registries doc
       = [Config.mkRegistry "ghcr.io" "octocat" "registry-password"]
    /\ In (Config.SecretValue "registry-password" "s3cret") (Doc.secrets doc).
Proof.
  eexists. split; [reflexivity|].
  destruct (C5_registry_all_or_nothing
              "sub" "rg" "env" "eastus"
              (Sample.options (JObj []) "ghcr.io" "octocat" "s3cret")
              _ eq_refl) as (Hiff & Hfull & _).
  assert (Hne : Doc.registries
                  (Config.mkJobConfig
                     (Config.mkConfiguration "Manual" 1800 0
                        (Config.ManualTriggerConfig 1 1)
                        [Config.SecretValue "registry-password" "s3cret"]
                        [Config.mkRegistry "ghcr.io" "octocat"
                                           "registry-password"])
                     "/subscriptions/sub/resourceGroups/rg/providers/Microsoft.App/managedEnvironments/env"
                     "eastus" "Consumption"
                     [Config.mkContainer "main" "ghcr.io/org/img:latest"
                        (Config.mkResources (Config.ParseFloat "0.5") "1Gi")
                        [] None]
                     None) <> []).
  { apply Hiff. simpl. repeat split; discriminate. }
  destruct (Hfull Hne) as (Hreg & Hin & _).
  split; [exact Hreg | exact Hin].
Defined.

Lemma unique_key_value {A : Type} (l : list (string * A)) (k : string)
    (v v' : A) :
  NoDup (map fst l) -> In (k, v) l -> In (k, v') l -> v = v'.
Proof.
  induction l as [|[k0 v0] rest IH]; simpl; intros Hnd Hin Hin'; [easy|].
  inversion Hnd as [|? ? Hnotin Hrest]; subst.
  destruct Hin as [Heq|Hin], Hin' as [Heq'|Hin'].
  - congruence.
  - injection Heq as -> ->. elim Hnotin.
    apply in_map_iff. now exists (k, v').
  - injection Heq' as -> ->. elim Hnotin.
    apply in_map_iff. now exists (k, v).
  - now apply IH.
Qed.

Lemma filter_filter {A : Type} (f g : A -> bool) (l : list A) :
  filter f (filter g l) = filter (fun x => g x && f x) l.
Proof.
  induction l as [|x rest IH]; simpl; [reflexivity|].
  destruct (g x); simpl; [destruct (f x)|]; now rewrite IH.
Qed.

(** Dropping a key whose value is falsy does not change what is wired. *)
Lemma wired_without_falsy_key (entries : list (string * JsVal))
    (key : string) (value : JsVal) :
  NoDup (map fst entries) ->
  In (key, value) entries ->
  Js.truthy value = false ->
  Doc.wired (Doc.without_key key entries) = Doc.wired entries.
Proof.
  intros Hnd Hin Hfalsy. unfold Doc.wired, Doc.without_key.
  rewrite filter_filter. apply filter_ext_in.
  intros [k v] Hkv. simpl.
  destruct (String.eqb_spec k key) as [->|Hne]; simpl; [|reflexivity].
  rewrite (unique_key_value entries key v value Hnd Hkv Hin).
  now rewrite Hfalsy.
Qed.

(** The assembler depends on the secrets mapping only through its wired
    entries. *)
Lemma buildJobConfig_wired
    (sub rg en loc : string) (o : Config.JobOptions)
    (entries entries' : list (string * JsVal)) :
  Js.Object_entries (Config.secrets o) = Ok entries ->
  Doc.wired entries' = Doc.wired entries ->
  Config.buildJobConfig sub rg en loc (Doc.with_secrets o (JObj entries'))
  = Config.buildJobConfig sub rg en loc o.
Proof.
  intros Hs Hw. unfold Config.buildJobConfig.
  destruct o as [im cm um ev se cp me rs ru rp cr]; simpl in *.
  rewrite Hs.
  destruct (Js.Object_entries ev) as [ee|]; [|reflexivity].
  rewrite !fold_push_secret, Hw. reflexivity.
Qed.

(** C7: an entry of the secrets mapping whose value is falsy gives no
    secret-referencing entry in the environment list and no secret
    descriptor; the assembler returns the document it returns for the
    mapping without that entry, and does not throw. *)
Theorem C7_falsy_secret_is_skipped
    (sub rg en loc : string) (o : Config.JobOptions)
    (envEntries entries : list (string * JsVal))
    (key : string) (value : JsVal) :
  Js.Object_entries (Config.environmentVariables o) = Ok envEntries ->
  Js.Object_entries (Config.secrets o) = Ok entries ->
  NoDup (map fst entries) ->
  In (key, value) entries ->
  Js.truthy value = false ->
  exists doc,
    Config.buildJobConfig sub rg en loc o = Ok doc
    /\ (forall ref, ~ In (Config.EnvSecretRef key ref) (Doc.env doc))
    /\ (forall name identity,
          ~ In (Config.SecretKeyVault name value identity) (Doc.secrets doc))
    /\ Config.buildJobConfig sub rg en loc
         (Doc.with_secrets o (JObj (Doc.without_key key entries)))
       = Ok doc.
Proof.
  intros He Hs Hnd Hin Hfalsy.
  destruct (buildJobConfig_shape sub rg en loc o envEntries entries He Hs)
    as (doc & Hb & Hsec & Henv & _).
  exists doc. split; [exact Hb|]. split; [|split].
  - intros ref Href. rewrite Henv in Href. apply in_app_or in Href.
    destruct Href as [Href|Href]; apply in_map_iff in Href;
      destruct Href as ([k v] & Heq & Hkv); [discriminate Heq|].
    simpl in Heq. injection Heq as -> _.
    apply filter_In in Hkv. destruct Hkv as [Hkv Htruthy]. simpl in Htruthy.
    rewrite (unique_key_value entries key v value Hnd Hkv Hin) in Htruthy.
    congruence.
  - intros name identity Hdesc. rewrite Hsec in Hdesc.
    apply in_app_or in Hdesc. destruct Hdesc as [Hdesc|Hdesc].
    + apply in_map_iff in Hdesc. destruct Hdesc as ([k v] & Heq & Hkv).
      simpl in Heq. injection Heq as _ -> _.
      apply filter_In in Hkv. simpl in Hkv. destruct Hkv as [_ Htruthy].
      congruence.
    + destruct (Config.registry_complete o); simpl in Hdesc;
        [destruct Hdesc as [Heq|[]]; discriminate Heq | contradiction].
  - rewrite <- Hb. apply buildJobConfig_wired with (entries := entries).
    + exact Hs.
    + now apply wired_without_falsy_key with (value := value).
Qed.

Lemma C7_falsy_secret_is_skipped_witness :
  exists doc,
    Sample.build (Sample.options (JObj Sample.mixed_secrets) "" "" "")
    = Ok doc
    /\ (forall ref, ~ In (Config.EnvSecretRef "Unused_Key" ref) (Doc.env doc))
    /\ Doc.secret_names doc = ["api-key"].
Proof.
  destruct (C7_falsy_secret_is_skipped
              "sub" "rg" "env" "eastus"
              (Sample.options (JObj Sample.mixed_secrets) "" "" "")
              [] Sample.mixed_secrets "Unused_Key" (JStr ""))
    as (doc & Hb & Henv & _).
  - reflexivity.
  - reflexivity.
  - repeat constructor; simpl; intuition discriminate.
  - right. now left.
  - reflexivity.
  - exists doc. split; [exact Hb|]. split; [exact Henv|].
    unfold Sample.build in Hb. vm_compute in Hb. injection Hb as <-.
    reflexivity.
Defined.

(** C10: for an entry of the secrets mapping with a truthy value, the
    environment list has an entry whose name is the key as written and
    whose [secretRef] is the normalized name (the key lower-cased as
    [toLowerCase] does, with each underscore replaced by a hyphen), next
    to the secret descriptor of that normalized name; on a key of ASCII
    characters the normalized name is the key with each capital letter
    made small and each underscore made a hyphen; and every
    secret-referencing entry of the list has this form for some wired
    key. *)
Theorem C10_secret_env_keeps_original_key
    (sub rg en loc : string) (o : Config.JobOptions)
    (envEntries entries : list (string * JsVal))
    (key : string) (value : JsVal) :
  Js.Object_entries (Config.environmentVariables o) = Ok envEntries ->
  Js.Object_entries (Config.secrets o) = Ok entries ->
  In (key, value) entries ->
  Js.truthy value = true ->
  exists doc,
    Config.buildJobConfig sub rg en loc o = Ok doc
    /\ In (Config.EnvSecretRef
             key (JsString.replaceAll "_" "-" (JsString.toLowerCase key)))
          (Doc.env doc)
    /\ In (Config.SecretKeyVault
             (JsString.replaceAll "_" "-" (JsString.toLowerCase key)) value
             (Config.userManagedIdentity o))
          (Doc.secrets doc)
    /\ (Chars.all Chars.is_ascii key = true ->
        In (Config.EnvSecretRef
              key (JsString.map_chars Doc.normal_char key))
           (Doc.env doc))
    /\ forall name ref,
         In (Config.EnvSecretRef name ref) (Doc.env doc) ->
         ref = JsString.replaceAll "_" "-" (JsString.toLowerCase name)
         /\ exists v, In (name, v) entries /\ Js.truthy v = true.
Proof.
  intros He Hs Hin Htruthy.
  destruct (buildJobConfig_shape sub rg en loc o envEntries entries He Hs)
    as (doc & Hb & Hsec & Henv & _).
  assert (Hw : In (key, value) (Doc.wired entries))
    by (apply filter_In; now split).
  assert (Hk : In (Config.EnvSecretRef key (Doc.normalized key))
                  (Doc.env doc)).
  { rewrite Henv. apply in_or_app. right.
    apply in_map_iff. now exists (key, value). }
  exists doc. split; [exact Hb|]. split; [exact Hk|]. split; [|split].
  - rewrite Hsec. apply in_or_app. left.
    apply in_map_iff. now exists (key, value).
  - intros Hascii. now rewrite <- (normalized_ascii key Hascii).
  - intros name ref Href. rewrite Henv in Href. apply in_app_or in Href.
    destruct Href as [Href|Href]; apply in_map_iff in Href;
      destruct Href as ([k v] & Heq & Hkv); [discriminate Heq|].
    simpl in Heq. injection Heq as -> <-.
    apply filter_In in Hkv. destruct Hkv as [Hkv Hv].
    split; [reflexivity|]. now exists v.
Qed.

Lemma C10_secret_env_keeps_original_key_witness :
  exists doc,
    Sample.build (Sample.options (JObj Sample.accented_secrets) "" "" "")
    = Ok doc
    /\ In (Config.EnvSecretRef "KEY_Ö" "key-ö") (Doc.env doc).
Proof.
  destruct (C10_secret_env_keeps_original_key
              "sub" "rg" "env" "eastus"
              (Sample.options (JObj Sample.accented_secrets) "" "" "")
              [] Sample.accented_secrets
              "KEY_Ö" (JStr "https://vault.example/secrets/o"))
    as (doc & Hb & Hin & _).
  - reflexivity.
  - reflexivity.
  - now left.
  - reflexivity.
  - exists doc. split; [exact Hb|].
    replace "key-ö"
      with (JsString.replaceAll "_" "-" (JsString.toLowerCase "KEY_Ö"))
      by (vm_compute; reflexivity).
    exact Hin.
Defined.

(** ** The polling loop *)

Lemma exceeded_reflect (w : World) (timeout : option Z) (i : nat) :
  Poll.exceeded_b w timeout i = true <-> Poll.exceeded w timeout i.
Proof.
  unfold Poll.exceeded_b, Poll.exceeded, Job.exceeds, Job.timeoutMs.
  destruct timeout as [t|]; simpl.
  - rewrite Z.ltb_lt. split.
    + intros H. now exists t.
    + intros (t' & Heq & H). now injection Heq as ->.
  - split; [discriminate|]. intros (t' & Heq & _). discriminate Heq.
Qed.

Lemma is_terminal_iff (status : option string) :
  Job.is_terminal status = true
  <-> status = Some "Succeeded" \/ status = Some "Failed".
Proof.
  unfold Job.is_terminal. destruct status as [s|].
  - rewrite orb_true_iff, !String.eqb_eq.
    split; (intros [H|H]; [left|right]; congruence).
  - split; [discriminate | intros [H|H]; discriminate H].
Qed.

Lemma terminal_reflect (w : World) (i : nat) :
  Poll.terminal_at_b w i = true <-> Poll.terminal_at w i.
Proof.
  unfold Poll.terminal_at_b, Poll.terminal_at.
  destruct (job_execution w i) as [[ex|]|err].
  - rewrite is_terminal_iff. split.
    + intros H. now exists ex.
    + intros (ex' & Heq & H). now injection Heq as ->.
  - split; [discriminate|]. intros (ex' & Heq & _). discriminate Heq.
  - split; [discriminate|]. intros (ex' & Heq & _). discriminate Heq.
Qed.

Section PollFacts.

Variable w : World.
Variable client : Client.
Variables resourceGroup jobName : string.
Variable executionName : option string.
Variable timeout : option Z.

Let loop := Job.poll_loop w resourceGroup jobName executionName timeout
                          (poll_start w).
Let read := Remote (JobExecutionGet resourceGroup jobName executionName).

(** One iteration that times out. *)
Lemma loop_timeout (fuel i : nat) :
  Poll.exceeded_b w timeout i = true ->
  loop (S fuel) i = ([], Raised (Job.timeout_error timeout)).
Proof.
  intros H. unfold loop. simpl.
  unfold Poll.exceeded_b, Poll.elapsed in H. now rewrite H.
Qed.

(** One iteration that reads a terminal status. *)
Lemma loop_return (fuel i : nat) (ex : Execution) :
  Poll.exceeded_b w timeout i = false ->
  job_execution w i = Ok (Some ex) ->
  Job.is_terminal (ex_status ex) = true ->
  loop (S fuel) i = ([read; Poll.report w i], Done ex).
Proof.
  intros Ht Hj Hs. unfold loop, Poll.report. simpl.
  unfold Poll.exceeded_b, Poll.elapsed in Ht. rewrite Ht, Hj, Hs.
  reflexivity.
Qed.

(** One iteration that neither times out nor reads a terminal status:
    the read, the report about it, the sleep, and then the rest. *)
Lemma loop_continue (fuel i : nat) :
  Poll.exceeded_b w timeout i = false ->
  Poll.terminal_at_b w i = false ->
  loop (S fuel) i
  = ([read; Poll.report w i; Sleep Job.pollInterval]
       ++ fst (loop fuel (S i)),
     snd (loop fuel (S i))).
Proof.
  intros Ht Hn. unfold loop, Poll.report. simpl.
  unfold Poll.exceeded_b, Poll.elapsed in Ht. rewrite Ht.
  unfold Poll.terminal_at_b in Hn.
  destruct (job_execution w i) as [[ex|]|err]; simpl.
  - rewrite Hn.
    destruct (Job.poll_loop w resourceGroup jobName executionName timeout
                            (poll_start w) fuel (S i)) as [tr [a|e|]];
      reflexivity.
  - destruct (Job.poll_loop w resourceGroup jobName executionName timeout
                            (poll_start w) fuel (S i)) as [tr [a|e|]];
      reflexivity.
  - destruct (Job.poll_loop w resourceGroup jobName executionName timeout
                            (poll_start w) fuel (S i)) as [tr [a|e|]];
      reflexivity.
Qed.

(** The three cases of an iteration. *)
Lemma loop_cases (fuel i : nat) :
  (Poll.exceeded_b w timeout i = true
   /\ loop (S fuel) i = ([], Raised (Job.timeout_error timeout)))
  \/ (Poll.exceeded_b w timeout i = false
      /\ Poll.terminal_at_b w i = true
      /\ exists ex, job_execution w i = Ok (Some ex)
                    /\ Job.is_terminal (ex_status ex) = true
                    /\ loop (S fuel) i = ([read; Poll.report w i], Done ex))
  \/ (Poll.exceeded_b w timeout i = false
      /\ Poll.terminal_at_b w i = false
      /\ loop (S fuel) i
         = ([read; Poll.report w i; Sleep Job.pollInterval]
              ++ fst (loop fuel (S i)),
            snd (loop fuel (S i)))).
Proof.
  destruct (Poll.exceeded_b w timeout i) eqn:Ht.
  - left. split; [reflexivity|]. now apply loop_timeout.
  - right. destruct (Poll.terminal_at_b w i) eqn:Hn.
    + left. split; [reflexivity|]. split; [reflexivity|].
      unfold Poll.terminal_at_b in Hn.
      destruct (job_execution w i) as [[ex|]|err] eqn:Hj;
        try discriminate Hn.
      exists ex. split; [reflexivity|]. split; [exact Hn|].
      now apply loop_return.
    + right. split; [reflexivity|]. split; [reflexivity|].
      now apply loop_continue.
Qed.

(** A returned execution was read with a terminal status, at an
    iteration before which nothing stopped the loop. *)
Lemma loop_done (fuel : nat) :
  forall i tr ex,
    loop fuel i = (tr, Done ex) ->
    exists k,
      i <= k < i + fuel
      /\ job_execution w k = Ok (Some ex)
      /\ Job.is_terminal (ex_status ex) = true
      /\ (forall j, i <= j <= k -> Poll.exceeded_b w timeout j = false)
      /\ (forall j, i <= j < k -> Poll.terminal_at_b w j = false).
Proof.
  induction fuel as [|fuel IH]; intros i tr ex Hrun.
  - discriminate Hrun.
  - destruct (loop_cases fuel i)
      as [(Ht & Heq) | [(Ht & Hn & ex' & Hj & Hs & Heq) | (Ht & Hn & Heq)]];
      rewrite Heq in Hrun.
    + discriminate Hrun.
    + injection Hrun as _ <-. exists i.
      split; [lia|]. split; [exact Hj|]. split; [exact Hs|]. split.
      * intros j Hj'. replace j with i by lia. exact Ht.
      * intros j Hj'. lia.
    + destruct (loop fuel (S i)) as [tr' out] eqn:Hrest. simpl in Hrun.
      injection Hrun as _ ->.
      destruct (IH (S i) tr' ex Hrest) as (k & Hk & Hj & Hs & Hto & Hnt).
      exists k.
      split; [lia|]. split; [exact Hj|]. split; [exact Hs|]. split.
      * intros j Hj'. destruct (Nat.eq_dec j i) as [->|Hne]; [exact Ht|].
        apply Hto. lia.
      * intros j Hj'. destruct (Nat.eq_dec j i) as [->|Hne]; [exact Hn|].
        apply Hnt. lia.
Qed.

(** The only error the loop raises is the timeout, at the first
    iteration whose head finds the elapsed time above the budget. *)
Lemma loop_raised (fuel : nat) :
  forall i tr e,
    loop fuel i = (tr, Raised e) ->
    e = Job.timeout_error timeout
    /\ exists k,
         i <= k < i + fuel
         /\ Poll.exceeded_b w timeout k = true
         /\ (forall j, i <= j < k ->
               Poll.exceeded_b w timeout j = false
               /\ Poll.terminal_at_b w j = false).
Proof.
  induction fuel as [|fuel IH]; intros i tr e Hrun.
  - discriminate Hrun.
  - destruct (loop_cases fuel i)
      as [(Ht & Heq) | [(Ht & Hn & ex' & Hj & Hs & Heq) | (Ht & Hn & Heq)]];
      rewrite Heq in Hrun.
    + injection Hrun as _ <-. split; [reflexivity|].
      exists i. split; [lia|]. split; [exact Ht|]. intros j Hj'. lia.
    + discriminate Hrun.
    + destruct (loop fuel (S i)) as [tr' out] eqn:Hrest. simpl in Hrun.
      injection Hrun as _ ->.
      destruct (IH (S i) tr' e Hrest) as (He & k & Hk & Hto & Hbefore).
      split; [exact He|]. exists k.
      split; [lia|]. split; [exact Hto|]. intros j Hj'.
      destruct (Nat.eq_dec j i) as [->|Hne]; [now split|].
      apply Hbefore. lia.
Qed.

(** Conversely, the loop raises the timeout when such an iteration is
    within its fuel. *)
Lemma loop_times_out (fuel : nat) :
  forall i k,
    i <= k < i + fuel ->
    Poll.exceeded_b w timeout k = true ->
    (forall j, i <= j < k ->
       Poll.exceeded_b w timeout j = false
       /\ Poll.terminal_at_b w j = false) ->
    snd (loop fuel i) = Raised (Job.timeout_error timeout).
Proof.
  induction fuel as [|fuel IH]; intros i k Hk Hto Hbefore; [lia|].
  destruct (Nat.eq_dec k i) as [->|Hne].
  - now rewrite loop_timeout.
  - destruct (Hbefore i) as [Ht Hn]; [lia|].
    rewrite loop_continue by assumption. simpl.
    apply IH with (k := k); [lia | exact Hto |].
    intros j Hj. apply Hbefore. lia.
Qed.

(** With fuel beyond an iteration that stops the loop, the loop ends. *)
Lemma loop_ends (fuel : nat) :
  forall i k,
    i <= k < i + fuel ->
    Poll.exceeded_b w timeout k = true ->
    snd (loop fuel i) <> OutOfFuel.
Proof.
  induction fuel as [|fuel IH]; intros i k Hk Hto; [lia|].
  destruct (loop_cases fuel i)
    as [(Ht & Heq) | [(Ht & Hn & ex' & Hj & Hs & Heq) | (Ht & Hn & Heq)]];
    rewrite Heq; simpl; try discriminate.
  apply IH with (k := k); [|exact Hto].
  destruct (Nat.eq_dec k i) as [->|Hne]; [congruence | lia].
Qed.

(** When every iteration takes at least the polling interval, the head
    of iteration [i] is at least [i] intervals after the start. *)
Lemma elapsed_grows :
  (poll_start w <= poll_now w 0)%Z ->
  (forall i, (poll_now w i + Job.pollInterval <= poll_now w (S i))%Z) ->
  forall i, (Z.of_nat i * Job.pollInterval <= Poll.elapsed w i)%Z.
Proof.
  intros H0 Hstep i. unfold Poll.elapsed.
  induction i as [|i IH]; [simpl; lia|].
  specialize (Hstep i). unfold Job.pollInterval in *. lia.
Qed.

End PollFacts.

Lemma pollJobExecution_loop (w : World) (client : Client)
    (resourceGroup jobName : string) (executionName : option string)
    (timeout : option Z) (fuel : nat) :
  Job.pollJobExecution w client resourceGroup jobName executionName timeout
                       fuel
  = (Info ("Polling for job completion (timeout: "
           ++ Job.show_number timeout ++ "s)")
       :: fst (Job.poll_loop w resourceGroup jobName executionName timeout
                             (poll_start w) fuel 0),
     snd (Job.poll_loop w resourceGroup jobName executionName timeout
                        (poll_start w) fuel 0)).
Proof.
  unfold Job.pollJobExecution.
  destruct (Job.poll_loop w resourceGroup jobName executionName timeout
                          (poll_start w) fuel 0) as [tr [a|e|]];
    reflexivity.
Qed.

Lemma not_true_iff_false_b (b : bool) (P : Prop) :
  (b = true <-> P) -> (b = false <-> ~ P).
Proof.
  intros H. destruct b; split; intros H'; try congruence.
  - elim H'. now apply H.
  - intros HP. apply H in HP. discriminate HP.
Qed.

(** C6: the poll operation returns an execution only when a status read
    answered it with status Succeeded or Failed; it raises the timeout
    error exactly when some iteration finds the elapsed time above the
    timeout before any read saw a terminal status; an error of a status
    read is logged as a warning and followed by the 10-second sleep and the
    next iteration; and when the clock advances by at least the interval
    per iteration, the operation ends within the fuel of the budget. *)
Theorem C6_poll_returns_terminal_or_times_out
    (w : World) (client : Client) (resourceGroup jobName : string)
    (executionName : option string) (timeout : option Z) :
  (forall fuel tr ex,
     Job.pollJobExecution w client resourceGroup jobName executionName
                          timeout fuel = (tr, Done ex) ->
     (ex_status ex = Some "Succeeded" \/ ex_status ex = Some "Failed")
     /\ exists k,
          job_execution w k = Ok (Some ex)
          /\ (forall j, j <= k -> ~ Poll.exceeded w timeout j)
          /\ (forall j, j < k -> ~ Poll.terminal_at w j))
  /\ (forall fuel e,
        (exists tr,
           Job.pollJobExecution w client resourceGroup jobName executionName
                                timeout fuel = (tr, Raised e))
        <-> e = Job.timeout_error timeout
            /\ exists k,
                 k < fuel
                 /\ Poll.exceeded w timeout k
                 /\ forall j, j < k ->
                      ~ Poll.exceeded w timeout j /\ ~ Poll.terminal_at w j)
  /\ (forall fuel i error,
        ~ Poll.exceeded w timeout i ->
        job_execution w i = Throw error ->
        Job.poll_loop w resourceGroup jobName executionName timeout
                      (poll_start w) (S fuel) i
        = ([Remote (JobExecutionGet resourceGroup jobName executionName);
            Warning ("Error polling job status: " ++ message error);
            Sleep 10000]
             ++ fst (Job.poll_loop w resourceGroup jobName executionName
                                   timeout (poll_start w) fuel (S i)),
           snd (Job.poll_loop w resourceGroup jobName executionName
                              timeout (poll_start w) fuel (S i))))
  /\ (forall t,
        timeout = Some t ->
        (poll_start w <= poll_now w 0)%Z ->
        (forall i, (poll_now w i + 10000 <= poll_now w (S i))%Z) ->
        snd (Job.pollJobExecution w client resourceGroup jobName
                                  executionName timeout (Poll.enough_fuel t))
        <> OutOfFuel).
Proof.
  pose proof (exceeded_reflect w timeout) as Hex.
  pose proof (terminal_reflect w) as Hterm.
  assert (Hexf : forall i, Poll.exceeded_b w timeout i = false
                           <-> ~ Poll.exceeded w timeout i)
    by (intros i; apply not_true_iff_false_b, Hex).
  assert (Htermf : forall i, Poll.terminal_at_b w i = false
                             <-> ~ Poll.terminal_at w i)
    by (intros i; apply not_true_iff_false_b, Hterm).
  split; [|split; [|split]].
  - intros fuel tr ex Hrun. rewrite pollJobExecution_loop in Hrun.
    destruct (Job.poll_loop w resourceGroup jobName executionName timeout
                            (poll_start w) fuel 0) as [tr' out] eqn:Hloop.
    simpl in Hrun. injection Hrun as _ ->.
    destruct (loop_done w resourceGroup jobName executionName timeout
                        fuel 0 tr' ex Hloop)
      as (k & Hk & Hj & Hs & Hto & Hnt).
    split; [now apply is_terminal_iff|].
    exists k. split; [exact Hj|]. split.
    + intros j Hj'. apply Hexf, Hto. lia.
    + intros j Hj'. apply Htermf, Hnt. lia.
  - intros fuel e. split.
    + intros (tr & Hrun). rewrite pollJobExecution_loop in Hrun.
      destruct (Job.poll_loop w resourceGroup jobName executionName timeout
                              (poll_start w) fuel 0) as [tr' out] eqn:Hloop.
      simpl in Hrun. injection Hrun as _ ->.
      destruct (loop_raised w resourceGroup jobName executionName timeout
                            fuel 0 tr' e Hloop)
        as (He & k & Hk & Hto & Hbefore).
      split; [exact He|]. exists k. split; [lia|]. split; [now apply Hex|].
      intros j Hj'. destruct (Hbefore j) as [H1 H2]; [lia|].
      split; [now apply Hexf | now apply Htermf].
    + intros (-> & k & Hk & Hto & Hbefore).
      rewrite pollJobExecution_loop. eexists.
      f_equal.
      apply loop_times_out with (k := k); [lia | now apply Hex |].
      intros j Hj'. destruct (Hbefore j) as [H1 H2]; [lia|].
      split; [now apply Hexf | now apply Htermf].
  - intros fuel i error Hne Hj.
    rewrite (loop_continue w resourceGroup jobName executionName timeout).
    + unfold Poll.report. now rewrite Hj.
    + now apply Hexf.
    + unfold Poll.terminal_at_b. now rewrite Hj.
  - intros t -> H0 Hstep. rewrite pollJobExecution_loop. simpl.
    apply loop_ends with (k := Z.to_nat (t / 10) + 1).
    + unfold Poll.enough_fuel. lia.
    + apply Hex. exists t. split; [reflexivity|].
      pose proof (elapsed_grows w H0 Hstep (Z.to_nat (t / 10) + 1)) as Hg.
      unfold Job.pollInterval in Hg.
      assert (Hk : (t < Z.of_nat (Z.to_nat (t / 10) + 1) * 10)%Z).
      { pose proof (Z.mul_succ_div_gt t 10 ltac:(lia)) as Hdiv. lia. }
      lia.
Qed.

Lemma C6_poll_returns_terminal_or_times_out_witness :
  exists tr ex,
    Job.pollJobExecution SampleWorld.flaky (mkClient "sub") "rg" "job-1"
                         (Some "exec-1") (Some 1800%Z) 5 = (tr, Done ex)
    /\ In (Warning "Error polling job status: socket hang up") tr
    /\ ex_status ex = Some "Succeeded"
    /\ snd (Job.pollJobExecution SampleWorld.flaky (mkClient "sub") "rg"
                                 "job-1" (Some "exec-1") (Some 1800%Z)
                                 (Poll.enough_fuel 1800)) <> OutOfFuel.
Proof.
  destruct (C6_poll_returns_terminal_or_times_out
              SampleWorld.flaky (mkClient "sub") "rg" "job-1"
              (Some "exec-1") (Some 1800%Z))
    as (Hdone & _ & _ & Hends).
  eexists. eexists. split; [reflexivity|].
  split; [simpl; tauto|].
  split; [reflexivity|].
  apply (Hends 1800%Z eq_refl).
  - simpl. lia.
  - intros i. simpl. lia.
Defined.

(** ** Which computations can set an output or the failure *)

Lemma plain_not_failure (e : Event) : plain e -> not_failure e.
Proof. destruct e; simpl; auto. Qed.

Lemma quiet_failures (tr : list Event) :
  Forall not_failure tr -> Main.failures tr = [].
Proof.
  induction 1 as [|e tr He _ IH]; [reflexivity|].
  unfold Main.failures in *. simpl. rewrite IH.
  destruct e; simpl in *; try reflexivity. contradiction.
Qed.

Lemma plain_failures (tr : list Event) :
  Forall plain tr -> Main.failures tr = [].
Proof.
  intros H. apply quiet_failures.
  eapply Forall_impl; [apply plain_not_failure | exact H].
Qed.

Lemma plain_outputs (tr : list Event) :
  Forall plain tr -> Main.outputs tr = [].
Proof.
  induction 1 as [|e tr He _ IH]; [reflexivity|].
  unfold Main.outputs in *. simpl. rewrite IH.
  destruct e; simpl in *; try reflexivity. contradiction.
Qed.

Lemma failures_app (tr1 tr2 : list Event) :
  Main.failures (tr1 ++ tr2) = Main.failures tr1 ++ Main.failures tr2.
Proof. apply flat_map_app. Qed.

Lemma outputs_app (tr1 tr2 : list Event) :
  Main.outputs (tr1 ++ tr2) = Main.outputs tr1 ++ Main.outputs tr2.
Proof. apply flat_map_app. Qed.

Section OnlyFacts.

Variable P : Event -> Prop.

Lemma Only_ret {A : Type} (a : A) : Only P (Eff.ret a).
Proof. constructor. Qed.

Lemma Only_throw {A : Type} (e : JsError) : Only P (@Eff.throw A e).
Proof. constructor. Qed.

Lemma Only_diverge {A : Type} : Only P (@Eff.diverge A).
Proof. constructor. Qed.

Lemma Only_lift {A : Type} (r : Result A) : Only P (Eff.lift r).
Proof. destruct r; constructor. Qed.

Lemma Only_emit (e : Event) : P e -> Only P (Eff.emit e).
Proof. intros H. repeat constructor. exact H. Qed.

Lemma Only_bind {A B : Type} (c : M A) (k : A -> M B) :
  Only P c -> (forall a, Only P (k a)) -> Only P (Eff.bind c k).
Proof.
  unfold Only. rewrite bind_cases. intros Hc Hk.
  destruct c as [tr [a|e|]]; simpl in *; auto.
  apply Forall_app. split; [exact Hc | apply Hk].
Qed.

Lemma Only_try_catch {A : Type} (c : M A) (h : JsError -> M A) :
  Only P c -> (forall e, Only P (h e)) -> Only P (Eff.try_catch c h).
Proof.
  unfold Only. rewrite try_catch_cases. intros Hc Hh.
  destruct c as [tr [a|e|]]; simpl in *; auto.
  apply Forall_app. split; [exact Hc | apply Hh].
Qed.

End OnlyFacts.





(** Closes a goal [Only P c] (so also [Plain c] and [Quiet c]) for a
    computation built from the monad's operations whose events satisfy [P]
    by computation, by cases on whatever the computation branches on. *)
Ltac only_events :=
  unfold Plain, Quiet;
  repeat first
    [ apply Only_ret
    | apply Only_throw
    | apply Only_diverge
    | apply Only_lift
    | apply Only_emit; exact I
    | apply Only_bind; [|intros ?]
    | apply Only_try_catch; [|intros ?]
    | assumption
    | match goal with
      | |- Only _ (if ?b then _ else _) => destruct b
      | |- Only _ (match ?x with _ => _ end) => destruct x
      | |- Only _ (let _ := _ in _) => cbv zeta
      end ].

Lemma Plain_getInput (w : World) (name : string) (required : bool) :
  Plain (Input.getInput w name required).
Proof. unfold Input.getInput. only_events. Qed.

Lemma Plain_parseJsonInput (w : World) (name : string) :
  Plain (Input.parseJsonInput w name).
Proof.
  unfold Input.parseJsonInput.
  apply Only_bind; [apply Plain_getInput|intros input]. only_events.
Qed.

Lemma Plain_getInputs (w : World) : Plain (Input.getInputs w).
Proof.
  unfold Input.getInputs.
  repeat first [ apply Only_bind;
                 [first [apply Plain_getInput | apply Plain_parseJsonInput]
                 |intros ?]
               | apply Only_ret
               | progress cbv zeta ].
Qed.

Lemma Plain_announce (inputs : Input.Inputs) (jobName : string) :
  Plain (Main.announce inputs jobName).
Proof. unfold Main.announce. only_events. Qed.

Lemma Plain_createJob (w : World) (client : Client)
    (resourceGroup environmentName jobName : string)
    (config : Config.JobOptions) :
  Plain (Job.createJob w client resourceGroup environmentName jobName config).
Proof. unfold Job.createJob. only_events. Qed.

Lemma Plain_startJobExecution (w : World) (client : Client)
    (resourceGroup jobName : string) :
  Plain (Job.startJobExecution w client resourceGroup jobName).
Proof. unfold Job.startJobExecution. only_events. Qed.


Lemma Plain_poll_loop (w : World) (resourceGroup jobName : string)
    (executionName : option string) (timeout : option Z) (startTime : Z)
    (fuel : nat) :
  forall i,
    Plain (Job.poll_loop w resourceGroup jobName executionName timeout
                         startTime fuel i).
Proof.
  induction fuel as [|fuel IH]; intros i; cbn [Job.poll_loop];
    [apply Only_diverge|].
  specialize (IH (S i)). unfold Plain in IH. only_events.
Qed.

Lemma Plain_pollJobExecution (w : World) (client : Client)
    (resourceGroup jobName : string) (executionName : option string)
    (timeout : option Z) (fuel : nat) :
  Plain (Job.pollJobExecution w client resourceGroup jobName executionName
                              timeout fuel).
Proof.
  unfold Job.pollJobExecution.
  apply Only_bind; [only_events | intros _; apply Plain_poll_loop].
Qed.

Lemma Plain_print_rows (rows : list (string * string)) :
  Plain (Utils.print_rows rows).
Proof.
  induction rows as [|row rest IH]; cbn [Utils.print_rows];
    unfold Plain in *; only_events.
Qed.

Lemma Plain_warn_each (errors : list JsError) :
  Plain (Utils.warn_each errors).
Proof.
  induction errors as [|e rest IH]; cbn [Utils.warn_each];
    unfold Plain in *; only_events.
Qed.

Lemma Plain_dumpJobLogs (w : World) (workspaceId jobName : string) :
  Plain (Utils.dumpJobLogs w workspaceId jobName).
Proof.
  unfold Utils.dumpJobLogs.
  repeat first
    [ apply Plain_print_rows | apply Plain_warn_each | progress only_events ].
Qed.


(** ** The orchestrator *)

Lemma bind_Done_inv {A B : Type} (c : M A) (k : A -> M B)
    (tr : list Event) (b : B) :
  Eff.bind c k = (tr, Done b) ->
  exists tr1 a tr2,
    c = (tr1, Done a) /\ k a = (tr2, Done b) /\ tr = tr1 ++ tr2.
Proof.
  rewrite bind_cases. destruct c as [tr1 [a|e|]]; simpl; intros H;
    try discriminate H.
  destruct (k a) as [tr2 out] eqn:Hk. simpl in H. injection H as <- ->.
  now exists tr1, a, tr2.
Qed.

(** A required input that was read is not empty. *)
Lemma getInput_required (w : World) (name : string) (tr : list Event)
    (v : string) :
  Input.getInput w name true = (tr, Done v) -> JsString.truthy v = true.
Proof.
  unfold Input.getInput. intros H.
  apply bind_Done_inv in H. destruct H as (tr1 & val & tr2 & _ & H & _).
  cbv zeta in H. simpl in H.
  match type of H with
  | (if negb (JsString.truthy ?x) then _ else _) = _ =>
      destruct (JsString.truthy x) eqn:Hx; simpl in H
  end.
  - injection H as _ <-. exact Hx.
  - discriminate H.
Qed.

(** The inputs object, once returned, has its three required fields. *)
Lemma getInputs_required (w : World) (tr : list Event)
    (inputs : Input.Inputs) :
  Input.getInputs w = (tr, Done inputs) ->
  JsString.truthy (Input.subscriptionId inputs) = true
  /\ JsString.truthy (Input.resourceGroup inputs) = true
  /\ JsString.truthy (Input.environmentName inputs) = true.
Proof.
  unfold Input.getInputs. intros H.
  apply bind_Done_inv in H. destruct H as (t1 & sub & r1 & Hsub & H & _).
  apply bind_Done_inv in H. destruct H as (t2 & rg & r2 & Hrg & H & _).
  apply bind_Done_inv in H. destruct H as (t3 & en & r3 & Hen & H & _).
  apply getInput_required in Hsub, Hrg, Hen.
  repeat (cbv zeta in H; apply bind_Done_inv in H;
          destruct H as (? & ? & ? & _ & H & _)).
  cbv zeta in H. injection H as _ <-. simpl. auto.
Qed.

(** The resolved job name is never empty. *)
Lemma resolved_jobName_truthy (explicit : string) (timestamp : Z)
    (r : UnitDouble) :
  JsString.truthy
    (JsString.or_else explicit
                      (Utils.generateJobName "gh-job" timestamp r)) = true.
Proof.
  unfold JsString.or_else.
  destruct (JsString.truthy explicit) eqn:He; [exact He|].
  reflexivity.
Qed.


(** The [catch] block once the client exists: the two error lines, the
    delete with its report unless a cron schedule was requested, and the
    failure. *)
Lemma run_catch_with_client (w : World) (c : Client) (rg jn cron : string)
    (error : JsError) :
  JsString.truthy rg = true ->
  JsString.truthy jn = true ->
  Main.run_catch w (Main.mkVars (Some c) (Some jn) (Some rg) (Some cron))
                 error
  = ([ErrorLog ("Error: " ++ message error); ErrorStack error]
       ++ (if JsString.truthy cron then []
           else [Info ("Deleting job: " ++ jn);
                 Remote (JobsDelete rg jn);
                 Main.delete_report w jn])
       ++ [SetFailed (message error)],
     Done tt).
Proof.
  intros Hrg Hjn.
  unfold Main.run_catch, Job.deleteJob, Main.truthy_opt, Main.delete_report.
  cbn [Main.client Main.resourceGroup Main.jobName Main.cronSchedule].
  rewrite Hrg, Hjn.
  destruct (JsString.truthy cron); destruct (jobs_beginDeleteAndWait w);
    reflexivity.
Qed.



Lemma in_bind_l {A B : Type} (c : M A) (k : A -> M B) (e : Event) :
  In e (fst c) -> In e (fst (Eff.bind c k)).
Proof.
  rewrite bind_cases. destruct c as [tr [a|err|]]; simpl; auto.
  intros H. apply in_or_app. now left.
Qed.

Lemma in_bind_r {A B : Type} (c : M A) (k : A -> M B) (e : Event) (a : A) :
  snd c = Done a -> In e (fst (k a)) -> In e (fst (Eff.bind c k)).
Proof.
  rewrite bind_cases. intros -> H. simpl. apply in_or_app. now right.
Qed.

Lemma in_try_catch {A : Type} (c : M A) (h : JsError -> M A) (e : Event) :
  In e (fst c) -> In e (fst (Eff.try_catch c h)).
Proof.
  rewrite try_catch_cases. destruct c as [tr [a|err|]]; simpl; auto.
  intros H. apply in_or_app. now left.
Qed.

(** Whatever the dry-run flag, a run whose inputs could be read calls the
    provider: the delete in delete-only mode, the environment read of
    [createJob] otherwise. *)
Lemma run_calls_the_provider (w : World) (fuel : nat)
    (events : list Event) (inputs : Input.Inputs) :
  Input.getInputs w = (events, Done inputs) ->
  let jn := JsString.or_else
              (Input.jobName inputs)
              (Utils.generateJobName "gh-job" (name_timestamp w)
                                     (Math_random w)) in
  In (Remote (if Input.onlyDeleteJob inputs
              then JobsDelete (Input.resourceGroup inputs) jn
              else ManagedEnvironmentsGet (Input.resourceGroup inputs)
                                          (Input.environmentName inputs)))
     (fst (Main.run w fuel)).
Proof.
  intros Hin jn. unfold Main.run, Main.run_try. rewrite Hin. fold jn.
  apply in_try_catch.
  apply in_bind_r with (a := tt); [reflexivity|].
  apply in_bind_r with (a := tt); [reflexivity|].
  unfold Main.run_with_client. cbv zeta.
  destruct (Input.onlyDeleteJob inputs).
  - unfold Job.deleteJob. apply in_bind_r with (a := tt); [reflexivity|].
    apply in_bind_l. now left.
  - apply in_bind_l. unfold Job.createJob.
    apply in_bind_r with (a := tt); [reflexivity|].
    apply in_bind_l. apply in_bind_l. now left.
Qed.

(** C1, evaluated with the dry-run flag set.  In standard mode the run
    reads the environment and submits the create-or-update; its log lines
    do not include the assembled document.  In delete-only mode it calls
    the delete and sets no output. *)
Theorem C1_dry_run_calls_the_provider :
  (exists events inputs,
     Input.getInputs SampleWorld.dry_run = (events, Done inputs)
     /\ Input.dryRun inputs = true
     /\ Input.onlyDeleteJob inputs = false)
  /\ (exists doc,
        Main.remote_calls (fst (Main.run SampleWorld.dry_run 5))
        = [ManagedEnvironmentsGet "rg" "env";
           JobsCreateOrUpdate "rg" "job-1" doc])
  /\ Main.infos (fst (Main.run SampleWorld.dry_run 5))
     = ["=== Azure Container App Job Configuration ===";
        "Subscription: sub"; "Resource Group: rg"; "Environment: env";
        "Job Name: job-1"; "Image: img"; "Command: default";
        "Timeout: 1800s"; "Run type: One off execution [Dry Run]";
        "Authenticating with Azure..."; "Creating job: job-1";
        "Using location from environment: East US -> eastus";
        "Job created successfully: job-1";
        "Dry run mode enabled, skipping job execution"]
  /\ Main.outputs (fst (Main.run SampleWorld.dry_run 5))
     = [("job-name", Some "job-1")]
  /\ (exists events inputs,
        Input.getInputs SampleWorld.dry_run_delete_only
        = (events, Done inputs)
        /\ Input.dryRun inputs = true
        /\ Input.onlyDeleteJob inputs = true)
  /\ Main.remote_calls (fst (Main.run SampleWorld.dry_run_delete_only 5))
     = [JobsDelete "rg" "job-1"]
  /\ Main.outputs (fst (Main.run SampleWorld.dry_run_delete_only 5)) = [].
Proof.
  split; [eexists; eexists; split;
          [vm_compute; reflexivity | split; reflexivity]|].
  split; [eexists; vm_compute; reflexivity|].
  split; [vm_compute; reflexivity|].
  split; [vm_compute; reflexivity|].
  split; [eexists; eexists; split;
          [vm_compute; reflexivity | split; reflexivity]|].
  split; vm_compute; reflexivity.
Qed.

(** Sequencing two computations whose traces and outcomes are known. *)
Lemma bind_runs {A B : Type} (c : M A) (k : A -> M B)
    (tr1 tr2 : list Event) (a : A) (out : Outcome B) :
  c = (tr1, Done a) -> k a = (tr2, out) ->
  Eff.bind c k = (tr1 ++ tr2, out).
Proof. intros -> Hk. unfold Eff.bind. now rewrite Hk. Qed.

Lemma print_rows_returns (rows : list (string * string)) :
  snd (Utils.print_rows rows) = Done tt.
Proof.
  induction rows as [|row rest IH]; [reflexivity|].
  cbn [Utils.print_rows]. rewrite emit_then. exact IH.
Qed.

Lemma warn_each_returns (errors : list JsError) :
  snd (Utils.warn_each errors) = Done tt.
Proof.
  induction errors as [|e rest IH]; [reflexivity|].
  cbn [Utils.warn_each]. rewrite emit_then. exact IH.
Qed.

(** Log retrieval never throws. *)
Lemma dumpJobLogs_returns (w : World) (workspaceId jobName : string) :
  snd (Utils.dumpJobLogs w workspaceId jobName) = Done tt.
Proof.
  unfold Utils.dumpJobLogs.
  destruct (negb (JsString.truthy workspaceId)
            || (JsString.trim workspaceId =? "")); [reflexivity|].
  rewrite !emit_then. cbn [snd].
  destruct (logs_queryWorkspace w) as [result|error]; [|reflexivity].
  destruct ((lr_status result =? "Success") && lr_has_table result).
  - destruct (length (lr_rows result) =? 0)%nat; [reflexivity|].
    rewrite emit_then. cbn [snd].
    rewrite bind_cases, print_rows_returns. reflexivity.
  - destruct (lr_status result =? "PartialError"); [|reflexivity].
    rewrite emit_then. cbn [snd]. apply warn_each_returns.
Qed.

(** The delete operation never throws: it reports success or downgrades
    the provider's error to a warning. *)
Lemma deleteJob_runs (w : World) (client : Client)
    (resourceGroup jobName : string) :
  Job.deleteJob w client resourceGroup jobName
  = ([Info ("Deleting job: " ++ jobName);
      Remote (JobsDelete resourceGroup jobName);
      Main.delete_report w jobName],
     Done tt).
Proof.
  unfold Job.deleteJob, Main.delete_report.
  destruct (jobs_beginDeleteAndWait w); reflexivity.
Qed.

Lemma startJobExecution_runs (w : World) (client : Client)
    (resourceGroup jobName : string) (ex : Execution) :
  jobs_beginStartAndWait w = Ok ex ->
  Job.startJobExecution w client resourceGroup jobName
  = ([Info ("Starting job execution: " ++ jobName);
      Remote (JobsStart resourceGroup jobName);
      Info ("Job execution started: " ++ JsString.of_option (ex_name ex))],
     Done ex).
Proof. intros H. unfold Job.startJobExecution. now rewrite H. Qed.

(** What the orchestrator does by design on a failure it can see: in a
    standard-mode run whose create, start and poll succeed, if the final
    execution carries status Failed under [properties], or a non-zero exit
    code there, then both outputs are set, the job is deleted, and only
    then the failure is set, as the last event of the run. *)
Lemma standard_run_reports_failure
    (w : World) (fuel : nat) (events created polled : list Event)
    (inputs : Input.Inputs) (ex fin : Execution) :
  Input.getInputs w = (events, Done inputs) ->
  Input.onlyDeleteJob inputs = false ->
  Input.cronSchedule inputs = "" ->
  Input.manualExecution inputs = false ->
  Input.dryRun inputs = false ->
  let rg := Input.resourceGroup inputs in
  let jn := JsString.or_else
              (Input.jobName inputs)
              (Utils.generateJobName "gh-job" (name_timestamp w)
                                     (Math_random w)) in
  let client := mkClient (Input.subscriptionId inputs) in
  Job.createJob w client rg (Input.environmentName inputs) jn
                (Main.job_options inputs) = (created, Done tt) ->
  jobs_beginStartAndWait w = Ok ex ->
  Job.pollJobExecution w client rg jn (ex_name ex) (Input.timeout inputs)
                       fuel = (polled, Done fin) ->
  Main.final_status fin = Some "Failed"
  \/ Main.final_exitCode fin <> 0%Z ->
  exists before,
    Main.run w fuel
    = (before
         ++ [Info ("Deleting job: " ++ jn);
             Remote (JobsDelete rg jn);
             Main.delete_report w jn;
             SetFailed ("Job execution failed with exit code: "
                        ++ JsString.of_Z (Main.final_exitCode fin))],
       Done tt)
    /\ Main.outputs before
       = [("job-name", Some jn); ("execution-name", ex_name ex)]
    /\ Main.failures before = [].
Proof.
  intros Hin Honly Hcron Hmanual Hdry rg jn client Hcreate Hstart Hpoll Hfail.
  pose proof (Plain_getInputs w) as Pin. unfold Plain, Only in Pin.
  rewrite Hin in Pin. cbn [fst] in Pin.
  pose proof (Plain_announce inputs jn) as Pann. unfold Plain, Only in Pann.
  pose proof (Plain_createJob w client rg (Input.environmentName inputs) jn
                              (Main.job_options inputs)) as Pcreate.
  unfold Plain, Only in Pcreate. rewrite Hcreate in Pcreate.
  cbn [fst] in Pcreate.
  pose proof (Plain_pollJobExecution w client rg jn (ex_name ex)
                                     (Input.timeout inputs) fuel) as Ppoll.
  unfold Plain, Only in Ppoll. rewrite Hpoll in Ppoll. cbn [fst] in Ppoll.
  pose proof (Plain_dumpJobLogs w (Input.logAnalyticsWorkspaceId inputs) jn)
    as Pdump.
  unfold Plain, Only in Pdump.
  pose proof (dumpJobLogs_returns w (Input.logAnalyticsWorkspaceId inputs) jn)
    as Hdump.
  destruct (Utils.dumpJobLogs w (Input.logAnalyticsWorkspaceId inputs) jn)
    as [dumped dump_out] eqn:Edump.
  cbn [fst snd] in Pdump, Hdump. subst dump_out.
  assert (Hann : exists announced,
             Main.announce inputs jn = (announced, Done tt)
             /\ Forall plain announced).
  { destruct (Main.announce inputs jn) as [announced out] eqn:E.
    exists announced. split; [|exact Pann].
    f_equal. change out with (snd (announced, out)). rewrite <- E.
    reflexivity. }
  destruct Hann as (announced & Hann & Pann').
  assert (Hflag : Main.status_is_Failed (Main.final_status fin)
                  || negb (Main.final_exitCode fin =? 0)%Z = true).
  { destruct Hfail as [-> | Hne]; [reflexivity|].
    apply orb_true_iff. right. apply negb_true_iff, Z.eqb_neq, Hne. }
  set (before := events ++ announced ++ created
                   ++ [SetOutput "job-name" (Some jn)]
                   ++ [Info ("Starting job execution: " ++ jn);
                       Remote (JobsStart rg jn);
                       Info ("Job execution started: "
                             ++ JsString.of_option (ex_name ex))]
                   ++ [SetOutput "execution-name" (ex_name ex)]
                   ++ polled
                   ++ [Info "=== Job Completed ===";
                       Info ("Status: "
                             ++ JsString.of_option (Main.final_status fin));
                       Info ("Exit Code: "
                             ++ JsString.of_Z (Main.final_exitCode fin))]
                   ++ dumped).
  exists before. split; [|split].
  - unfold Main.run, Main.run_try. rewrite Hin.
    fold jn. fold client. fold rg.
    assert (Hbody :
      Main.run_with_client w fuel client inputs jn
      = (created
           ++ [SetOutput "job-name" (Some jn)]
           ++ [Info ("Starting job execution: " ++ jn);
               Remote (JobsStart rg jn);
               Info ("Job execution started: "
                     ++ JsString.of_option (ex_name ex))]
           ++ [SetOutput "execution-name" (ex_name ex)]
           ++ polled
           ++ [Info "=== Job Completed ==="]
           ++ [Info ("Status: "
                     ++ JsString.of_option (Main.final_status fin))]
           ++ [Info ("Exit Code: "
                     ++ JsString.of_Z (Main.final_exitCode fin))]
           ++ dumped
           ++ [Info ("Deleting job: " ++ jn);
               Remote (JobsDelete rg jn);
               Main.delete_report w jn]
           ++ [SetFailed ("Job execution failed with exit code: "
                          ++ JsString.of_Z (Main.final_exitCode fin))],
         Done tt)).
    { unfold Main.run_with_client. cbv zeta. fold rg.
      rewrite Honly, Hcron, Hmanual, Hdry.
      change (JsString.truthy "" || false) with false. cbv iota.
      eapply bind_runs; [exact Hcreate|].
      eapply bind_runs; [reflexivity|].
      eapply bind_runs; [apply startJobExecution_runs, Hstart|].
      eapply bind_runs; [reflexivity|].
      eapply bind_runs; [exact Hpoll|].
      eapply bind_runs; [reflexivity|].
      eapply bind_runs; [reflexivity|].
      eapply bind_runs; [reflexivity|].
      eapply bind_runs; [exact Edump|].
      eapply bind_runs; [apply deleteJob_runs|].
      rewrite Hflag. reflexivity. }
    erewrite (bind_runs (events, Done tt)); [| reflexivity |].
    2:{ eapply bind_runs; [exact Hann | exact Hbody]. }
    unfold Eff.try_catch, before.
    f_equal. rewrite <- !app_assoc. reflexivity.
  - unfold before. rewrite !outputs_app.
    rewrite (plain_outputs events Pin), (plain_outputs announced Pann'),
      (plain_outputs created Pcreate), (plain_outputs polled Ppoll),
      (plain_outputs dumped Pdump).
    reflexivity.
  - unfold before. rewrite !failures_app.
    rewrite (plain_failures events Pin), (plain_failures announced Pann'),
      (plain_failures created Pcreate), (plain_failures polled Ppoll),
      (plain_failures dumped Pdump).
    reflexivity.
Qed.

(** C3, evaluated on a standard-mode run whose polled execution has
    status Failed: both outputs are set and the delete is called, but the
    orchestrator reads the status under [properties], finds none, and the
    run sets no failure. *)
Theorem C3_failed_status_does_not_fail_the_run :
  ex_status SampleWorld.failed = Some "Failed"
  /\ (forall i, job_execution SampleWorld.job_fails i
                = Ok (Some SampleWorld.failed))
  /\ snd (Main.run SampleWorld.job_fails 5) = Done tt
  /\ Main.outputs (fst (Main.run SampleWorld.job_fails 5))
     = [("job-name", Some "job-1"); ("execution-name", Some "exec-1")]
  /\ In (Info "Job status: Failed") (fst (Main.run SampleWorld.job_fails 5))
  /\ In (Info "Status: undefined") (fst (Main.run SampleWorld.job_fails 5))
  /\ In (Remote (JobsDelete "rg" "job-1"))
        (fst (Main.run SampleWorld.job_fails 5))
  /\ Main.failures (fst (Main.run SampleWorld.job_fails 5)) = [].
Proof.
  split; [reflexivity|]. split; [reflexivity|].
  split; [vm_compute; reflexivity|].
  split; [vm_compute; reflexivity|].
  split; [vm_compute; tauto|]. split; [vm_compute; tauto|].
  split; [vm_compute; tauto | vm_compute; reflexivity].
Qed.

(** An input read as not required never throws. *)
Lemma getInput_optional_returns (w : World) (name : string) :
  exists v, snd (Input.getInput w name false) = Done v.
Proof.
  unfold Input.getInput.
  destruct (core_getInput w name) as [v|e]; simpl; eexists; reflexivity.
Qed.

(** C8, evaluated on a standard-mode run with no image input: the inputs
    are read without error, the image is the empty string, and the run
    goes on to the provider, submitting a document whose container has
    the empty image. *)
Theorem C8_missing_image_is_not_rejected :
  (exists events inputs,
     Input.getInputs SampleWorld.no_image = (events, Done inputs)
     /\ Input.image inputs = ""
     /\ Input.onlyDeleteJob inputs = false)
  /\ (exists doc,
        Main.remote_calls (fst (Main.run SampleWorld.no_image 5))
        = [ManagedEnvironmentsGet "rg" "env";
           JobsCreateOrUpdate "rg" "job-1" doc;
           JobsStart "rg" "job-1";
           JobExecutionGet "rg" "job-1" (Some "exec-1");
           JobsDelete "rg" "job-1"]
        /\ map Config.c_image (Config.template_containers doc) = [""])
  /\ Main.failures (fst (Main.run SampleWorld.no_image 5)) = [].
Proof.
  split; [eexists; eexists; split;
          [vm_compute; reflexivity | split; reflexivity]|].
  split; [eexists; split; [vm_compute; reflexivity | reflexivity]
         | vm_compute; reflexivity].
Qed.

Lemma substring_length (n m : nat) (s : string) :
  String.length (String.substring n m s) <= m.
Proof.
  revert n m. induction s as [|c r IH]; intros n m.
  - destruct n, m; simpl; lia.
  - destruct n as [|n]; [destruct m as [|m]|]; simpl; [lia | | apply IH].
    specialize (IH 0 m). lia.
Qed.

(** The generated name is the prefix, a hyphen, the timestamp in decimal,
    a hyphen, and a suffix of at most six characters. *)
Lemma generateJobName_form (prefix : string) (timestamp : Z)
    (r : UnitDouble) :
  exists suffix : string,
    Utils.generateJobName prefix timestamp r
    = (prefix ++ "-" ++ JsString.of_Z timestamp ++ "-" ++ suffix)%string
    /\ String.length suffix <= 6.
Proof.
  eexists. split; [reflexivity|]. apply substring_length.
Qed.

(** C9, evaluated where [Math.random()] is 1/2 and where it is 0: the
    random part of the name is one character long, respectively empty. *)
Theorem C9_random_suffix_can_be_short :
  Utils.Number_toString36 (mkUnitDouble 1 1) = "0.i"
  /\ Utils.generateJobName "gh-job" 1700000000000 (mkUnitDouble 1 1)
     = "gh-job-1700000000000-i"
  /\ Utils.Number_toString36 (mkUnitDouble 0 0) = "0"
  /\ Utils.generateJobName "gh-job" 1700000000000 (mkUnitDouble 0 0)
     = "gh-job-1700000000000-".
Proof. repeat split. Qed.

(* ===================================================================== *)
(** * Further properties of the code *)
(* ===================================================================== *)

(** ** Strings *)

(** Arithmetic with division by a constant. *)
Ltac div_lia := zify; Z.to_euclidean_division_equations; lia.

(** Settles the comparisons of a goal whose outcome arithmetic decides. *)
Ltac settle :=
  repeat match goal with
         | |- context [(?a <? ?b)%N] =>
             first [ rewrite (proj2 (N.ltb_lt a b)) by div_lia
                   | rewrite (proj2 (N.ltb_ge a b)) by div_lia ]
         | |- context [(?a <=? ?b)%N] =>
             first [ rewrite (proj2 (N.leb_le a b)) by div_lia
                   | rewrite (proj2 (N.leb_gt a b)) by div_lia ]
         end.

Lemma append_empty_r (s : string) : (s ++ "")%string = s.
Proof. induction s as [|c r IH]; simpl; [reflexivity | now rewrite IH]. Qed.

Lemma append_assoc (a b c : string) :
  ((a ++ b) ++ c)%string = (a ++ (b ++ c))%string.
Proof. induction a as [|x r IH]; simpl; [reflexivity | now rewrite IH]. Qed.

Lemma all_append (p : ascii -> bool) (a b : string) :
  Chars.all p (a ++ b) = Chars.all p a && Chars.all p b.
Proof.
  induction a as [|c r IH]; simpl; [reflexivity|].
  now rewrite IH, andb_assoc.
Qed.

(** *** UTF-8 *)

Lemma code_byte (n : N) : (n < 256)%N -> Utf8.code (Utf8.byte n) = n.
Proof.
  intros H. unfold Utf8.code, Utf8.byte. now apply N_ascii_embedding.
Qed.

Lemma code_bound (c : ascii) : (Utf8.code c < 256)%N.
Proof. apply N_ascii_bounded. Qed.

Lemma continuation_byte (n : N) :
  (n < 64)%N -> Utf8.continuation (Utf8.byte (0x80 + n)) = true.
Proof.
  intros H. unfold Utf8.continuation. rewrite code_byte by lia.
  apply andb_true_iff. split; [apply N.leb_le | apply N.ltb_lt]; lia.
Qed.

(** Decoding reads back the bytes of a character. *)
Lemma decode_encode1 (p : N) (rest : string) :
  Points.scalar p ->
  Utf8.decode (Utf8.encode1 p ++ rest) = p :: Utf8.decode rest.
Proof.
  unfold Points.scalar, Utf8.decode, Utf8.encode1. intros Hp.
  destruct (N.ltb_spec p 0x80);
    [|destruct (N.ltb_spec p 0x800); [|destruct (N.ltb_spec p 0x10000)]];
    cbn [append Utf8.decode_from]; unfold Utf8.head; cbv zeta;
    rewrite ?continuation_byte by div_lia;
    rewrite ?code_byte by div_lia;
    cbn [negb andb]; settle; cbn [negb andb Utf8.decode_from];
    f_equal; div_lia.
Qed.

Lemma encode_app (l1 l2 : list N) :
  Utf8.encode (l1 ++ l2) = (Utf8.encode l1 ++ Utf8.encode l2)%string.
Proof.
  induction l1 as [|p r IH]; simpl; [reflexivity|].
  now rewrite IH, append_assoc.
Qed.

Lemma decode_encode_then (l : list N) (rest : string) :
  Forall Points.scalar l ->
  Utf8.decode (Utf8.encode l ++ rest) = l ++ Utf8.decode rest.
Proof.
  induction 1 as [|p r Hp _ IH]; simpl; [reflexivity|].
  now rewrite append_assoc, decode_encode1, IH.
Qed.

Lemma decode_encode (l : list N) :
  Forall Points.scalar l -> Utf8.decode (Utf8.encode l) = l.
Proof.
  intros H. rewrite <- (append_empty_r (Utf8.encode l)).
  rewrite decode_encode_then by exact H. apply app_nil_r.
Qed.

Lemma head_scalar (b : ascii) (r : string) :
  Points.scalar (fst (Utf8.head b r)).
Proof.
  unfold Points.scalar, Utf8.head, Utf8.replacement, Utf8.continuation.
  cbv zeta.
  pose proof (code_bound b) as Hb.
  destruct (N.ltb_spec (Utf8.code b) 0x80); [simpl; lia|].
  destruct r as [|b1 r1]; [simpl; lia|].
  pose proof (code_bound b1) as Hb1.
  destruct ((0x80 <=? Utf8.code b1)%N && (Utf8.code b1 <? 0xC0)%N) eqn:C1;
    cbn [negb]; [|simpl; lia].
  apply andb_true_iff in C1. destruct C1 as [L1 U1].
  apply N.leb_le in L1. apply N.ltb_lt in U1.
  destruct (N.ltb_spec (Utf8.code b) 0xE0).
  { destruct (N.leb_spec 0xC2 (Utf8.code b)); simpl; lia. }
  destruct r1 as [|b2 r2]; [simpl; lia|].
  pose proof (code_bound b2) as Hb2.
  destruct ((0x80 <=? Utf8.code b2)%N && (Utf8.code b2 <? 0xC0)%N) eqn:C2;
    cbn [negb]; [|simpl; lia].
  apply andb_true_iff in C2. destruct C2 as [L2 U2].
  apply N.leb_le in L2. apply N.ltb_lt in U2.
  destruct (N.ltb_spec (Utf8.code b) 0xF0).
  { match goal with
    | |- context [(0x800 <=? ?p)%N] => destruct (N.leb_spec 0x800 p)
    end; simpl; lia. }
  destruct r2 as [|b3 r3]; [simpl; lia|].
  match goal with
  | |- context [if ?c then _ else _] => destruct c eqn:C3
  end; [|simpl; lia].
  apply andb_true_iff in C3. destruct C3 as [_ C3].
  apply N.ltb_lt in C3. exact C3.
Qed.

Lemma decode_from_scalar (s : string) :
  forall skip, Forall Points.scalar (Utf8.decode_from skip s).
Proof.
  induction s as [|b r IH]; intros skip; simpl; [constructor|].
  destruct skip as [|k]; [|apply IH].
  pose proof (head_scalar b r) as H.
  destruct (Utf8.head b r) as [p k]. constructor; [exact H | apply IH].
Qed.

(** The characters of a string are code points. *)
Lemma decode_scalar (s : string) : Forall Points.scalar (Utf8.decode s).
Proof. apply decode_from_scalar. Qed.

Lemma encode1_not_empty (p : N) : Utf8.encode1 p <> "".
Proof.
  unfold Utf8.encode1.
  destruct (p <? 0x80)%N; [discriminate|].
  destruct (p <? 0x800)%N; [discriminate|].
  destruct (p <? 0x10000)%N; discriminate.
Qed.

Lemma encode_empty_iff (l : list N) : Utf8.encode l = "" <-> l = [].
Proof.
  destruct l as [|p r]; simpl; [tauto|].
  split; [|discriminate].
  pose proof (encode1_not_empty p) as H.
  destruct (Utf8.encode1 p); [now elim H | discriminate].
Qed.

Lemma decode_empty_iff (s : string) : Utf8.decode s = [] <-> s = "".
Proof.
  destruct s as [|b r]; [now split|].
  unfold Utf8.decode. simpl. destruct (Utf8.head b r).
  split; discriminate.
Qed.

Lemma well_formed_iff (s : string) :
  Utf8.well_formed s = true <-> Utf8.encode (Utf8.decode s) = s.
Proof. unfold Utf8.well_formed. apply String.eqb_eq. Qed.

(** What was encoded is well formed. *)
Lemma well_formed_encode (l : list N) :
  Forall Points.scalar l -> Utf8.well_formed (Utf8.encode l) = true.
Proof. intros H. apply well_formed_iff. now rewrite decode_encode. Qed.

Lemma decode_append (a b : string) :
  Utf8.well_formed a = true ->
  Utf8.decode (a ++ b) = Utf8.decode a ++ Utf8.decode b.
Proof.
  intros H. apply well_formed_iff in H. rewrite <- H at 1.
  apply decode_encode_then, decode_scalar.
Qed.

(** The bytes of a character beyond ASCII are all beyond ASCII. *)
Lemma encode1_bytes (P : ascii -> bool) (p : N) :
  Points.scalar p ->
  (forall c, (0x80 <= Utf8.code c)%N -> P c = true) ->
  ((p < 0x80)%N -> P (Utf8.byte p) = true) ->
  Chars.all P (Utf8.encode1 p) = true.
Proof.
  unfold Points.scalar, Utf8.encode1. intros Hp Hhigh Hlow.
  destruct (N.ltb_spec p 0x80); [simpl; now rewrite Hlow|].
  destruct (N.ltb_spec p 0x800); [|destruct (N.ltb_spec p 0x10000)];
    cbn [Chars.all];
    rewrite !Hhigh by (rewrite code_byte by div_lia; div_lia);
    reflexivity.
Qed.

Lemma encode_bytes (P : ascii -> bool) (Q : N -> bool) (l : list N) :
  (forall c, (0x80 <= Utf8.code c)%N -> P c = true) ->
  (forall p, (p < 0x80)%N -> Q p = true -> P (Utf8.byte p) = true) ->
  Forall Points.scalar l ->
  forallb Q l = true ->
  Chars.all P (Utf8.encode l) = true.
Proof.
  intros Hhigh Hlow Hl. induction Hl as [|p r Hp _ IH]; simpl;
    [reflexivity|].
  intros H. apply andb_true_iff in H. destruct H as [Hq Hr].
  rewrite all_append, IH by exact Hr.
  rewrite encode1_bytes; auto.
Qed.

(** Replacing one ASCII character by another, on bytes and on
    characters. *)
Lemma map_chars_encode1 (a b : ascii) (p : N) :
  Points.scalar p ->
  (Utf8.code a < 0x80)%N -> (Utf8.code b < 0x80)%N ->
  JsString.map_chars (fun c => if Ascii.eqb c a then b else c)
                     (Utf8.encode1 p)
  = Utf8.encode1 (if (p =? Utf8.code a)%N then Utf8.code b else p).
Proof.
  unfold Points.scalar. intros Hp Ha Hb.
  assert (Hbyte : forall n, (n < 256)%N -> n <> Utf8.code a ->
                            Ascii.eqb (Utf8.byte n) a = false).
  { intros n Hn Hne. apply Ascii.eqb_neq. intros E. apply Hne.
    now rewrite <- E, code_byte. }
  destruct (N.eqb_spec p (Utf8.code a)) as [->|Hne].
  - unfold Utf8.encode1 at 1. settle. cbn [JsString.map_chars].
    unfold Utf8.byte, Utf8.code. rewrite ascii_N_embedding.
    rewrite Ascii.eqb_refl. unfold Utf8.encode1.
    fold (Utf8.code b). settle. unfold Utf8.byte, Utf8.code.
    now rewrite ascii_N_embedding.
  - unfold Utf8.encode1.
    destruct (N.ltb_spec p 0x80);
      [|destruct (N.ltb_spec p 0x800); [|destruct (N.ltb_spec p 0x10000)]];
      cbn [JsString.map_chars];
      rewrite !Hbyte by div_lia; reflexivity.
Qed.

Lemma replaceAll_encode (a b : ascii) (l : list N) :
  Forall Points.scalar l ->
  (Utf8.code a < 0x80)%N -> (Utf8.code b < 0x80)%N ->
  JsString.replaceAll a b (Utf8.encode l)
  = Utf8.encode
      (map (fun p => if (p =? Utf8.code a)%N then Utf8.code b else p) l).
Proof.
  intros Hl Ha Hb. unfold JsString.replaceAll.
  induction Hl as [|p r Hp _ IH]; simpl; [reflexivity|].
  now rewrite map_chars_append, map_chars_encode1, IH.
Qed.

(** *** Lower-casing *)

(** What the table of lower-case mappings holds, read off the table. *)
Lemma lower_table_facts :
  forallb (fun entry =>
             Points.stable (snd entry)
             && (snd entry <? 0x110000)%N
             && Points.not_capital (snd entry)
             && negb (Unicode.white_space (fst entry))
             && negb (Unicode.white_space (snd entry)))
          Unicode.lower_table = true.
Proof. vm_compute. reflexivity. Qed.

Lemma capitals_have_lower :
  forallb (fun n => negb (Points.stable (N.of_nat n))) (seq 65 26) = true.
Proof. vm_compute. reflexivity. Qed.

Lemma simple_lower_cases (p : N) :
  Unicode.simple_lower p = p
  \/ exists entry,
       In entry Unicode.lower_table
       /\ fst entry = p /\ Unicode.simple_lower p = snd entry.
Proof.
  unfold Unicode.simple_lower, Unicode.lookup.
  destruct (find (fun entry => (fst entry =? p)%N) Unicode.lower_table)
    as [entry|] eqn:F; [|now left].
  right. apply find_some in F. destruct F as [Hin Heq].
  apply N.eqb_eq in Heq. now exists entry.
Qed.

Lemma lower_table_entry (entry : N * N) :
  In entry Unicode.lower_table ->
  Points.stable (snd entry) = true
  /\ Points.scalar (snd entry)
  /\ Points.not_capital (snd entry) = true
  /\ Unicode.white_space (fst entry) = false
  /\ Unicode.white_space (snd entry) = false.
Proof.
  intros Hin.
  pose proof (proj1 (forallb_forall _ _) lower_table_facts entry Hin) as H.
  rewrite !andb_true_iff, !negb_true_iff in H.
  destruct H as ((((H1 & H2) & H3) & H4) & H5).
  apply N.ltb_lt in H2. now repeat split.
Qed.

Lemma stable_not_capital (q : N) :
  Points.stable q = true -> Points.not_capital q = true.
Proof.
  intros Hs. unfold Points.not_capital.
  destruct (N.leb_spec 65 q) as [Hlo|]; [|reflexivity].
  destruct (N.leb_spec q 90) as [Hhi|]; [|reflexivity].
  assert (Hin : In (N.to_nat q) (seq 65 26)) by (apply in_seq; lia).
  pose proof (proj1 (forallb_forall _ _) capitals_have_lower
                    (N.to_nat q) Hin) as Htab.
  cbv beta in Htab. rewrite N2Nat.id, Hs in Htab. discriminate Htab.
Qed.

(** One step of [lower]: what a character becomes. *)
Lemma lower_cons (after : bool) (p : N) (r : list N) :
  exists out after',
    Unicode.lower after (p :: r) = out ++ Unicode.lower after' r
    /\ (out = [0x3C2%N] /\ p = 0x3A3%N
        \/ out = [0x3C3%N] /\ p = 0x3A3%N
        \/ out = [0x69%N; 0x307%N] /\ p = 0x130%N
        \/ out = [Unicode.simple_lower p]
           /\ p <> 0x3A3%N /\ p <> 0x130%N).
Proof.
  cbn [Unicode.lower].
  destruct (N.eqb_spec p 0x3A3) as [->|H1].
  - eexists. eexists. split; [reflexivity|].
    destruct (after && negb (Unicode.followed_by_cased r)); auto.
  - destruct (N.eqb_spec p 0x130) as [->|H2];
      eexists; eexists; (split; [reflexivity|]); auto 6.
Qed.

(** A property of every character that lower-casing can put out. *)
Lemma lower_Forall (Q : N -> Prop) (P : N -> Prop) :
  Q 0x3C2%N -> Q 0x3C3%N -> Q 0x69%N -> Q 0x307%N ->
  (forall p, P p -> p <> 0x3A3%N -> p <> 0x130%N ->
             Q (Unicode.simple_lower p)) ->
  forall l after, Forall P l -> Forall Q (Unicode.lower after l).
Proof.
  intros Q1 Q2 Q3 Q4 Hq l.
  induction l as [|p r IH]; intros after Hl; [constructor|].
  inversion Hl as [|? ? Hp Hr]; subst.
  destruct (lower_cons after p r) as (out & after' & -> & Hout).
  apply Forall_app. split; [|now apply IH].
  destruct Hout as [[-> _]|[[-> _]|[[-> _]|[-> [H1 H2]]]]];
    repeat constructor; auto.
Qed.

Lemma simple_lower_stable (p : N) :
  p <> 0x130%N -> Points.stable (Unicode.simple_lower p) = true.
Proof.
  intros Hp.
  destruct (simple_lower_cases p) as [E|(entry & Hin & _ & ->)];
    [|now apply lower_table_entry].
  unfold Points.stable. rewrite !E, N.eqb_refl. simpl.
  apply negb_true_iff, N.eqb_neq, Hp.
Qed.

Lemma simple_lower_scalar (p : N) :
  Points.scalar p -> Points.scalar (Unicode.simple_lower p).
Proof.
  intros Hp.
  destruct (simple_lower_cases p) as [->|(entry & Hin & _ & ->)];
    [exact Hp | now apply lower_table_entry].
Qed.

(** Lower-casing puts out only characters that it leaves alone. *)
Lemma lower_stable (l : list N) (after : bool) :
  Forall (fun q => Points.stable q = true) (Unicode.lower after l).
Proof.
  apply (lower_Forall _ (fun _ => True)).
  - vm_compute. reflexivity.
  - vm_compute. reflexivity.
  - vm_compute. reflexivity.
  - vm_compute. reflexivity.
  - intros p _ _ Hp. now apply simple_lower_stable.
  - now apply Forall_forall.
Qed.

Lemma lower_scalar (l : list N) (after : bool) :
  Forall Points.scalar l -> Forall Points.scalar (Unicode.lower after l).
Proof.
  apply (lower_Forall Points.scalar Points.scalar).
  - vm_compute. reflexivity.
  - vm_compute. reflexivity.
  - vm_compute. reflexivity.
  - vm_compute. reflexivity.
  - intros p Hp _ _. now apply simple_lower_scalar.
Qed.

(** A string of such characters is its own lower-case form. *)
Lemma lower_fixed (l : list N) :
  Forall (fun q => Points.stable q = true) l ->
  forall after, Unicode.lower after l = l.
Proof.
  induction 1 as [|q r Hq _ IH]; intros after; [reflexivity|].
  unfold Points.stable in Hq. apply andb_true_iff in Hq.
  destruct Hq as [Hs Hi]. apply N.eqb_eq in Hs.
  apply negb_true_iff in Hi.
  cbn [Unicode.lower]. rewrite Hi.
  destruct (N.eqb_spec q 0x3A3) as [->|_];
    [vm_compute in Hs; discriminate Hs|].
  rewrite Hs, IH. reflexivity.
Qed.

Lemma lower_idempotent (l : list N) (a b : bool) :
  Unicode.lower a (Unicode.lower b l) = Unicode.lower b l.
Proof. apply lower_fixed, lower_stable. Qed.

(** Lower-casing neither makes nor unmakes white space. *)
Lemma lower_white_space (l : list N) :
  forall after,
    forallb Unicode.white_space (Unicode.lower after l)
    = forallb Unicode.white_space l.
Proof.
  induction l as [|p r IH]; intros after; [reflexivity|].
  destruct (lower_cons after p r) as (out & after' & -> & Hout).
  rewrite forallb_app, IH. cbn [forallb]. f_equal.
  destruct Hout as [[-> ->]|[[-> ->]|[[-> ->]|[-> [H1 H2]]]]];
    try reflexivity.
  cbn [forallb]. rewrite andb_true_r.
  destruct (simple_lower_cases p) as [->|(entry & Hin & <- & ->)];
    [reflexivity|].
  destruct (lower_table_entry entry Hin) as (_ & _ & _ & -> & ->).
  reflexivity.
Qed.

Lemma lower_empty_iff (l : list N) (after : bool) :
  Unicode.lower after l = [] <-> l = [].
Proof.
  split; [|now intros ->].
  destruct l as [|p r]; [reflexivity|].
  destruct (lower_cons after p r) as (out & after' & -> & Hout).
  destruct Hout as [[-> _]|[[-> _]|[[-> _]|[-> _]]]]; discriminate.
Qed.

(** *** White space: trimming and splitting *)

Lemma forallb_rev' {A : Type} (p : A -> bool) (l : list A) :
  forallb p (rev l) = forallb p l.
Proof.
  induction l as [|x r IH]; simpl; [reflexivity|].
  rewrite forallb_app, IH. simpl. rewrite andb_true_r. apply andb_comm.
Qed.

Lemma rev_empty_iff {A : Type} (l : list A) : rev l = [] <-> l = [].
Proof.
  split; [|now intros ->].
  destruct l as [|x r]; [reflexivity|]. simpl. intros H.
  now apply app_eq_nil in H.
Qed.

Lemma drop_spaces_empty_iff (l : list N) :
  Unicode.drop_spaces l = [] <-> forallb Unicode.white_space l = true.
Proof.
  induction l as [|p r IH]; simpl; [tauto|].
  destruct (Unicode.white_space p); simpl; [exact IH|].
  split; discriminate.
Qed.

Lemma blank_drop_spaces (l : list N) :
  forallb Unicode.white_space (Unicode.drop_spaces l)
  = forallb Unicode.white_space l.
Proof.
  induction l as [|p r IH]; simpl; [reflexivity|].
  destruct (Unicode.white_space p) eqn:E; simpl; [exact IH|].
  now rewrite E.
Qed.

Lemma drop_spaces_starts (l : list N) :
  Unicode.drop_spaces l = []
  \/ Points.starts_nonspace (Unicode.drop_spaces l) = true.
Proof.
  induction l as [|p r IH]; simpl; [now left|].
  destruct (Unicode.white_space p) eqn:E; [exact IH|].
  right. simpl. now rewrite E.
Qed.

Lemma drop_spaces_id (l : list N) :
  Points.starts_nonspace l = true -> Unicode.drop_spaces l = l.
Proof.
  destruct l as [|p r]; simpl; [discriminate|].
  now destruct (Unicode.white_space p).
Qed.

Lemma starts_nonspace_app (a b : list N) :
  a <> [] -> Points.starts_nonspace (a ++ b) = Points.starts_nonspace a.
Proof. destruct a; simpl; [congruence | reflexivity]. Qed.

Lemma ends_nonspace_cons (p : N) (r : list N) :
  Points.ends_nonspace (p :: r)
  = match r with
    | [] => negb (Unicode.white_space p)
    | _ => Points.ends_nonspace r
    end.
Proof.
  unfold Points.ends_nonspace. simpl.
  destruct r as [|q r']; [reflexivity|].
  apply starts_nonspace_app. intros E. apply (proj1 (rev_empty_iff _)) in E.
  discriminate E.
Qed.

Lemma ends_nonspace_app (a b : list N) :
  b <> [] -> Points.ends_nonspace (a ++ b) = Points.ends_nonspace b.
Proof.
  intros Hb. unfold Points.ends_nonspace. rewrite rev_app_distr.
  apply starts_nonspace_app. intros E. now apply (proj1 (rev_empty_iff _)) in E.
Qed.

Lemma ends_nonspace_drop_spaces (l : list N) :
  Unicode.drop_spaces l <> [] ->
  Points.ends_nonspace (Unicode.drop_spaces l) = Points.ends_nonspace l.
Proof.
  induction l as [|p r IH]; simpl; [congruence|].
  destruct (Unicode.white_space p) eqn:E; [|reflexivity].
  intros H. rewrite (ends_nonspace_cons p r).
  destruct r as [|q r']; [now elim H | now apply IH].
Qed.

(** [trim] leaves nothing exactly of the strings of white space, and
    what it leaves otherwise begins and ends with a character that is
    not white space. *)
Lemma trim_nil_iff (l : list N) :
  Unicode.trim l = [] <-> forallb Unicode.white_space l = true.
Proof.
  unfold Unicode.trim. rewrite rev_empty_iff, drop_spaces_empty_iff.
  now rewrite forallb_rev', blank_drop_spaces.
Qed.

Lemma trim_ends (l : list N) :
  Unicode.trim l <> [] ->
  Points.starts_nonspace (Unicode.trim l) = true
  /\ Points.ends_nonspace (Unicode.trim l) = true.
Proof.
  unfold Unicode.trim. intros H.
  set (u := Unicode.drop_spaces l) in *.
  set (v := rev u) in *.
  set (d := Unicode.drop_spaces v) in *.
  assert (Hd : d <> []) by (intros E; apply H; now rewrite E).
  assert (Hds : Points.starts_nonspace d = true).
  { destruct (drop_spaces_starts v) as [E|E]; [now elim Hd | exact E]. }
  split.
  - change (Points.ends_nonspace d = true). unfold d.
    rewrite ends_nonspace_drop_spaces by exact Hd.
    unfold Points.ends_nonspace, v. rewrite rev_involutive.
    destruct (drop_spaces_starts l) as [E|E]; [|exact E].
    fold u in E. elim Hd. unfold d, v. now rewrite E.
  - unfold Points.ends_nonspace. now rewrite rev_involutive.
Qed.

Lemma trim_id (l : list N) :
  Points.starts_nonspace l = true ->
  Points.ends_nonspace l = true ->
  Unicode.trim l = l.
Proof.
  intros Hs He. unfold Unicode.trim.
  rewrite (drop_spaces_id l Hs), (drop_spaces_id _ He).
  apply rev_involutive.
Qed.

Lemma trim_no_space (l : list N) :
  l <> [] -> Points.no_space l = true -> Unicode.trim l = l.
Proof.
  intros Hne Hns. apply trim_id.
  - destruct l as [|p r]; [now elim Hne|]. simpl in *.
    now apply andb_true_iff in Hns.
  - unfold Points.ends_nonspace.
    assert (Hr : Points.no_space (rev l) = true)
      by (unfold Points.no_space in *; now rewrite forallb_rev').
    destruct (rev l) as [|p r] eqn:E;
      [apply (proj1 (rev_empty_iff _)) in E; now elim Hne|].
    simpl in *. now apply andb_true_iff in Hr.
Qed.

Lemma split_no_space (l : list N) :
  forall cur gap,
    Points.no_space cur = true ->
    Forall (fun t => Points.no_space t = true) (Unicode.split cur gap l).
Proof.
  unfold Points.no_space.
  induction l as [|p r IH]; intros cur gap Hcur; simpl.
  - constructor; [|constructor]. now rewrite forallb_rev'.
  - destruct (Unicode.white_space p) eqn:E.
    + destruct gap; [now apply IH|].
      constructor; [|now apply IH]. now rewrite forallb_rev'.
    + apply IH. simpl. rewrite E. simpl. now destruct gap.
Qed.

Lemma split_nonempty (l : list N) :
  forall cur gap,
    (l = [] -> gap = false /\ cur <> []) ->
    (l <> [] -> Points.ends_nonspace l = true) ->
    (gap = false -> cur = [] -> Points.starts_nonspace l = true) ->
    Forall (fun t => t <> []) (Unicode.split cur gap l).
Proof.
  induction l as [|p r IH]; intros cur gap Hend Hlast Hstart; simpl.
  - destruct (Hend eq_refl) as [_ Hcur].
    constructor; [|constructor].
    intros E. now apply (proj1 (rev_empty_iff _)) in E.
  - assert (Hr : r <> [] -> Points.ends_nonspace r = true).
    { intros Hne. specialize (Hlast ltac:(discriminate)).
      rewrite ends_nonspace_cons in Hlast. now destruct r. }
    destruct (Unicode.white_space p) eqn:E.
    + assert (Hrne : r <> []).
      { intros ->. specialize (Hlast ltac:(discriminate)).
        rewrite ends_nonspace_cons, E in Hlast. discriminate Hlast. }
      destruct gap.
      * apply IH; [now intros | exact Hr | discriminate].
      * assert (Hcur : cur <> []).
        { intros ->. specialize (Hstart eq_refl eq_refl). simpl in Hstart.
          rewrite E in Hstart. discriminate Hstart. }
        constructor.
        -- intros E'. now apply (proj1 (rev_empty_iff _)) in E'.
        -- apply IH; [now intros | exact Hr | discriminate].
    + apply IH; [|exact Hr|].
      * intros _. split; [reflexivity | discriminate].
      * intros _ H. discriminate H.
Qed.

Lemma split_not_nil (l : list N) :
  forall cur gap, Unicode.split cur gap l <> [].
Proof.
  induction l as [|p r IH]; intros cur gap; simpl; [discriminate|].
  destruct (Unicode.white_space p); [destruct gap|]; try apply IH.
  discriminate.
Qed.

(** Reading a token moves it, reversed, in front of the current one. *)
Lemma split_token (tok : list N) :
  forall cur rest,
    Points.no_space tok = true ->
    Unicode.split cur false (tok ++ rest)
    = Unicode.split (rev tok ++ cur) false rest.
Proof.
  unfold Points.no_space.
  induction tok as [|p r IH]; intros cur rest H; simpl in *; [reflexivity|].
  apply andb_true_iff in H. destruct H as [Hp Hr].
  apply negb_true_iff in Hp. rewrite Hp, IH by exact Hr.
  now rewrite <- app_assoc.
Qed.

Lemma split_first_token (tok : list N) (gap : bool) (rest : list N) :
  tok <> [] ->
  Points.no_space tok = true ->
  Unicode.split [] gap (tok ++ rest) = Unicode.split (rev tok) false rest.
Proof.
  unfold Points.no_space. intros Hne Hns.
  destruct tok as [|p r]; [now elim Hne|]. simpl in *.
  apply andb_true_iff in Hns. destruct Hns as [Hp Hr].
  apply negb_true_iff in Hp. rewrite Hp.
  replace (if gap then [] else []) with (@nil N) by now destruct gap.
  now rewrite split_token.
Qed.

Lemma split_scalar (P : N -> Prop) (l : list N) :
  forall cur gap,
    Forall P cur -> Forall P l ->
    Forall (Forall P) (Unicode.split cur gap l).
Proof.
  induction l as [|p r IH]; intros cur gap Hcur Hl; simpl.
  - constructor; [|constructor]. now apply Forall_rev.
  - inversion Hl as [|? ? Hp Hr]; subst.
    destruct (Unicode.white_space p).
    + destruct gap; [now apply IH|].
      constructor; [now apply Forall_rev | now apply IH].
    + apply IH; [|exact Hr]. constructor; [exact Hp|].
      now destruct gap.
Qed.

Lemma drop_spaces_Forall (P : N -> Prop) (l : list N) :
  Forall P l -> Forall P (Unicode.drop_spaces l).
Proof.
  induction 1 as [|p r Hp Hr IH]; simpl; [constructor|].
  destruct (Unicode.white_space p); [exact IH | now constructor].
Qed.

Lemma trim_Forall (P : N -> Prop) (l : list N) :
  Forall P l -> Forall P (Unicode.trim l).
Proof.
  intros H. unfold Unicode.trim.
  now apply Forall_rev, drop_spaces_Forall, Forall_rev, drop_spaces_Forall.
Qed.

Lemma filter_Forall {A : Type} (P : A -> Prop) (f : A -> bool)
    (l : list A) :
  Forall P l -> Forall P (filter f l).
Proof.
  induction 1 as [|x r Hx _ IH]; simpl; [constructor|].
  destruct (f x); [now constructor | exact IH].
Qed.

Lemma filter_empty_iff (l : list N) :
  filter (fun p => negb (Unicode.white_space p)) l = []
  <-> forallb Unicode.white_space l = true.
Proof.
  induction l as [|p r IH]; simpl; [tauto|].
  destruct (Unicode.white_space p); simpl; [exact IH|].
  split; discriminate.
Qed.

Lemma filter_fixed {A : Type} (f : A -> bool) (l : list A) :
  filter f (filter f l) = filter f l.
Proof.
  induction l as [|x r IH]; simpl; [reflexivity|].
  destruct (f x) eqn:E; simpl; [now rewrite E, IH | exact IH].
Qed.

(** *** trim and parseCommand *)

Lemma decode_trim (s : string) :
  Utf8.decode (JsString.trim s) = Unicode.trim (Utf8.decode s).
Proof.
  unfold JsString.trim. apply decode_encode, trim_Forall, decode_scalar.
Qed.

(** [trim] leaves nothing exactly of the strings of white space. *)
Lemma trim_empty_iff (s : string) :
  JsString.trim s = "" <-> Chars.blank s = true.
Proof.
  unfold JsString.trim, Chars.blank. rewrite encode_empty_iff.
  apply trim_nil_iff.
Qed.

Lemma blank_false_nonempty (s : string) :
  Chars.blank s = false -> JsString.truthy s = true.
Proof. destruct s; [discriminate | reflexivity]. Qed.

Lemma parseCommand_cases (s : string) :
  Utils.parseCommand s
  = if Chars.blank s then None
    else Some (JsString.split_spaces (JsString.trim s)).
Proof.
  unfold Utils.parseCommand.
  destruct (Chars.blank s) eqn:B.
  - apply trim_empty_iff in B. rewrite B. simpl.
    now rewrite orb_true_r.
  - rewrite (blank_false_nonempty s B). simpl.
    destruct (String.eqb_spec (JsString.trim s) "") as [E|E];
      [|reflexivity].
    apply trim_empty_iff in E. congruence.
Qed.

(** X2: [parseCommand] answers [undefined] exactly for the strings that
    are empty or all whitespace. *)
Theorem X2_parseCommand_undefined_iff_blank (commandString : string) :
  Utils.parseCommand commandString = None
  <-> Chars.blank commandString = true.
Proof.
  rewrite parseCommand_cases.
  destruct (Chars.blank commandString); split; congruence.
Qed.

Lemma parseCommand_tokens (commandString : string)
    (tokens : list string) :
  Utils.parseCommand commandString = Some tokens ->
  tokens <> [] /\ Forall (fun t => Chars.token t = true) tokens.
Proof.
  rewrite parseCommand_cases.
  destruct (Chars.blank commandString) eqn:B; [discriminate|].
  intros H. injection H as <-.
  unfold JsString.split_spaces. rewrite decode_trim.
  set (T := Unicode.trim (Utf8.decode commandString)).
  assert (Hne : T <> []).
  { intros E. apply trim_nil_iff in E. unfold Chars.blank in B.
    congruence. }
  destruct (trim_ends _ Hne) as [Hs He]. fold T in Hs, He.
  split.
  - intros E. apply map_eq_nil in E. now apply split_not_nil in E.
  - pose proof (split_no_space T [] false eq_refl) as Hns.
    assert (Hnn : Forall (fun t => t <> []) (Unicode.split [] false T))
      by (apply split_nonempty; [intros E; now elim Hne | now intros
                                 | now intros]).
    assert (Hsc : Forall (Forall Points.scalar)
                         (Unicode.split [] false T))
      by (apply split_scalar;
          [constructor | apply trim_Forall, decode_scalar]).
    rewrite Forall_forall in *. intros t Ht.
    apply in_map_iff in Ht. destruct Ht as (piece & <- & Hin).
    unfold Chars.token, Chars.no_space.
    rewrite decode_encode by now apply Hsc.
    fold (Points.no_space piece). rewrite (Hns piece Hin), andb_true_r.
    apply truthy_string_iff. intros E. apply encode_empty_iff in E.
    now apply (Hnn piece Hin).
Qed.

(** X3: the array [parseCommand] returns is never empty, and each of its
    elements is a non-empty string without whitespace. *)
Theorem X3_parseCommand_tokens (commandString : string)
    (tokens : list string) :
  Utils.parseCommand commandString = Some tokens ->
  tokens <> [] /\ Forall (fun t => Chars.token t = true) tokens.
Proof. apply parseCommand_tokens. Qed.

Lemma X3_parseCommand_tokens_witness :
  Utils.parseCommand "  echo  hello world " = Some ["echo"; "hello"; "world"]
  /\ Forall (fun t => Chars.token t = true) ["echo"; "hello"; "world"].
Proof.
  split; [vm_compute; reflexivity|].
  apply (X3_parseCommand_tokens "  echo  hello world ").
  vm_compute. reflexivity.
Defined.

(** *** Joining and parsing again *)

Lemma decode_space (rest : string) :
  Utf8.decode (String " " rest) = 32%N :: Utf8.decode rest.
Proof. reflexivity. Qed.

Lemma token_points (t : string) :
  Chars.token t = true ->
  Utf8.decode t <> [] /\ Points.no_space (Utf8.decode t) = true.
Proof.
  unfold Chars.token, Chars.no_space. intros H.
  apply andb_true_iff in H. destruct H as [Hne Hns].
  split; [|exact Hns].
  intros E. apply decode_empty_iff in E. subst. discriminate Hne.
Qed.

Lemma concat_cons (tok t : string) (ts : list string) :
  String.concat " " (tok :: t :: ts)
  = (tok ++ String " " (String.concat " " (t :: ts)))%string.
Proof. reflexivity. Qed.

Lemma split_concat (tokens : list string) :
  forall tok gap,
    Forall (fun t => Chars.token t = true) (tok :: tokens) ->
    Forall (fun t => Utf8.well_formed t = true) (tok :: tokens) ->
    Unicode.split [] gap (Utf8.decode (String.concat " " (tok :: tokens)))
    = map Utf8.decode (tok :: tokens).
Proof.
  induction tokens as [|t ts IH]; intros tok gap Hall Hwf;
    inversion Hall as [|? ? Htok Hts]; subst;
    inversion Hwf as [|? ? Hw Hws]; subst;
    destruct (token_points tok Htok) as [Hne Hns].
  - cbn [String.concat map].
    rewrite <- (app_nil_r (Utf8.decode tok)) at 1.
    rewrite split_first_token by assumption. simpl.
    now rewrite rev_involutive.
  - rewrite concat_cons, decode_append by exact Hw.
    rewrite decode_space, split_first_token by assumption.
    cbn [Unicode.split]. change (Unicode.white_space 32) with true.
    cbv iota. rewrite rev_involutive. cbn [map]. f_equal.
    now apply IH.
Qed.

Lemma concat_well_formed (tokens : list string) :
  Forall (fun t => Utf8.well_formed t = true) tokens ->
  Utf8.well_formed (String.concat " " tokens) = true.
Proof.
  induction 1 as [|tok ts Hw Hws IH]; [reflexivity|].
  destruct ts as [|t ts']; [exact Hw|].
  rewrite concat_cons. apply well_formed_iff.
  rewrite decode_append, decode_space by exact Hw.
  rewrite encode_app. cbn [Utf8.encode].
  apply well_formed_iff in Hw, IH. now rewrite Hw, IH.
Qed.

Lemma concat_no_space_ends (tokens : list string) :
  forall tok,
    Forall (fun t => Chars.token t = true) (tok :: tokens) ->
    Forall (fun t => Utf8.well_formed t = true) (tok :: tokens) ->
    let joined := Utf8.decode (String.concat " " (tok :: tokens)) in
    Points.starts_nonspace joined = true
    /\ Points.ends_nonspace joined = true.
Proof.
  induction tokens as [|t ts IH]; intros tok Hall Hwf;
    inversion Hall as [|? ? Htok Hts]; subst;
    inversion Hwf as [|? ? Hw Hws]; subst;
    destruct (token_points tok Htok) as [Hne Hns]; cbv zeta.
  - cbn [String.concat].
    pose proof (trim_no_space _ Hne Hns) as Ht.
    assert (Hn : Unicode.trim (Utf8.decode tok) <> [])
      by now rewrite Ht.
    apply trim_ends in Hn. now rewrite Ht in Hn.
  - rewrite concat_cons, decode_append by exact Hw.
    rewrite decode_space.
    destruct (IH t Hts Hws) as [_ He]. cbv zeta in He.
    split.
    + rewrite starts_nonspace_app by exact Hne.
      pose proof (trim_no_space _ Hne Hns) as Ht.
      assert (Hn : Unicode.trim (Utf8.decode tok) <> [])
        by now rewrite Ht.
      apply trim_ends in Hn. now rewrite Ht in Hn.
    + rewrite ends_nonspace_app by discriminate.
      rewrite ends_nonspace_cons.
      destruct (Utf8.decode (String.concat " " (t :: ts))) eqn:E;
        [|exact He].
      discriminate He.
Qed.

(** X4: joining tokens with single spaces and parsing the result gives
    the tokens back: [parseCommand(command.join(' '))] is [command] for
    every non-empty array of non-empty strings without white space (of
    well-formed strings, as every string of the engine is). *)
Theorem X4_parseCommand_join_round_trip (tokens : list string) :
  tokens <> [] ->
  Forall (fun t => Chars.token t = true) tokens ->
  Forall (fun t => Utf8.well_formed t = true) tokens ->
  Utils.parseCommand (String.concat " " tokens) = Some tokens.
Proof.
  intros Hne Hall Hwf. destruct tokens as [|tok ts]; [now elim Hne|].
  destruct (concat_no_space_ends ts tok Hall Hwf) as [Hs He].
  cbv zeta in Hs, He.
  pose proof (concat_well_formed _ Hwf) as Hj.
  apply well_formed_iff in Hj.
  set (joined := String.concat " " (tok :: ts)) in *.
  assert (Ht : JsString.trim joined = joined).
  { unfold JsString.trim. now rewrite trim_id. }
  rewrite parseCommand_cases.
  destruct (Chars.blank joined) eqn:B.
  - apply trim_empty_iff in B. rewrite Ht in B. rewrite B in Hs.
    discriminate Hs.
  - rewrite Ht. unfold JsString.split_spaces, joined.
    rewrite split_concat by assumption. rewrite map_map. f_equal.
    rewrite <- (map_id (tok :: ts)) at 2. apply map_ext_Forall.
    eapply Forall_impl; [|exact Hwf].
    intros t. apply well_formed_iff.
Qed.

Lemma X4_parseCommand_join_round_trip_witness :
  Utils.parseCommand (String.concat " " ["python"; "script.py"; "--x=1"])
  = Some ["python"; "script.py"; "--x=1"].
Proof.
  apply X4_parseCommand_join_round_trip; [discriminate| |];
    repeat constructor.
Defined.

(** *** secretName *)

Lemma high_byte_secret_char (c : ascii) :
  (0x80 <= Utf8.code c)%N -> Chars.secret_char c = true.
Proof.
  intros H. destruct (Chars.secret_char c) eqn:E; [reflexivity|].
  exfalso. revert H E. unfold Utf8.code.
  destruct c as [[] [] [] [] [] [] [] []]; vm_compute; congruence.
Qed.

Lemma high_byte_location_char (c : ascii) :
  (0x80 <= Utf8.code c)%N -> Chars.location_char c = true.
Proof.
  intros H. destruct (Chars.location_char c) eqn:E; [reflexivity|].
  exfalso. revert H E. unfold Utf8.code.
  destruct c as [[] [] [] [] [] [] [] []]; vm_compute; congruence.
Qed.

(** The name as a list of characters: the lower-cased key with each
    underscore replaced. *)
Lemma secretName_points (key : string) :
  Config.secretName key
  = Utf8.encode
      (map (fun p => if (p =? 95)%N then 45%N else p)
           (Unicode.lower false (Utf8.decode key))).
Proof.
  unfold Config.secretName, JsString.toLowerCase.
  rewrite replaceAll_encode;
    [reflexivity | apply lower_scalar, decode_scalar
     | vm_compute; reflexivity | vm_compute; reflexivity].
Qed.

Lemma replaced_Forall (P : N -> Prop) (l : list N) :
  P 45%N -> Forall P l ->
  Forall P (map (fun p => if (p =? 95)%N then 45%N else p) l).
Proof.
  intros H45. induction 1 as [|p r Hp _ IH]; simpl; constructor;
    [now destruct (p =? 95)%N | exact IH].
Qed.

Lemma secretName_ascii (key : string) :
  Chars.all Chars.is_ascii key = true ->
  Config.secretName key = JsString.map_chars Doc.normal_char key.
Proof. apply normalized_ascii. Qed.

Lemma map_chars_length (f : ascii -> ascii) (s : string) :
  String.length (JsString.map_chars f s) = String.length s.
Proof. induction s as [|c r IH]; simpl; [reflexivity | now rewrite IH]. Qed.

(** X1: the normalized secret name contains no capital ASCII letter and
    no underscore, and normalizing it again changes nothing.  On a key
    of ASCII characters it is the key with each capital letter made small
    and each underscore made a hyphen, so it has the length of the key;
    beyond ASCII the length can change: the capital I with a dot, U+0130,
    becomes two characters. *)
Theorem X1_secretName_normal_form (key : string) :
  Chars.all Chars.secret_char (Config.secretName key) = true
  /\ Config.secretName (Config.secretName key) = Config.secretName key
  /\ (Chars.all Chars.is_ascii key = true ->
      Config.secretName key = JsString.map_chars Doc.normal_char key
      /\ String.length (Config.secretName key) = String.length key)
  /\ Utf8.decode (Config.secretName (Utf8.encode [0x130%N]))
     = [0x69%N; 0x307%N].
Proof.
  pose proof (lower_stable (Utf8.decode key) false) as Hst.
  pose proof (lower_scalar (Utf8.decode key) false (decode_scalar key))
    as Hsc.
  set (L := Unicode.lower false (Utf8.decode key)) in *.
  set (r := fun p => if (p =? 95)%N then 45%N else p).
  assert (Hr : Forall (fun q => Points.stable q = true) (map r L))
    by (apply replaced_Forall; [vm_compute; reflexivity | exact Hst]).
  assert (Hrs : Forall Points.scalar (map r L))
    by (apply replaced_Forall; [vm_compute; reflexivity | exact Hsc]).
  rewrite !secretName_points. fold L r.
  split; [|split; [|split]].
  - apply (encode_bytes _ (fun q => Points.not_capital q
                                    && negb (q =? 95)%N)).
    + apply high_byte_secret_char.
    + intros p Hp Hq. apply andb_true_iff in Hq. destruct Hq as [Hc Hu].
      unfold Chars.secret_char, JsString.is_upper.
      fold (Utf8.code (Utf8.byte p)). rewrite code_byte by lia.
      unfold Points.not_capital in Hc. rewrite Hc. simpl.
      apply negb_true_iff, Ascii.eqb_neq. intros E.
      apply (f_equal Utf8.code) in E. rewrite code_byte in E by lia.
      apply negb_true_iff, N.eqb_neq in Hu. now apply Hu.
    + exact Hrs.
    + apply forallb_forall. intros q Hq.
      rewrite Forall_forall in Hr. specialize (Hr q Hq).
      rewrite (stable_not_capital q Hr). simpl.
      apply in_map_iff in Hq. destruct Hq as (p & <- & _). unfold r.
      now destruct (N.eqb_spec p 95) as [->|Hne];
        [|apply negb_true_iff, N.eqb_neq].
  - rewrite decode_encode by exact Hrs.
    rewrite (lower_fixed _ Hr). f_equal.
    rewrite map_map. apply map_ext. intros p. unfold r.
    now destruct (N.eqb_spec p 95) as [->|Hne];
      [|destruct (N.eqb_spec p 95)].
  - intros Hascii. unfold L, r. rewrite <- secretName_points.
    rewrite (secretName_ascii key Hascii).
    split; [reflexivity | apply map_chars_length].
  - vm_compute. reflexivity.
Qed.

(** ** normalizeAzureLocation and createJob *)

(** The normalized form of a non-empty location, as characters. *)
Lemma normalized_location (l : string) :
  JsString.remove_spaces (JsString.toLowerCase l)
  = Utf8.encode
      (filter (fun p => negb (Unicode.white_space p))
              (Unicode.lower false (Utf8.decode l))).
Proof.
  unfold JsString.remove_spaces, JsString.toLowerCase.
  now rewrite decode_encode by apply lower_scalar, decode_scalar.
Qed.

Lemma ascii_space_is_white_space (p : N) :
  (p < 0x80)%N ->
  Unicode.white_space p = false ->
  JsString.is_space (Utf8.byte p) = false.
Proof.
  intros Hp Hw. unfold JsString.is_space.
  fold (Utf8.code (Utf8.byte p)). rewrite code_byte by lia.
  unfold Unicode.white_space in Hw.
  repeat (apply orb_false_iff in Hw; destruct Hw as [Hw ?]).
  apply orb_false_iff. now split.
Qed.

Lemma remove_spaces_lower_chars (s : string) :
  Chars.all Chars.location_char
            (JsString.remove_spaces (JsString.toLowerCase s)) = true.
Proof.
  rewrite normalized_location.
  pose proof (lower_stable (Utf8.decode s) false) as Hst.
  pose proof (lower_scalar (Utf8.decode s) false (decode_scalar s))
    as Hsc.
  apply (encode_bytes _ (fun q => Points.not_capital q
                                  && negb (Unicode.white_space q))).
  - apply high_byte_location_char.
  - intros p Hp Hq. apply andb_true_iff in Hq. destruct Hq as [Hc Hw].
    apply negb_true_iff in Hw.
    unfold Chars.location_char.
    rewrite (ascii_space_is_white_space p Hp Hw).
    unfold JsString.is_upper. fold (Utf8.code (Utf8.byte p)).
    rewrite code_byte by lia. unfold Points.not_capital in Hc.
    now rewrite Hc.
  - now apply filter_Forall.
  - apply forallb_forall. intros q Hq. apply filter_In in Hq.
    destruct Hq as [Hin Hw]. rewrite Hw, andb_true_r.
    rewrite Forall_forall in Hst. now apply stable_not_capital, Hst.
Qed.

Lemma normalizeAzureLocation_chars (location : option string) :
  Chars.all Chars.location_char (Utils.normalizeAzureLocation location)
  = true.
Proof.
  unfold Utils.normalizeAzureLocation.
  destruct location as [l|]; [|reflexivity].
  destruct (JsString.truthy l); simpl; [|reflexivity].
  apply remove_spaces_lower_chars.
Qed.

(** X5: the normalized location contains no upper-case letter and no
    whitespace; it is empty exactly when the location given is a non-empty
    string of whitespace only (an absent or empty one gives the default);
    and normalizing a non-empty result again changes nothing. *)
Theorem X5_normalizeAzureLocation_normal_form (location : option string) :
  Chars.all Chars.location_char (Utils.normalizeAzureLocation location)
  = true
  /\ (Utils.normalizeAzureLocation location = ""
      <-> exists l, location = Some l /\ l <> "" /\ Chars.blank l = true)
  /\ (Utils.normalizeAzureLocation location <> "" ->
      Utils.normalizeAzureLocation
        (Some (Utils.normalizeAzureLocation location))
      = Utils.normalizeAzureLocation location).
Proof.
  split; [apply normalizeAzureLocation_chars|]. split.
  - unfold Utils.normalizeAzureLocation. destruct location as [l|].
    + destruct (JsString.truthy l) eqn:T; simpl.
      * rewrite normalized_location, encode_empty_iff, filter_empty_iff.
        rewrite lower_white_space. fold (Chars.blank l).
        apply truthy_string_iff in T. split.
        -- intros B. now exists l.
        -- intros (l' & E & _ & B). now injection E as <-.
      * split; [discriminate|]. intros (l' & E & Hne & _).
        injection E as <-. apply truthy_string_iff in Hne. congruence.
    + split; [discriminate|]. intros (l' & E & _). discriminate E.
  - intros Hne.
    assert (Hdefault : Utils.normalizeAzureLocation (Some "eastus")
                       = "eastus") by (vm_compute; reflexivity).
    unfold Utils.normalizeAzureLocation at 2 3.
    unfold Utils.normalizeAzureLocation at 1 in Hne.
    destruct location as [l|]; [|exact Hdefault].
    destruct (JsString.truthy l); cbn [negb] in *; [|exact Hdefault].
    rewrite normalized_location in *.
    set (F := filter (fun p => negb (Unicode.white_space p))
                     (Unicode.lower false (Utf8.decode l))) in *.
    assert (Hsc : Forall Points.scalar F)
      by (apply filter_Forall, lower_scalar, decode_scalar).
    assert (Hst : Forall (fun q => Points.stable q = true) F)
      by (apply filter_Forall, lower_stable).
    unfold Utils.normalizeAzureLocation.
    apply truthy_string_iff in Hne. rewrite Hne. cbn [negb].
    rewrite normalized_location, decode_encode by exact Hsc.
    rewrite (lower_fixed _ Hst). unfold F. now rewrite filter_fixed.
Qed.

Lemma resolved_location_chars (w : World) :
  JobFacts.resolved_location w <> ""
  /\ Chars.all Chars.location_char (JobFacts.resolved_location w) = true.
Proof.
  unfold JobFacts.resolved_location, JsString.or_else.
  destruct (managedEnvironments_get w) as [l|e];
    [|split; [discriminate | reflexivity]].
  destruct (JsString.truthy (Utils.normalizeAzureLocation l)) eqn:T.
  - split; [now apply truthy_string_iff|].
    apply normalizeAzureLocation_chars.
  - split; [discriminate | reflexivity].
Qed.

(** X6: [createJob] always reads the environment first, and a failure of
    that read is never fatal.  The location it assembles the document with
    is never empty and has no upper-case letter or whitespace.  If the
    assembler throws (a [null] mapping), that error is thrown and nothing
    is submitted; otherwise exactly that document is submitted under the
    given name, and [createJob] returns, or throws an error whose message
    is ["Failed to create job: "] followed by the provider's. *)
Theorem X6_createJob_outcomes (w : World) (client : Client)
    (resourceGroup environmentName jobName : string)
    (config : Config.JobOptions) :
  let run := Job.createJob w client resourceGroup environmentName jobName
                           config in
  let location := JobFacts.resolved_location w in
  location <> ""
  /\ Chars.all Chars.location_char location = true
  /\ match Config.buildJobConfig (client_subscriptionId client)
             resourceGroup environmentName location config with
     | Throw error =>
         snd run = Raised error
         /\ Main.remote_calls (fst run)
            = [ManagedEnvironmentsGet resourceGroup environmentName]
     | Ok jobConfig =>
         Main.remote_calls (fst run)
         = [ManagedEnvironmentsGet resourceGroup environmentName;
            JobsCreateOrUpdate resourceGroup jobName jobConfig]
         /\ snd run
            = match jobs_beginCreateOrUpdateAndWait w with
              | Ok _ => Done tt
              | Throw error =>
                  Raised (mkError ("Failed to create job: "
                                   ++ message error))
              end
     end.
Proof.
  cbv zeta. destruct (resolved_location_chars w) as [Hne Hchars].
  split; [exact Hne|]. split; [exact Hchars|].
  unfold Job.createJob, JobFacts.resolved_location.
  destruct (managedEnvironments_get w) as [l|e];
    cbv beta iota delta [Eff.bind Eff.emit Eff.ret];
    (destruct (Config.buildJobConfig _ _ _ _ _) as [doc|err];
     [destruct (jobs_beginCreateOrUpdateAndWait w) as [u|err]|]);
    split; reflexivity.
Qed.

(** ** More on the config assembler *)

(** X7: every reference inside an assembled document resolves.  Each
    secret-referencing environment entry names a secret of the secrets
    list, and each key-vault secret is referenced by such an entry; the
    registry descriptor, when present, names a secret of the list; and
    when the document has an identity block, it is of type UserAssigned
    and holds exactly the identity that every key-vault secret carries. *)
Theorem X7_document_references_resolve
    (sub rg en loc : string) (o : Config.JobOptions) (doc : Config.JobConfig) :
  Config.buildJobConfig sub rg en loc o = Ok doc ->
  (forall name ref,
     In (Config.EnvSecretRef name ref) (Doc.env doc) ->
     In ref (Doc.secret_names doc))
  /\ (forall name url identity,
        In (Config.SecretKeyVault name url identity) (Doc.secrets doc) ->
        identity = Config.userManagedIdentity o
        /\ exists key, In (Config.EnvSecretRef key name) (Doc.env doc))
  /\ (forall r,
        In r (Doc.registries doc) ->
        In (Config.passwordSecretRef r) (Doc.secret_names doc))
  /\ (forall i,
        Config.identity doc = Some i ->
        Config.id_type i = "UserAssigned"
        /\ Config.userAssignedIdentities i = [Config.userManagedIdentity o])
  /\ (Config.identity doc <> None <-> Config.userManagedIdentity o <> "").
Proof.
  intros Hb.
  destruct (buildJobConfig_entries _ _ _ _ _ _ Hb) as (ee & se & He & Hs).
  destruct (buildJobConfig_inv _ _ _ _ _ _ _ Hs Hb)
    as (ee' & _ & Hsec & Henv & Hreg).
  split; [|split; [|split]].
  - intros name ref Hin. rewrite Henv in Hin. apply in_app_or in Hin.
    destruct Hin as [Hin|Hin]; apply in_map_iff in Hin;
      destruct Hin as ([k v] & Heq & Hkv); [discriminate Heq|].
    simpl in Heq. injection Heq as <- <-.
    unfold Doc.secret_names. rewrite Hsec, map_app. apply in_or_app. left.
    rewrite map_map. apply in_map_iff. now exists (k, v).
  - intros name url identity Hin. rewrite Hsec in Hin.
    apply in_app_or in Hin. destruct Hin as [Hin|Hin].
    + apply in_map_iff in Hin. destruct Hin as ([k v] & Heq & Hkv).
      simpl in Heq. injection Heq as <- <- <-.
      split; [reflexivity|]. exists k. rewrite Henv.
      apply in_or_app. right. apply in_map_iff. now exists (k, v).
    + destruct (Config.registry_complete o); simpl in Hin;
        [destruct Hin as [Heq|[]]; discriminate Heq | contradiction].
  - intros r Hin. rewrite Hreg in Hin.
    destruct (Config.registry_complete o) eqn:Hc; [|contradiction].
    destruct Hin as [<-|[]]. simpl.
    unfold Doc.secret_names. rewrite Hsec, map_app. apply in_or_app.
    right. now left.
  - unfold Config.buildJobConfig in Hb. rewrite He, Hs in Hb.
    injection Hb as <-. simpl.
    destruct (JsString.truthy (Config.userManagedIdentity o)) eqn:T.
    + split.
      * intros i Hi. injection Hi as <-. now split.
      * apply truthy_string_iff in T. split; [now intros | discriminate].
    + split; [discriminate|].
      split; [intros H; now elim H|].
      intros Hne. apply truthy_string_iff in Hne. congruence.
Qed.

Lemma X7_document_references_resolve_witness :
  exists doc,
    Sample.build (Sample.options (JObj Sample.mixed_secrets)
                                 "ghcr.io" "octocat" "s3cret") = Ok doc
    /\ In "api-key" (Doc.secret_names doc)
    /\ In "registry-password" (Doc.secret_names doc).
Proof.
  eexists. split; [reflexivity|].
  destruct (X7_document_references_resolve
              "sub" "rg" "env" "eastus"
              (Sample.options (JObj Sample.mixed_secrets)
                              "ghcr.io" "octocat" "s3cret") _ eq_refl)
    as (Henv & _ & Hreg & _).
  split.
  - apply (Henv "API_KEY"). simpl. now left.
  - apply (Hreg (Config.mkRegistry "ghcr.io" "octocat" "registry-password")).
    simpl. now left.
Defined.

(** X8: the assembler throws exactly when the environment-variables or
    the secrets value is [null], and then with the error of
    [Object.entries]; for every other parsed JSON value it returns a
    document. *)
Theorem X8_buildJobConfig_throws_iff_null
    (sub rg en loc : string) (o : Config.JobOptions) :
  ((exists error, Config.buildJobConfig sub rg en loc o = Throw error)
   <-> Config.environmentVariables o = JNull \/ Config.secrets o = JNull)
  /\ (forall error,
        Config.buildJobConfig sub rg en loc o = Throw error ->
        message error = "Cannot convert undefined or null to object").
Proof.
  unfold Config.buildJobConfig. split.
  - split.
    + intros (error & H).
      destruct (Config.environmentVariables o); simpl in H;
        try (now left);
        destruct (Config.secrets o); simpl in H;
          try (now right); discriminate H.
    + intros [H|H].
      * rewrite H. simpl. eexists. reflexivity.
      * rewrite H.
        destruct (Js.Object_entries (Config.environmentVariables o));
          simpl; eexists; reflexivity.
  - intros error H.
    destruct (Config.environmentVariables o); simpl in H;
      try (injection H as <-; reflexivity);
      destruct (Config.secrets o); simpl in H;
        try (injection H as <-; reflexivity); discriminate H.
Qed.

(** X9: the trigger of an assembled document is decided by the cron
    schedule alone: a non-empty schedule gives trigger type Schedule with
    that expression, an empty one gives Manual; both carry parallelism 1
    and completion count 1, and the replica timeout 1800 and retry limit 0
    are the same for every input. *)
Theorem X9_trigger_follows_cron
    (sub rg en loc : string) (o : Config.JobOptions) (doc : Config.JobConfig) :
  Config.buildJobConfig sub rg en loc o = Ok doc ->
  Config.replicaTimeout (Config.configuration doc) = 1800%Z
  /\ Config.replicaRetryLimit (Config.configuration doc) = 0%Z
  /\ (Config.cronSchedule o <> "" ->
      Config.triggerType (Config.configuration doc) = "Schedule"
      /\ Config.triggerConfig (Config.configuration doc)
         = Config.ScheduleTriggerConfig (Config.cronSchedule o) 1 1)
  /\ (Config.cronSchedule o = "" ->
      Config.triggerType (Config.configuration doc) = "Manual"
      /\ Config.triggerConfig (Config.configuration doc)
         = Config.ManualTriggerConfig 1 1).
Proof.
  intros Hb.
  destruct (buildJobConfig_entries _ _ _ _ _ _ Hb) as (ee & se & He & Hs).
  unfold Config.buildJobConfig in Hb. rewrite He, Hs in Hb.
  injection Hb as <-. simpl.
  split; [reflexivity|]. split; [reflexivity|]. split.
  - intros Hne. apply truthy_string_iff in Hne. rewrite Hne. now split.
  - intros ->. now split.
Qed.

Lemma X9_trigger_follows_cron_witness :
  exists doc,
    Config.buildJobConfig "sub" "rg" "env" "eastus"
      (Config.mkJobOptions "img" None "" (JObj []) (JObj []) "0.5" "1Gi"
                           "" "" "" "0 2 * * *") = Ok doc
    /\ Config.triggerConfig (Config.configuration doc)
       = Config.ScheduleTriggerConfig "0 2 * * *" 1 1.
Proof.
  eexists. split; [reflexivity|].
  destruct (X9_trigger_follows_cron
              "sub" "rg" "env" "eastus"
              (Config.mkJobOptions "img" None "" (JObj []) (JObj []) "0.5"
                                   "1Gi" "" "" "" "0 2 * * *") _ eq_refl)
    as (_ & _ & Hcron & _).
  apply Hcron. discriminate.
Defined.

(** ** generateJobName *)

Lemma code_ascii_of_N (n : N) : (n < 256)%N -> JsString.code (ascii_of_N n) = n.
Proof. intros H. unfold JsString.code. now apply N_ascii_embedding. Qed.

Lemma base36_digit_char (d : N) :
  (d < 36)%N -> Chars.base36_char (Utils.base36_digit d) = true.
Proof.
  intros H. unfold Utils.base36_digit, Chars.base36_char,
    JsString.is_digit, JsString.is_lower.
  destruct (N.ltb_spec d 10).
  - rewrite code_ascii_of_N by lia. apply orb_true_iff. left.
    apply andb_true_iff. split; apply N.leb_le; lia.
  - rewrite code_ascii_of_N by lia. apply orb_true_iff. right.
    apply andb_true_iff. split; apply N.leb_le; lia.
Qed.

Lemma fraction_digits36_chars (fuel : nat) :
  forall num den,
    (num < den)%N ->
    Chars.all Chars.base36_char (Utils.fraction_digits36 fuel num den)
    = true.
Proof.
  induction fuel as [|fuel IH]; intros num den H;
    cbn [Utils.fraction_digits36]; [reflexivity|].
  destruct (num =? 0)%N; [reflexivity|]. cbn [Chars.all].
  rewrite base36_digit_char, IH; [reflexivity | |].
  - apply N.mod_lt. lia.
  - apply N.Div0.div_lt_upper_bound. lia.
Qed.

Lemma all_substring (p : ascii -> bool) (s : string) :
  forall n m,
    Chars.all p s = true -> Chars.all p (String.substring n m s) = true.
Proof.
  induction s as [|c r IH]; intros n m H.
  - destruct n, m; reflexivity.
  - simpl in H. apply andb_true_iff in H. destruct H as [Hc Hr].
    destruct n as [|n]; [destruct m as [|m]|]; simpl;
      [reflexivity | | now apply IH].
    rewrite Hc. now apply IH.
Qed.

(** X10: for every outcome [0 <= x < 1] of the random source, the
    generated name is the prefix, a hyphen, the timestamp in decimal, a
    hyphen, and a suffix of at most six characters, each a digit or a
    lower-case letter. *)
Theorem X10_generateJobName_suffix (prefix : string) (timestamp : Z)
    (r : UnitDouble) :
  (numerator r < 2 ^ log2_den r)%N ->
  exists suffix : string,
    Utils.generateJobName prefix timestamp r
    = (prefix ++ "-" ++ JsString.of_Z timestamp ++ "-" ++ suffix)%string
    /\ String.length suffix <= 6
    /\ Chars.all Chars.base36_char suffix = true.
Proof.
  intros H. eexists. split; [reflexivity|].
  split; [apply substring_length|].
  unfold Utils.Number_toString36, JsString.substring.
  destruct (numerator r =? 0)%N; [reflexivity|].
  cbn [append String.substring Nat.sub].
  apply all_substring, fraction_digits36_chars, H.
Qed.

Lemma X10_generateJobName_suffix_witness :
  exists suffix : string,
    Utils.generateJobName "gh-job" 1700000000000
                          (mkUnitDouble 4503599627370497 53)
    = ("gh-job-1700000000000-" ++ suffix)%string
    /\ String.length suffix <= 6
    /\ Chars.all Chars.base36_char suffix = true.
Proof.
  destruct (X10_generateJobName_suffix
              "gh-job" 1700000000000 (mkUnitDouble 4503599627370497 53))
    as (suffix & Heq & Hlen & Hchars).
  - vm_compute. reflexivity.
  - exists suffix. split; [exact Heq | now split].
Defined.

(** ** Which errors a computation can throw, and whether it ends *)

Lemma Raises_bind {A B : Type} (Q : JsError -> Prop) (c : M A)
    (k : A -> M B) :
  Raises Q c -> (forall a, Raises Q (k a)) -> Raises Q (Eff.bind c k).
Proof.
  unfold Raises. rewrite bind_cases. intros Hc Hk e.
  destruct c as [tr [a|err|]]; simpl in *.
  - apply Hk.
  - intros H. apply Hc. injection H as <-. reflexivity.
  - discriminate.
Qed.

Lemma Raises_done {A : Type} (Q : JsError -> Prop) (tr : list Event)
    (a : A) :
  Raises Q (tr, Done a).
Proof. intros e H. discriminate H. Qed.

Lemma Raises_throw {A : Type} (Q : JsError -> Prop) (e : JsError) :
  Q e -> Raises Q (@Eff.throw A e).
Proof. intros H e' E. simpl in E. now injection E as <-. Qed.

Lemma Raises_try_catch {A : Type} (Q : JsError -> Prop) (c : M A)
    (h : JsError -> M A) :
  (forall e, Raises Q (h e)) -> Raises Q (Eff.try_catch c h).
Proof.
  unfold Raises. rewrite try_catch_cases. intros Hh e.
  destruct c as [tr [a|err|]]; simpl; try discriminate.
  apply Hh.
Qed.

Lemma Raises_weaken {A : Type} (Q Q' : JsError -> Prop) (c : M A) :
  (forall e, Q e -> Q' e) -> Raises Q c -> Raises Q' c.
Proof. intros H Hc e E. apply H, Hc, E. Qed.

Lemma Ends_bind {A B : Type} (c : M A) (k : A -> M B) :
  Ends c -> (forall a, Ends (k a)) -> Ends (Eff.bind c k).
Proof.
  unfold Ends. rewrite bind_cases. intros Hc Hk.
  destruct c as [tr [a|err|]]; simpl in *;
    [apply Hk | discriminate | now elim Hc].
Qed.

Lemma Ends_try_catch {A : Type} (c : M A) (h : JsError -> M A) :
  Ends c -> (forall e, Ends (h e)) -> Ends (Eff.try_catch c h).
Proof.
  unfold Ends. rewrite try_catch_cases. intros Hc Hh.
  destruct c as [tr [a|err|]]; simpl in *;
    [discriminate | apply Hh | now elim Hc].
Qed.

(** ** getInput, parseJsonInput and getInputs *)

Lemma or_else_truthy (a b : string) :
  JsString.truthy (JsString.or_else a b) = JsString.truthy a
                                          || JsString.truthy b.
Proof. unfold JsString.or_else. now destruct (JsString.truthy a) eqn:E. Qed.

(** [getInput] in one equation: the value is the one of [core.getInput],
    else the one of the environment; a throwing [core.getInput] leaves a
    debug line; the only error is the missing required input. *)
Lemma getInput_cases (w : World) (name : string) (required : bool) :
  Input.getInput w name required
  = (match core_getInput w name with
     | Ok _ => []
     | Throw error =>
         [Debug ("core.getInput failed for " ++ name ++ ": "
                 ++ message error)]
     end,
     if required && negb (JsString.truthy (InputFacts.value w name))
     then Raised (InputFacts.missing name)
     else Done (InputFacts.value w name)).
Proof.
  unfold Input.getInput, InputFacts.value, InputFacts.core_value,
    InputFacts.env_value, InputFacts.env_name, InputFacts.missing.
  destruct (core_getInput w name) as [[|c r]|error];
    destruct (process_env w _) as [[|c' r']|];
    destruct required; reflexivity.
Qed.

(** X11: the value [getInput] returns is the one of [core.getInput] when
    that is non-empty, else the one of the environment variable
    [INPUT_<NAME>]; it throws exactly when the input is required and both
    are empty, with a message that names the input; an error thrown by
    [core.getInput] itself is never fatal. *)
Theorem X11_getInput_resolution (w : World) (name : string)
    (required : bool) :
  (forall v, snd (Input.getInput w name required) = Done v ->
             v = InputFacts.value w name
             /\ (required = true -> v <> ""))
  /\ (forall e, snd (Input.getInput w name required) = Raised e
                <-> required = true
                    /\ InputFacts.core_value w name = ""
                    /\ InputFacts.env_value w name = ""
                    /\ e = InputFacts.missing name)
  /\ snd (Input.getInput w name required) <> OutOfFuel
  /\ (InputFacts.core_value w name <> "" ->
      InputFacts.value w name = InputFacts.core_value w name)
  /\ (InputFacts.core_value w name = "" ->
      InputFacts.value w name = InputFacts.env_value w name).
Proof.
  rewrite getInput_cases. cbn [snd].
  assert (Hempty : JsString.truthy (InputFacts.value w name) = false
                   <-> InputFacts.core_value w name = ""
                       /\ InputFacts.env_value w name = "").
  { unfold InputFacts.value. rewrite or_else_truthy, orb_false_iff.
    split; intros [H1 H2]; split;
      try (destruct (String.eqb_spec (InputFacts.core_value w name) "");
           [assumption | apply truthy_string_iff in n; congruence]);
      try (destruct (String.eqb_spec (InputFacts.env_value w name) "");
           [assumption | apply truthy_string_iff in n; congruence]);
      [rewrite H1 | rewrite H2]; reflexivity. }
  split; [|split; [|split; [|split]]].
  - intros v H.
    destruct required;
      destruct (JsString.truthy (InputFacts.value w name)) eqn:T;
      simpl in H; try discriminate H; injection H as <-;
      (split; [reflexivity|]); try discriminate.
    intros _. now apply truthy_string_iff.
  - intros e. split.
    + intros H.
      destruct required;
        destruct (JsString.truthy (InputFacts.value w name)) eqn:T;
        simpl in H; try discriminate H. injection H as <-.
      destruct (proj1 Hempty eq_refl) as [Hc He]. tauto.
    + intros (-> & Hc & He & ->).
      rewrite (proj2 Hempty (conj Hc He)). reflexivity.
  - destruct (required
              && negb (JsString.truthy (InputFacts.value w name)));
      discriminate.
  - intros Hne. unfold InputFacts.value, JsString.or_else.
    apply truthy_string_iff in Hne. now rewrite Hne.
  - intros He. unfold InputFacts.value, JsString.or_else.
    now rewrite He.
Qed.

Lemma blank_test (s : string) :
  negb (JsString.truthy s) || (JsString.trim s =? "") = Chars.blank s.
Proof.
  destruct (Chars.blank s) eqn:B.
  - apply trim_empty_iff in B. rewrite B. apply orb_true_r.
  - rewrite (blank_false_nonempty s B). simpl.
    destruct (String.eqb_spec (JsString.trim s) "") as [E|E];
      [|reflexivity].
    apply trim_empty_iff in E. congruence.
Qed.

Lemma getInput_Done (w : World) (name : string) (required : bool)
    (tr : list Event) (v : string) :
  Input.getInput w name required = (tr, Done v) ->
  v = InputFacts.value w name.
Proof.
  rewrite getInput_cases. intros H.
  destruct (required && negb (JsString.truthy (InputFacts.value w name)));
    now injection H.
Qed.

Lemma parseJsonInput_cases (w : World) (name : string) :
  snd (Input.parseJsonInput w name)
  = if Chars.blank (InputFacts.value w name) then Done (JObj [])
    else match JSON_parse w (InputFacts.value w name) with
         | Ok v => Done v
         | Throw error =>
             Raised (mkError ("Failed to parse " ++ name ++ ": "
                              ++ message error))
         end.
Proof.
  unfold Input.parseJsonInput. rewrite getInput_cases.
  cbn [andb]. rewrite bind_done. cbn [snd]. rewrite blank_test.
  destruct (Chars.blank (InputFacts.value w name)); [reflexivity|].
  now destruct (JSON_parse w (InputFacts.value w name)).
Qed.

(** X12: [parseJsonInput] answers the empty object for an input that is
    absent, empty or all whitespace, without consulting [JSON.parse]; for
    any other text it answers what [JSON.parse] answers, and throws
    exactly when [JSON.parse] does, with the message
    ["Failed to parse <name>: "] followed by the parser's. *)
Theorem X12_parseJsonInput_outcomes (w : World) (name : string) :
  let text := InputFacts.value w name in
  (Chars.blank text = true ->
   snd (Input.parseJsonInput w name) = Done (JObj []))
  /\ (forall v, Chars.blank text = false ->
                JSON_parse w text = Ok v ->
                snd (Input.parseJsonInput w name) = Done v)
  /\ (forall e, snd (Input.parseJsonInput w name) = Raised e
                <-> Chars.blank text = false
                    /\ exists error,
                         JSON_parse w text = Throw error
                         /\ e = mkError ("Failed to parse " ++ name ++ ": "
                                         ++ message error)).
Proof.
  cbv zeta. rewrite parseJsonInput_cases.
  split; [|split].
  - now intros ->.
  - now intros v -> ->.
  - intros e. destruct (Chars.blank (InputFacts.value w name)).
    + split; [discriminate | intros [H _]; discriminate H].
    + destruct (JSON_parse w (InputFacts.value w name)) as [v|error].
      * split; [discriminate|]. intros (_ & error & H & _). discriminate H.
      * split.
        -- intros H. injection H as <-. split; [reflexivity|].
           now exists error.
        -- intros (_ & error' & H & ->). now injection H as <-.
Qed.

(** Peels the first [bind] off a computation known to return. *)
Ltac input_step H v E :=
  apply bind_Done_inv in H;
  let t := fresh "t" in
  let r := fresh "r" in
  destruct H as (t & v & r & E & H & _);
  cbv zeta in H.

(** Each field of the inputs object comes from the input of its name. *)
Lemma getInputs_fields (w : World) (tr : list Event)
    (inputs : Input.Inputs) :
  Input.getInputs w = (tr, Done inputs) ->
  let value := InputFacts.value w in
  inputs
  = Input.mkInputs
      (value "subscription-id") (value "resource-group")
      (value "environment-name") (value "job-name") (value "image")
      (Utils.parseCommand (value "command"))
      (value "user-managed-identity") (value "cron-schedule")
      (JsString.or_else (value "cpu") "0.5")
      (JsString.or_else (value "memory") "1Gi")
      (JsString.parseInt10 (JsString.or_else (value "timeout") "1800"))
      (value "registry-server") (value "registry-username")
      (value "registry-password")
      (Input.is_true (value "dry-run"))
      (value "log-analytics-workspace-id")
      (Input.is_true (value "manual-execution"))
      (Input.is_true (value "only-delete-job"))
      (Input.environmentVariables inputs) (Input.secrets inputs)
  /\ snd (Input.parseJsonInput w "environment-variables")
     = Done (Input.environmentVariables inputs)
  /\ snd (Input.parseJsonInput w "secrets") = Done (Input.secrets inputs).
Proof.
  unfold Input.getInputs. intros H.
  input_step H v1 E1. input_step H v2 E2. input_step H v3 E3.
  input_step H v4 E4. input_step H v5 E5. input_step H v6 E6.
  input_step H v7 E7. input_step H v8 E8. input_step H v9 E9.
  input_step H v10 E10. input_step H v11 E11. input_step H v12 E12.
  input_step H v13 E13. input_step H v14 E14. input_step H v15 E15.
  input_step H v16 E16. input_step H v17 E17. input_step H v18 E18.
  input_step H j1 J1. input_step H j2 J2.
  apply getInput_Done in E1, E2, E3, E4, E5, E6, E7, E8, E9, E10, E11,
    E12, E13, E14, E15, E16, E17, E18.
  subst. injection H as _ <-. cbn [Input.environmentVariables Input.secrets].
  rewrite J1, J2. repeat split.
Qed.

Lemma Raises_getInput (Q : JsError -> Prop) (w : World) (name : string)
    (required : bool) :
  (required = true -> Q (InputFacts.missing name)) ->
  Raises Q (Input.getInput w name required).
Proof.
  intros HQ e. rewrite getInput_cases. cbn [snd].
  destruct required; cbn [andb].
  - destruct (negb (JsString.truthy (InputFacts.value w name)));
      [|discriminate].
    intros H. injection H as <-. now apply HQ.
  - discriminate.
Qed.

Lemma Raises_parseJsonInput (Q : JsError -> Prop) (w : World)
    (name : string) :
  (forall text, Q (mkError ("Failed to parse " ++ name ++ ": " ++ text))) ->
  Raises Q (Input.parseJsonInput w name).
Proof.
  intros HQ e. rewrite parseJsonInput_cases.
  destruct (Chars.blank (InputFacts.value w name)); [discriminate|].
  destruct (JSON_parse w (InputFacts.value w name)) as [v|error];
    [discriminate|].
  intros H. injection H as <-. apply HQ.
Qed.

Lemma Ends_getInput (w : World) (name : string) (required : bool) :
  Ends (Input.getInput w name required).
Proof.
  unfold Ends. rewrite getInput_cases. cbn [snd].
  destruct (required && negb (JsString.truthy (InputFacts.value w name)));
    discriminate.
Qed.

Lemma Ends_parseJsonInput (w : World) (name : string) :
  Ends (Input.parseJsonInput w name).
Proof.
  unfold Ends. rewrite parseJsonInput_cases.
  destruct (Chars.blank (InputFacts.value w name)); [discriminate|].
  destruct (JSON_parse w (InputFacts.value w name)); discriminate.
Qed.

Lemma Raises_getInputs (w : World) : Raises input_error (Input.getInputs w).
Proof.
  unfold Input.getInputs.
  repeat first
    [ apply Raises_bind;
      [ first [ apply Raises_getInput; intros _; unfold input_error; tauto
              | apply Raises_getInput; discriminate
              | apply Raises_parseJsonInput; intros text;
                unfold input_error;
                first [ do 3 right; left; now exists text
                      | do 4 right; now exists text ] ]
      | intros ? ]
    | apply Raises_done
    | progress cbv zeta ].
Qed.

Lemma Ends_getInputs (w : World) : Ends (Input.getInputs w).
Proof.
  unfold Input.getInputs.
  repeat first
    [ apply Ends_bind;
      [ first [apply Ends_getInput | apply Ends_parseJsonInput] | intros ? ]
    | discriminate
    | progress cbv zeta ].
Qed.

(** X13: [getInputs] either returns or throws.  It throws only for a
    missing subscription-id, resource-group or environment-name, or for
    environment-variables or secrets text that [JSON.parse] rejects; a
    missing subscription-id is reported whatever else is wrong.  In the
    object it returns the three required inputs are non-empty, cpu and
    memory are never empty (["0.5"] and ["1Gi"] when not given), the
    timeout is 1800 when not given, and the command is either absent or a
    non-empty array of non-empty strings without whitespace. *)
Theorem X13_getInputs_outcomes (w : World) :
  snd (Input.getInputs w) <> OutOfFuel
  /\ (forall e, snd (Input.getInputs w) = Raised e -> input_error e)
  /\ (InputFacts.value w "subscription-id" = "" ->
      snd (Input.getInputs w)
      = Raised (InputFacts.missing "subscription-id"))
  /\ (forall inputs,
        snd (Input.getInputs w) = Done inputs ->
        Input.subscriptionId inputs <> ""
        /\ Input.resourceGroup inputs <> ""
        /\ Input.environmentName inputs <> ""
        /\ Input.cpu inputs <> ""
        /\ Input.memory inputs <> ""
        /\ (InputFacts.value w "cpu" = "" -> Input.cpu inputs = "0.5")
        /\ (InputFacts.value w "memory" = "" -> Input.memory inputs = "1Gi")
        /\ (InputFacts.value w "timeout" = "" ->
            Input.timeout inputs = Some 1800%Z)
        /\ (forall tokens,
              Input.command inputs = Some tokens ->
              tokens <> []
              /\ Forall (fun t => Chars.token t = true) tokens)).
Proof.
  split; [apply Ends_getInputs|]. split; [apply Raises_getInputs|]. split.
  - intros Hsub. unfold Input.getInputs. rewrite bind_cases, getInput_cases.
    cbn [snd]. rewrite Hsub. reflexivity.
  - intros inputs Hdone.
    destruct (Input.getInputs w) as [tr out] eqn:Hrun. cbn [snd] in Hdone.
    subst out.
    destruct (getInputs_required w tr inputs Hrun) as (Hs & Hr & He).
    destruct (getInputs_fields w tr inputs Hrun) as (Hf & _).
    cbv zeta in Hf.
    assert (Hcpu : Input.cpu inputs
                   = JsString.or_else (InputFacts.value w "cpu") "0.5")
      by (rewrite Hf; reflexivity).
    assert (Hmem : Input.memory inputs
                   = JsString.or_else (InputFacts.value w "memory") "1Gi")
      by (rewrite Hf; reflexivity).
    assert (Htime : Input.timeout inputs
                    = JsString.parseInt10
                        (JsString.or_else (InputFacts.value w "timeout")
                                          "1800"))
      by (rewrite Hf; reflexivity).
    assert (Hcmd : Input.command inputs
                   = Utils.parseCommand (InputFacts.value w "command"))
      by (rewrite Hf; reflexivity).
    repeat split; try (now apply truthy_string_iff).
    + apply truthy_string_iff. rewrite Hcpu, or_else_truthy.
      apply orb_true_r.
    + apply truthy_string_iff. rewrite Hmem, or_else_truthy.
      apply orb_true_r.
    + intros E. rewrite Hcpu, E. reflexivity.
    + intros E. rewrite Hmem, E. reflexivity.
    + intros E. rewrite Htime, E. reflexivity.
    + rewrite Hcmd in H. now apply parseCommand_tokens in H.
    + rewrite Hcmd in H. now apply parseCommand_tokens in H.
Qed.

(** ** More on the polling loop *)

Lemma count_app (p : Event -> bool) (a b : list Event) :
  JobFacts.count p (a ++ b) = JobFacts.count p a + JobFacts.count p b.
Proof. unfold JobFacts.count. now rewrite filter_app, length_app. Qed.

Lemma count_cons (p : Event -> bool) (e : Event) (l : list Event) :
  JobFacts.count p (e :: l)
  = (if p e then 1 else 0) + JobFacts.count p l.
Proof. unfold JobFacts.count. simpl. now destruct (p e). Qed.

Lemma report_is_log (w : World) (i : nat) (rg jn : string)
    (en : option string) :
  poll_event rg jn en (Poll.report w i)
  /\ JobFacts.is_status_read (Poll.report w i) = false
  /\ JobFacts.is_sleep (Poll.report w i) = false.
Proof.
  unfold Poll.report.
  destruct (job_execution w i) as [[ex|]|err]; repeat split.
Qed.

(** What the loop leaves from iteration [i] on, by the way it ends: one
    status read per iteration that is not timed out, one sleep after each
    read that does not end the loop. *)
Lemma loop_counts (w : World) (rg jn : string) (en : option string)
    (timeout : option Z) (fuel : nat) :
  forall i tr out,
    Job.poll_loop w rg jn en timeout (poll_start w) fuel i = (tr, out) ->
    Forall (poll_event rg jn en) tr
    /\ match out with
       | Done _ =>
           exists k,
             i <= k < i + fuel
             /\ JobFacts.count JobFacts.is_status_read tr = S (k - i)
             /\ JobFacts.count JobFacts.is_sleep tr = k - i
             /\ forall j, i <= j <= k -> Poll.exceeded_b w timeout j = false
       | Raised _ =>
           exists k,
             i <= k < i + fuel
             /\ JobFacts.count JobFacts.is_status_read tr = k - i
             /\ JobFacts.count JobFacts.is_sleep tr = k - i
             /\ forall j, i <= j < k -> Poll.exceeded_b w timeout j = false
       | OutOfFuel =>
           JobFacts.count JobFacts.is_status_read tr = fuel
           /\ JobFacts.count JobFacts.is_sleep tr = fuel
           /\ forall j, i <= j < i + fuel ->
                        Poll.exceeded_b w timeout j = false
       end.
Proof.
  induction fuel as [|fuel IH]; intros i tr out Hrun.
  - injection Hrun as <- <-.
    split; [constructor | split; [reflexivity | split; [reflexivity|]]].
    intros j Hj. lia.
  - destruct (report_is_log w i rg jn en) as (Hlog & Hnr & Hns).
    destruct (loop_cases w rg jn en timeout fuel i)
      as [(Ht & Heq) | [(Ht & Hn & ex' & Hj & Hs & Heq) | (Ht & Hn & Heq)]];
      rewrite Heq in Hrun; injection Hrun as <- <-.
    + split; [constructor|]. exists i.
      split; [lia|]. rewrite Nat.sub_diag. split; [reflexivity|].
      split; [reflexivity|]. intros j Hj. lia.
    + split; [repeat constructor; exact Hlog|]. exists i.
      split; [lia|]. rewrite Nat.sub_diag.
      unfold JobFacts.count. cbn [filter JobFacts.is_status_read].
      rewrite Hnr. cbn [filter JobFacts.is_sleep]. rewrite Hns.
      split; [reflexivity|]. split; [reflexivity|].
      intros j Hj'. replace j with i by lia. exact Ht.
    + destruct (Job.poll_loop w rg jn en timeout (poll_start w) fuel (S i))
        as [tr' out'] eqn:Hrest.
      destruct (IH (S i) tr' out' Hrest) as [Hev Hcount]. cbn [fst snd].
      split.
      * repeat (constructor; [first [exact Hlog | reflexivity]|]).
        exact Hev.
      * rewrite !count_cons, Hnr, Hns.
        cbn [JobFacts.is_status_read JobFacts.is_sleep Nat.add].
        destruct out' as [ex|e|].
        -- destruct Hcount as (k & Hk & Hr & Hsl & Hto).
           exists k. split; [lia|]. split; [lia|]. split; [lia|].
           intros j Hj'. destruct (Nat.eq_dec j i) as [->|Hne];
             [exact Ht | apply Hto; lia].
        -- destruct Hcount as (k & Hk & Hr & Hsl & Hto).
           exists k. split; [lia|]. split; [lia|]. split; [lia|].
           intros j Hj'. destruct (Nat.eq_dec j i) as [->|Hne];
             [exact Ht | apply Hto; lia].
        -- destruct Hcount as (Hr & Hsl & Hto).
           split; [lia|]. split; [lia|].
           intros j Hj'. destruct (Nat.eq_dec j i) as [->|Hne];
             [exact Ht | apply Hto; lia].
Qed.

(** X14: whatever the provider answers, the polling leaves only log
    lines, status reads of the one execution it was given, and sleeps of
    exactly 10 seconds.  When it returns it has slept once between each
    two consecutive reads (one read more than sleeps); when it times out
    it has slept after every read. *)
Theorem X14_poll_reads_and_sleeps
    (w : World) (client : Client) (resourceGroup jobName : string)
    (executionName : option string) (timeout : option Z) (fuel : nat) :
  let run := Job.pollJobExecution w client resourceGroup jobName
                                  executionName timeout fuel in
  let reads := JobFacts.count JobFacts.is_status_read (fst run) in
  let sleeps := JobFacts.count JobFacts.is_sleep (fst run) in
  Forall (poll_event resourceGroup jobName executionName) (fst run)
  /\ (forall ex, snd run = Done ex -> reads = S sleeps)
  /\ (forall e, snd run = Raised e -> reads = sleeps)
  /\ reads <= fuel.
Proof.
  cbv zeta. rewrite pollJobExecution_loop. cbn [fst snd].
  destruct (Job.poll_loop w resourceGroup jobName executionName timeout
                          (poll_start w) fuel 0) as [tr out] eqn:Hloop.
  destruct (loop_counts w resourceGroup jobName executionName timeout
                        fuel 0 tr out Hloop) as [Hev Hcount].
  cbn [fst snd].
  change (Info ("Polling for job completion (timeout: "
                ++ Job.show_number timeout ++ "s)") :: tr)
    with ([Info ("Polling for job completion (timeout: "
                 ++ Job.show_number timeout ++ "s)")] ++ tr).
  rewrite !count_app.
  change (JobFacts.count JobFacts.is_status_read
            [Info ("Polling for job completion (timeout: "
                   ++ Job.show_number timeout ++ "s)")]) with 0.
  change (JobFacts.count JobFacts.is_sleep
            [Info ("Polling for job completion (timeout: "
                   ++ Job.show_number timeout ++ "s)")]) with 0.
  cbn [Nat.add].
  split; [apply Forall_app; split; [repeat constructor | exact Hev]|].
  destruct out as [ex|e|].
  - destruct Hcount as (k & Hk & Hr & Hs & _).
    split; [intros _ _; lia|]. split; [discriminate | lia].
  - destruct Hcount as (k & Hk & Hr & Hs & _).
    split; [discriminate|]. split; [intros _ _; lia | lia].
  - destruct Hcount as (Hr & Hs & _).
    split; [discriminate|]. split; [discriminate | lia].
Qed.

Lemma not_exceeded_bound (w : World) (t : Z) (j : nat) :
  (poll_start w <= poll_now w 0)%Z ->
  (forall i, (poll_now w i + 10000 <= poll_now w (S i))%Z) ->
  Poll.exceeded_b w (Some t) j = false ->
  (0 <= t)%Z /\ j <= Z.to_nat (t / 10).
Proof.
  intros H0 Hstep Hj.
  pose proof (elapsed_grows w H0 Hstep j) as Hg.
  unfold Job.pollInterval in Hg.
  unfold Poll.exceeded_b, Job.exceeds, Job.timeoutMs in Hj. simpl in Hj.
  apply Z.ltb_ge in Hj.
  assert (Hq : (Z.of_nat j <= t / 10)%Z)
    by (apply Z.div_le_lower_bound; lia).
  split; lia.
Qed.

(** X15: when the clock is not behind its start and every iteration takes
    at least the 10-second interval, a poll with a timeout of [t] seconds
    makes at most [t / 10 + 1] status reads, however long it is left to
    run; with a negative timeout it makes none. *)
Theorem X15_poll_reads_bounded
    (w : World) (client : Client) (resourceGroup jobName : string)
    (executionName : option string) (t : Z) (fuel : nat) :
  (poll_start w <= poll_now w 0)%Z ->
  (forall i, (poll_now w i + 10000 <= poll_now w (S i))%Z) ->
  let reads :=
    JobFacts.count JobFacts.is_status_read
      (fst (Job.pollJobExecution w client resourceGroup jobName
                                 executionName (Some t) fuel)) in
  reads <= Z.to_nat (t / 10) + 1
  /\ ((t < 0)%Z -> reads = 0).
Proof.
  intros H0 Hstep. cbv zeta. rewrite pollJobExecution_loop. cbn [fst].
  destruct (Job.poll_loop w resourceGroup jobName executionName (Some t)
                          (poll_start w) fuel 0) as [tr out] eqn:Hloop.
  destruct (loop_counts w resourceGroup jobName executionName (Some t)
                        fuel 0 tr out Hloop) as [_ Hcount].
  cbn [fst]. rewrite count_cons. cbn [JobFacts.is_status_read Nat.add].
  pose proof (not_exceeded_bound w t) as Hb.
  destruct out as [ex|e|].
  - destruct Hcount as (k & Hk & Hr & _ & Hto).
    destruct (Hb k H0 Hstep (Hto k ltac:(lia))) as [Ht Hkb]. split; lia.
  - destruct Hcount as (k & Hk & Hr & _ & Hto).
    destruct k as [|k]; [split; lia|].
    destruct (Hb k H0 Hstep (Hto k ltac:(lia))) as [Ht Hkb]. split; lia.
  - destruct Hcount as (Hr & _ & Hto).
    destruct fuel as [|fuel]; [split; lia|].
    destruct (Hb fuel H0 Hstep (Hto fuel ltac:(lia))) as [Ht Hkb].
    split; lia.
Qed.

Lemma X15_poll_reads_bounded_witness :
  JobFacts.count JobFacts.is_status_read
    (fst (Job.pollJobExecution
            (SampleWorld.world SampleWorld.required_inputs (Ok tt)
                               (fun _ => Ok (Some SampleWorld.running))
                               (Ok tt))
            (mkClient "sub") "rg" "job-1" (Some "exec-1") (Some 25%Z) 50))
  <= 3.
Proof.
  apply (X15_poll_reads_bounded
           (SampleWorld.world SampleWorld.required_inputs (Ok tt)
                              (fun _ => Ok (Some SampleWorld.running))
                              (Ok tt))
           (mkClient "sub") "rg" "job-1" (Some "exec-1") 25%Z 50).
  - simpl. lia.
  - intros i. simpl. lia.
Defined.

(** X16: a timeout that is not a number never expires: the poll then
    throws nothing, whatever the clock does.  A negative timeout, with a
    clock that is not behind its start, expires at once: the poll throws
    the timeout error before the first status read. *)
Theorem X16_poll_degenerate_timeouts
    (w : World) (client : Client) (resourceGroup jobName : string)
    (executionName : option string) :
  (forall fuel e,
     snd (Job.pollJobExecution w client resourceGroup jobName executionName
                               None fuel) <> Raised e)
  /\ (forall t fuel,
        (t < 0)%Z ->
        (poll_start w <= poll_now w 0)%Z ->
        Job.pollJobExecution w client resourceGroup jobName executionName
                             (Some t) (S fuel)
        = ([Info ("Polling for job completion (timeout: "
                  ++ JsString.of_Z t ++ "s)")],
           Raised (mkError ("Job execution timed out after "
                            ++ JsString.of_Z t ++ " seconds")))).
Proof.
  split.
  - intros fuel e H. rewrite pollJobExecution_loop in H. cbn [snd] in H.
    destruct (Job.poll_loop w resourceGroup jobName executionName None
                            (poll_start w) fuel 0) as [tr out] eqn:Hloop.
    cbn [snd] in H. subst out.
    destruct (loop_raised w resourceGroup jobName executionName None
                          fuel 0 tr e Hloop) as (_ & k & _ & Hex & _).
    discriminate Hex.
  - intros t fuel Ht H0. rewrite pollJobExecution_loop.
    rewrite (loop_timeout w resourceGroup jobName executionName (Some t)).
    + reflexivity.
    + unfold Poll.exceeded_b, Poll.elapsed, Job.exceeds, Job.timeoutMs.
      simpl. apply Z.ltb_lt. lia.
Qed.

(** ** startJobExecution, deleteJob and dumpJobLogs *)

Lemma log_only (tr : list Event) :
  Forall is_log tr ->
  Main.remote_calls tr = [] /\ Main.outputs tr = []
  /\ Main.failures tr = [].
Proof.
  induction 1 as [|e tr He _ IH]; [now repeat split|].
  destruct IH as (Hr & Ho & Hf).
  unfold Main.remote_calls, Main.outputs, Main.failures in *.
  cbn [flat_map]. rewrite Hr, Ho, Hf.
  destruct e; simpl in He; try contradiction; now repeat split.
Qed.

Lemma remote_calls_app (tr1 tr2 : list Event) :
  Main.remote_calls (tr1 ++ tr2)
  = Main.remote_calls tr1 ++ Main.remote_calls tr2.
Proof. apply flat_map_app. Qed.

Lemma infos_app (tr1 tr2 : list Event) :
  Main.infos (tr1 ++ tr2) = Main.infos tr1 ++ Main.infos tr2.
Proof. apply flat_map_app. Qed.

(** X17: [startJobExecution] and [deleteJob] each make exactly one remote
    call, on the resource group and job they were given.  The first
    returns the provider's execution or throws ["Failed to start job
    execution: "] followed by the provider's message.  The second never
    throws: it returns whether the provider deleted the job or not, and a
    failure only leaves the warning ["Failed to delete job: ..."]. *)
Theorem X17_start_and_delete_make_one_call
    (w : World) (client : Client) (resourceGroup jobName : string) :
  let start := Job.startJobExecution w client resourceGroup jobName in
  let delete := Job.deleteJob w client resourceGroup jobName in
  Main.remote_calls (fst start) = [JobsStart resourceGroup jobName]
  /\ snd start
     = match jobs_beginStartAndWait w with
       | Ok execution => Done execution
       | Throw error =>
           Raised (mkError ("Failed to start job execution: "
                            ++ message error))
       end
  /\ Main.remote_calls (fst delete) = [JobsDelete resourceGroup jobName]
  /\ snd delete = Done tt
  /\ Main.warnings (fst delete)
     = match jobs_beginDeleteAndWait w with
       | Ok _ => []
       | Throw error => [("Failed to delete job: " ++ message error)%string]
       end.
Proof.
  cbv zeta. unfold Job.startJobExecution, Job.deleteJob.
  destruct (jobs_beginStartAndWait w), (jobs_beginDeleteAndWait w);
    repeat split.
Qed.

Lemma print_rows_trace (rows : list (string * string)) :
  Utils.print_rows rows = (map (fun row => Info (log_line row)) rows, Done tt).
Proof.
  induction rows as [|row rest IH]; [reflexivity|].
  cbn [Utils.print_rows map]. rewrite emit_then, IH. reflexivity.
Qed.

Lemma warn_each_trace (errors : list JsError) :
  Utils.warn_each errors
  = (map (fun e => Warning (message e)) errors, Done tt).
Proof.
  induction errors as [|e rest IH]; [reflexivity|].
  cbn [Utils.warn_each map]. rewrite emit_then, IH. reflexivity.
Qed.

Lemma infos_of_info_lines (lines : list string) :
  Main.infos (map Info lines) = lines.
Proof.
  induction lines as [|l rest IH]; [reflexivity|].
  unfold Main.infos in *. simpl. now rewrite IH.
Qed.

Lemma remote_calls_of_info_lines (lines : list string) :
  Main.remote_calls (map Info lines) = [].
Proof. induction lines as [|l rest IH]; [reflexivity | exact IH]. Qed.

Lemma remote_calls_of_warnings (errors : list JsError) :
  Main.remote_calls (map (fun e => Warning (message e)) errors) = [].
Proof. induction errors as [|e rest IH]; [reflexivity | exact IH]. Qed.

Lemma Log_print_rows (rows : list (string * string)) :
  Only is_log (Utils.print_rows rows).
Proof.
  unfold Only. rewrite print_rows_trace. cbn [fst].
  induction rows; constructor; [exact I | assumption].
Qed.

Lemma Log_warn_each (errors : list JsError) :
  Only is_log (Utils.warn_each errors).
Proof.
  unfold Only. rewrite warn_each_trace. cbn [fst].
  induction errors; constructor; [exact I | assumption].
Qed.

(** X18: log retrieval never throws and sets neither an output nor the
    failure.  With an empty or all-whitespace workspace id it makes no
    remote call; otherwise it makes exactly one query, for the given
    workspace and job.  When the query succeeds with a table of at least
    one row, it prints the rows in the order returned, one line
    ["[<timestamp>] <message>"] per row, between a header and a footer. *)
Theorem X18_dumpJobLogs_is_best_effort
    (w : World) (workspaceId jobName : string) :
  let run := Utils.dumpJobLogs w workspaceId jobName in
  snd run = Done tt
  /\ Main.outputs (fst run) = []
  /\ Main.failures (fst run) = []
  /\ Main.remote_calls (fst run)
     = (if Chars.blank workspaceId then []
        else [LogsQueryWorkspace workspaceId jobName])
  /\ (forall result,
        Chars.blank workspaceId = false ->
        logs_queryWorkspace w = Ok result ->
        lr_status result = "Success" ->
        lr_has_table result = true ->
        lr_rows result <> [] ->
        exists header footer,
          Main.infos (fst run)
          = ["Querying container job logs from Log Analytics..."; header]
              ++ map log_line (lr_rows result) ++ [footer]).
Proof.
  cbv zeta.
  split; [apply dumpJobLogs_returns|].
  pose proof (Plain_dumpJobLogs w workspaceId jobName) as HP.
  split; [apply plain_outputs, HP|]. split; [apply plain_failures, HP|].
  unfold Utils.dumpJobLogs. rewrite blank_test.
  destruct (Chars.blank workspaceId); [split; [reflexivity | discriminate]|].
  rewrite !emit_then. cbn [fst].
  split.
  - unfold Main.remote_calls. cbn [flat_map app]. f_equal.
    apply log_only.
    match goal with |- Forall is_log (fst ?c) => change (Only is_log c) end.
    repeat first
      [ apply Log_print_rows | apply Log_warn_each | progress only_events ].
  - intros result _ -> Hs Ht Hrows. rewrite Hs, Ht.
    change (("Success" =? "Success") && true) with true. cbv iota.
    destruct (length (lr_rows result) =? 0)%nat eqn:E.
    { apply Nat.eqb_eq, length_zero_iff_nil in E. now elim Hrows. }
    rewrite emit_then. cbn [fst]. rewrite bind_cases, print_rows_trace.
    cbn [fst snd]. eexists. eexists.
    unfold Main.infos. cbn [flat_map app]. rewrite flat_map_app.
    change (flat_map _ (map (fun row => Info (log_line row))
                            (lr_rows result)))
      with (Main.infos
              (map (fun row => Info (log_line row)) (lr_rows result))).
    rewrite <- (map_map log_line Info), infos_of_info_lines.
    reflexivity.
Qed.

(** ** The events each operation can leave *)

(** Closes a goal [Only P c] from hypotheses that say which events
    satisfy [P]. *)
Ltac footprint HL :=
  repeat first
    [ apply Only_ret
    | apply Only_throw
    | apply Only_diverge
    | apply Only_lift
    | apply Only_emit; first [apply HL; exact I | solve [auto]]
    | apply Only_bind; [|intros ?]
    | apply Only_try_catch; [|intros ?]
    | assumption
    | match goal with
      | |- Only _ (if ?b then _ else _) => destruct b
      | |- Only _ (match ?x with _ => _ end) => destruct x
      | |- Only _ (let _ := _ in _) => cbv zeta
      end ].

Section Footprints.

Variable P : Event -> Prop.
Hypothesis HL : Logs P.

Lemma Only_getInput (w : World) (name : string) (required : bool) :
  Only P (Input.getInput w name required).
Proof. unfold Input.getInput. footprint HL. Qed.

Lemma Only_parseJsonInput (w : World) (name : string) :
  Only P (Input.parseJsonInput w name).
Proof.
  unfold Input.parseJsonInput.
  apply Only_bind; [apply Only_getInput | intros input]. footprint HL.
Qed.

Lemma Only_getInputs (w : World) : Only P (Input.getInputs w).
Proof.
  unfold Input.getInputs.
  repeat first [ apply Only_bind;
                 [first [apply Only_getInput | apply Only_parseJsonInput]
                 |intros ?]
               | apply Only_ret
               | progress cbv zeta ].
Qed.

Lemma Only_announce (inputs : Input.Inputs) (jobName : string) :
  Only P (Main.announce inputs jobName).
Proof. unfold Main.announce. footprint HL. Qed.

Lemma Only_createJob (w : World) (client : Client)
    (rg en jn : string) (config : Config.JobOptions) :
  P (Remote (ManagedEnvironmentsGet rg en)) ->
  (forall doc, P (Remote (JobsCreateOrUpdate rg jn doc))) ->
  Only P (Job.createJob w client rg en jn config).
Proof. intros H1 H2. unfold Job.createJob. footprint HL. Qed.

Lemma Only_startJobExecution (w : World) (client : Client)
    (rg jn : string) :
  P (Remote (JobsStart rg jn)) ->
  Only P (Job.startJobExecution w client rg jn).
Proof. intros H1. unfold Job.startJobExecution. footprint HL. Qed.

Lemma Only_deleteJob (w : World) (client : Client) (rg jn : string) :
  P (Remote (JobsDelete rg jn)) ->
  Only P (Job.deleteJob w client rg jn).
Proof. intros H1. unfold Job.deleteJob. footprint HL. Qed.

Lemma Only_poll_loop (w : World) (rg jn : string) (en : option string)
    (timeout : option Z) (startTime : Z) (fuel : nat) :
  P (Remote (JobExecutionGet rg jn en)) ->
  P (Sleep 10000) ->
  forall i, Only P (Job.poll_loop w rg jn en timeout startTime fuel i).
Proof.
  intros H1 H2.
  induction fuel as [|fuel IH]; intros i; cbn [Job.poll_loop];
    [apply Only_diverge|].
  specialize (IH (S i)). unfold Job.pollInterval. footprint HL.
Qed.

Lemma Only_pollJobExecution (w : World) (client : Client) (rg jn : string)
    (en : option string) (timeout : option Z) (fuel : nat) :
  P (Remote (JobExecutionGet rg jn en)) ->
  P (Sleep 10000) ->
  Only P (Job.pollJobExecution w client rg jn en timeout fuel).
Proof.
  intros H1 H2. unfold Job.pollJobExecution.
  apply Only_bind; [footprint HL | intros _; now apply Only_poll_loop].
Qed.

Lemma Only_dumpJobLogs (w : World) (ws jn : string) :
  P (Remote (LogsQueryWorkspace ws jn)) ->
  Only P (Utils.dumpJobLogs w ws jn).
Proof.
  intros H1.
  assert (Hrows : forall rows, Only P (Utils.print_rows rows)).
  { intros rows. unfold Only. rewrite print_rows_trace. cbn [fst].
    induction rows; constructor; [now apply HL | assumption]. }
  assert (Hwarn : forall errors, Only P (Utils.warn_each errors)).
  { intros errors. unfold Only. rewrite warn_each_trace. cbn [fst].
    induction errors; constructor; [now apply HL | assumption]. }
  unfold Utils.dumpJobLogs.
  repeat first [ apply Hrows | apply Hwarn | progress footprint HL ].
Qed.

Lemma Only_run_with_client (w : World) (fuel : nat) (client : Client)
    (inputs : Input.Inputs) (jn : string) :
  let rg := Input.resourceGroup inputs in
  P (Remote (ManagedEnvironmentsGet rg (Input.environmentName inputs))) ->
  (forall doc, P (Remote (JobsCreateOrUpdate rg jn doc))) ->
  P (Remote (JobsStart rg jn)) ->
  (forall en, P (Remote (JobExecutionGet rg jn en))) ->
  P (Remote (JobsDelete rg jn)) ->
  P (Remote (LogsQueryWorkspace (Input.logAnalyticsWorkspaceId inputs) jn)) ->
  P (Sleep 10000) ->
  (forall name value, P (SetOutput name value)) ->
  (forall text, P (SetFailed text)) ->
  Only P (Main.run_with_client w fuel client inputs jn).
Proof.
  intros rg H1 H2 H3 H4 H5 H6 H7 H8 H9. unfold Main.run_with_client.
  cbv zeta. fold rg.
  destruct (Input.onlyDeleteJob inputs); [now apply Only_deleteJob|].
  apply Only_bind; [now apply Only_createJob | intros _].
  apply Only_bind; [footprint HL | intros _].
  destruct (JsString.truthy (Input.cronSchedule inputs)
            || Input.manualExecution inputs); [footprint HL|].
  destruct (Input.dryRun inputs); [footprint HL|].
  apply Only_bind; [now apply Only_startJobExecution | intros ex].
  apply Only_bind; [footprint HL | intros _].
  apply Only_bind; [apply Only_pollJobExecution; auto | intros fin].
  apply Only_bind; [footprint HL | intros _].
  apply Only_bind; [footprint HL | intros _].
  apply Only_bind; [footprint HL | intros _].
  apply Only_bind; [now apply Only_dumpJobLogs | intros _].
  apply Only_bind; [now apply Only_deleteJob | intros _].
  footprint HL.
Qed.

End Footprints.

(** ** The run as a whole *)

Lemma announce_returns (inputs : Input.Inputs) (jobName : string) :
  snd (Main.announce inputs jobName) = Done tt.
Proof. reflexivity. Qed.

(** A run whose inputs were read: the events of [getInputs], the
    announcement, the events of the rest of the [try] block, and, when
    that rest throws, those of the [catch] block. *)
Lemma run_stages (w : World) (fuel : nat) (events : list Event)
    (inputs : Input.Inputs) :
  Input.getInputs w = (events, Done inputs) ->
  let rg := Input.resourceGroup inputs in
  let jn := resolved_jobName w inputs in
  let body := Main.run_with_client w fuel
                (mkClient (Input.subscriptionId inputs)) inputs jn in
  Main.run w fuel
  = (events ++ fst (Main.announce inputs jn) ++ fst body
       ++ match snd body with
          | Raised error =>
              catch_events w rg jn (Input.cronSchedule inputs) error
          | _ => []
          end,
     match snd body with
     | Raised _ => Done tt
     | outcome => outcome
     end).
Proof.
  intros Hin rg jn body.
  pose proof (getInputs_required _ _ _ Hin) as (_ & Hrg & _).
  unfold Main.run, Main.run_try. rewrite Hin. cbv zeta.
  fold (resolved_jobName w inputs). fold jn. fold body.
  rewrite bind_done. cbn [fst snd].
  rewrite (bind_cases (Main.announce inputs jn)), announce_returns.
  rewrite try_catch_cases. cbn [fst snd].
  destruct (snd body) as [[]|error|] eqn:Hbody.
  - now rewrite app_nil_r.
  - rewrite (run_catch_with_client w _ rg jn (Input.cronSchedule inputs)
               error Hrg (resolved_jobName_truthy _ _ _)).
    cbn [fst snd]. unfold catch_events. now rewrite <- !app_assoc.
  - now rewrite app_nil_r.
Qed.

(** A run whose inputs could not be read. *)
Lemma run_without_inputs (w : World) (fuel : nat) (error : JsError) :
  snd (Input.getInputs w) = Raised error ->
  Main.run w fuel
  = (fst (Input.getInputs w)
       ++ [ErrorLog ("Error: " ++ message error); ErrorStack error;
           SetFailed (message error)],
     Done tt).
Proof.
  intros H. unfold Main.run, Main.run_try.
  destruct (Input.getInputs w) as [events [inputs|e|]]; try discriminate H.
  cbn [snd] in H. injection H as ->. reflexivity.
Qed.

Lemma Ends_outcome {A : Type} (tr : list Event) (o : Outcome A) :
  o <> OutOfFuel -> Ends (tr, o).
Proof. intros H. exact H. Qed.

(** Closes a goal [Ends c] for a computation without a loop. *)
Ltac ends :=
  repeat first
    [ apply Ends_bind; [|intros ?]
    | apply Ends_try_catch; [|intros ?]
    | apply Ends_outcome; discriminate
    | match goal with
      | |- Ends (Eff.lift ?r) => destruct r
      | |- Ends (if ?b then _ else _) => destruct b
      | |- Ends (match ?x with _ => _ end) => destruct x
      | |- Ends (let _ := _ in _) => cbv zeta
      end ].

Lemma createJob_ends (w : World) (client : Client)
    (rg en jn : string) (config : Config.JobOptions) :
  Ends (Job.createJob w client rg en jn config).
Proof. unfold Job.createJob. ends. Qed.

Lemma startJobExecution_ends (w : World) (client : Client)
    (rg jn : string) :
  Ends (Job.startJobExecution w client rg jn).
Proof. unfold Job.startJobExecution. ends. Qed.

Lemma dumpJobLogs_ends (w : World) (ws jn : string) :
  Ends (Utils.dumpJobLogs w ws jn).
Proof. unfold Ends. rewrite dumpJobLogs_returns. discriminate. Qed.

Lemma deleteJob_ends (w : World) (client : Client) (rg jn : string) :
  Ends (Job.deleteJob w client rg jn).
Proof. rewrite deleteJob_runs. apply Ends_outcome. discriminate. Qed.

Lemma catch_events_observed (w : World) (rg jn cron : string)
    (error : JsError) :
  let events := catch_events w rg jn cron error in
  Main.remote_calls events
  = (if JsString.truthy cron then [] else [JobsDelete rg jn])
  /\ Main.outputs events = []
  /\ Main.failures events = [message error].
Proof.
  unfold catch_events, Main.delete_report.
  destruct (JsString.truthy cron); destruct (jobs_beginDeleteAndWait w);
    now repeat split.
Qed.

Lemma Logs_is_log : Logs is_log.
Proof. intros e H. exact H. Qed.

(** Log lines in front of a trace change none of its observations. *)
Lemma logs_silent (tr rest : list Event) :
  Forall is_log tr ->
  Main.remote_calls (tr ++ rest) = Main.remote_calls rest
  /\ Main.outputs (tr ++ rest) = Main.outputs rest
  /\ Main.failures (tr ++ rest) = Main.failures rest.
Proof.
  intros H. destruct (log_only tr H) as (Hr & Ho & Hf).
  now rewrite remote_calls_app, outputs_app, failures_app, Hr, Ho, Hf.
Qed.

(** The observations of a run whose inputs were read are those of the
    part of the [try] block that uses the client and of the [catch]
    block. *)
Lemma run_observed (w : World) (fuel : nat) (events : list Event)
    (inputs : Input.Inputs) :
  Input.getInputs w = (events, Done inputs) ->
  let rg := Input.resourceGroup inputs in
  let jn := resolved_jobName w inputs in
  let body := Main.run_with_client w fuel
                (mkClient (Input.subscriptionId inputs)) inputs jn in
  let rest :=
    fst body
      ++ match snd body with
         | Raised error =>
             catch_events w rg jn (Input.cronSchedule inputs) error
         | _ => []
         end in
  Main.remote_calls (fst (Main.run w fuel)) = Main.remote_calls rest
  /\ Main.outputs (fst (Main.run w fuel)) = Main.outputs rest
  /\ Main.failures (fst (Main.run w fuel)) = Main.failures rest.
Proof.
  intros Hin rg jn body rest.
  rewrite (run_stages w fuel events inputs Hin). cbn [fst].
  fold rg jn body rest.
  assert (He : Forall is_log events).
  { pose proof (Only_getInputs is_log Logs_is_log w) as H.
    unfold Only in H. now rewrite Hin in H. }
  pose proof (Only_announce is_log Logs_is_log inputs jn) as Ha.
  destruct (logs_silent events (fst (Main.announce inputs jn) ++ rest) He)
    as (-> & -> & ->).
  destruct (logs_silent _ rest Ha) as (-> & -> & ->).
  now repeat split.
Qed.

Lemma run_with_client_out_of_fuel (w : World) (fuel : nat)
    (client : Client) (inputs : Input.Inputs) (jn : string) :
  snd (Main.run_with_client w fuel client inputs jn) = OutOfFuel ->
  exists en,
    snd (Job.pollJobExecution w client (Input.resourceGroup inputs) jn en
                              (Input.timeout inputs) fuel) = OutOfFuel.
Proof.
  unfold Main.run_with_client. cbv zeta.
  destruct (Input.onlyDeleteJob inputs).
  { intros H. now elim (deleteJob_ends _ _ _ _ H). }
  rewrite bind_cases.
  match goal with
  | |- context [Job.createJob ?a ?b ?c ?d ?e ?f] =>
      pose proof (createJob_ends a b c d e f) as Hc;
      destruct (Job.createJob a b c d e f) as [trc [[]|e1|]]
  end; cbn [fst snd]; [|discriminate | now elim Hc].
  rewrite emit_then. cbn [snd].
  destruct (JsString.truthy (Input.cronSchedule inputs)
            || Input.manualExecution inputs); [discriminate|].
  destruct (Input.dryRun inputs); [discriminate|].
  rewrite bind_cases.
  match goal with
  | |- context [Job.startJobExecution ?a ?b ?c ?d] =>
      pose proof (startJobExecution_ends a b c d) as Hs;
      destruct (Job.startJobExecution a b c d) as [trs [ex|e2|]]
  end; cbn [fst snd]; [|discriminate | now elim Hs].
  rewrite emit_then. cbn [snd]. rewrite bind_cases.
  match goal with
  | |- context [Job.pollJobExecution ?a ?b ?c ?d ?e ?f ?g] =>
      destruct (Job.pollJobExecution a b c d e f g) as [trp [fin|e3|]]
        eqn:Hp
  end; cbn [fst snd]; [|discriminate|].
  - intros H. exfalso. revert H.
    match goal with
    | |- snd ?c = OutOfFuel -> False => change (Ends c)
    end.
    repeat first
      [ apply dumpJobLogs_ends | apply deleteJob_ends | progress ends ].
  - intros _. exists (ex_name ex). now rewrite Hp.
Qed.

(** X19: the run never throws: every error of the [try] block, and every
    error of the cleanup, is caught.  It returns, unless the polling loop
    itself does not end within the fuel. *)
Theorem X19_run_never_throws (w : World) (fuel : nat) :
  snd (Main.run w fuel) = Done tt
  \/ (snd (Main.run w fuel) = OutOfFuel
      /\ exists client rg jn en timeout,
           snd (Job.pollJobExecution w client rg jn en timeout fuel)
           = OutOfFuel).
Proof.
  destruct (Input.getInputs w) as [events [inputs|error|]] eqn:Hin.
  - rewrite (run_stages w fuel events inputs Hin). cbn [snd].
    pose proof (run_with_client_out_of_fuel w fuel
                  (mkClient (Input.subscriptionId inputs)) inputs
                  (resolved_jobName w inputs)) as Hfuel.
    destruct (snd (Main.run_with_client w fuel
                     (mkClient (Input.subscriptionId inputs)) inputs
                     (resolved_jobName w inputs))) as [[]|e|].
    + now left.
    + now left.
    + right. split; [reflexivity|].
      destruct (Hfuel eq_refl) as (en & Hen). eauto 6.
  - left. rewrite (run_without_inputs w fuel error); [reflexivity|].
    now rewrite Hin.
  - pose proof (Ends_getInputs w) as H. unfold Ends in H.
    rewrite Hin in H. now elim H.
Qed.

(** X20: when the inputs cannot be read (a required input is missing, or
    the environment-variables or secrets text is not JSON), the run makes
    no remote call and sets no output; it sets the failure to the message
    of that error, once, and returns. *)
Theorem X20_input_error_stops_the_run
    (w : World) (fuel : nat) (error : JsError) :
  snd (Input.getInputs w) = Raised error ->
  Main.remote_calls (fst (Main.run w fuel)) = []
  /\ Main.outputs (fst (Main.run w fuel)) = []
  /\ Main.failures (fst (Main.run w fuel)) = [message error]
  /\ snd (Main.run w fuel) = Done tt.
Proof.
  intros H. rewrite (run_without_inputs w fuel error H). cbn [fst snd].
  pose proof (Only_getInputs is_log Logs_is_log w) as Hlog.
  destruct (logs_silent (fst (Input.getInputs w))
              [ErrorLog ("Error: " ++ message error); ErrorStack error;
               SetFailed (message error)] Hlog) as (-> & -> & ->).
  now repeat split.
Qed.

Lemma X20_input_error_stops_the_run_witness :
  Main.remote_calls (fst (Main.run SampleRuns.no_subscription 5)) = []
  /\ Main.failures (fst (Main.run SampleRuns.no_subscription 5))
     = ["Input required and not supplied: subscription-id"].
Proof.
  destruct (X20_input_error_stops_the_run SampleRuns.no_subscription 5
              (mkError "Input required and not supplied: subscription-id"))
    as (Hr & _ & Hf & _).
  - vm_compute. reflexivity.
  - split; [exact Hr | exact Hf].
Defined.

(** X21: in delete-only mode the run makes exactly one remote call, the
    delete of the job named by the job-name input (or of a freshly
    generated name when that input is empty) in the resource group of the
    inputs.  It sets no output, and it does not fail even when the
    provider rejects the delete. *)
Theorem X21_delete_only_run
    (w : World) (fuel : nat) (events : list Event)
    (inputs : Input.Inputs) :
  Input.getInputs w = (events, Done inputs) ->
  Input.onlyDeleteJob inputs = true ->
  Main.remote_calls (fst (Main.run w fuel))
  = [JobsDelete (Input.resourceGroup inputs) (resolved_jobName w inputs)]
  /\ Main.outputs (fst (Main.run w fuel)) = []
  /\ Main.failures (fst (Main.run w fuel)) = []
  /\ snd (Main.run w fuel) = Done tt.
Proof.
  intros Hin Honly.
  destruct (run_observed w fuel events inputs Hin) as (-> & -> & ->).
  rewrite (run_stages w fuel events inputs Hin). cbn [snd].
  unfold Main.run_with_client. rewrite Honly. cbv zeta.
  rewrite deleteJob_runs. cbn [fst snd]. unfold Main.delete_report.
  destruct (jobs_beginDeleteAndWait w); now repeat split.
Qed.

Lemma X21_delete_only_run_witness :
  Main.remote_calls (fst (Main.run SampleWorld.dry_run_delete_only 5))
  = [JobsDelete "rg" "job-1"]
  /\ Main.failures (fst (Main.run SampleWorld.dry_run_delete_only 5)) = [].
Proof.
  destruct (X21_delete_only_run
              SampleWorld.dry_run_delete_only 5
              (fst (Input.getInputs SampleWorld.dry_run_delete_only))
              (SampleRuns.inputs_of SampleWorld.dry_run_delete_only))
    as (Hr & _ & Hf & _).
  - vm_compute. reflexivity.
  - vm_compute. reflexivity.
  - split; [exact Hr | exact Hf].
Defined.

(** X22: a scheduled or manual run (cron-schedule given, or
    manual-execution set) only creates the job: its remote calls are
    those of [createJob]; it never starts, polls or fetches logs.  When
    the creation succeeds, job-name is the only output and the run does
    not fail.  When it fails, no output is set, the failure is the
    creation error, and the cleanup delete follows only when no cron
    schedule was given. *)
Theorem X22_scheduled_run_only_creates
    (w : World) (fuel : nat) (events : list Event)
    (inputs : Input.Inputs) :
  Input.getInputs w = (events, Done inputs) ->
  Input.onlyDeleteJob inputs = false ->
  JsString.truthy (Input.cronSchedule inputs)
  || Input.manualExecution inputs = true ->
  let rg := Input.resourceGroup inputs in
  let jn := resolved_jobName w inputs in
  let create :=
    Job.createJob w (mkClient (Input.subscriptionId inputs)) rg
                  (Input.environmentName inputs) jn
                  (Main.job_options inputs) in
  Main.remote_calls (fst (Main.run w fuel))
  = Main.remote_calls (fst create)
      ++ match snd create with
         | Raised _ =>
             if JsString.truthy (Input.cronSchedule inputs) then []
             else [JobsDelete rg jn]
         | _ => []
         end
  /\ Main.outputs (fst (Main.run w fuel))
     = match snd create with
       | Done _ => [("job-name", Some jn)]
       | _ => []
       end
  /\ Main.failures (fst (Main.run w fuel))
     = match snd create with
       | Raised error => [message error]
       | _ => []
       end
  /\ snd (Main.run w fuel) = Done tt.
Proof.
  intros Hin Honly Hmode rg jn create.
  destruct (run_observed w fuel events inputs Hin) as (-> & -> & ->).
  rewrite (run_stages w fuel events inputs Hin). cbn [snd].
  fold rg jn.
  unfold Main.run_with_client. rewrite Honly, Hmode. cbv zeta.
  fold rg create. rewrite bind_cases.
  pose proof (createJob_ends w (mkClient (Input.subscriptionId inputs)) rg
                (Input.environmentName inputs) jn
                (Main.job_options inputs)) as Hends.
  pose proof (Plain_createJob w (mkClient (Input.subscriptionId inputs)) rg
                (Input.environmentName inputs) jn
                (Main.job_options inputs)) as Hplain.
  fold create in Hends, Hplain. unfold Plain, Only in Hplain.
  pose proof (plain_outputs _ Hplain) as Hout.
  pose proof (plain_failures _ Hplain) as Hfail.
  destruct create as [trc [[]|error|]]; cbn [fst snd] in *.
  - rewrite !app_nil_r.
    rewrite remote_calls_app, outputs_app, failures_app, Hout, Hfail.
    rewrite !emit_then. cbn. rewrite app_nil_r. now repeat split.
  - destruct (catch_events_observed w rg jn (Input.cronSchedule inputs)
                error) as (Hr & Ho & Hf).
    rewrite remote_calls_app, outputs_app, failures_app, Hout, Hfail.
    rewrite Hr, Ho, Hf. now repeat split.
  - now elim Hends.
Qed.

Lemma X22_scheduled_run_only_creates_witness :
  Main.outputs (fst (Main.run SampleRuns.scheduled 5))
  = [("job-name", Some "job-1")]
  /\ Main.failures (fst (Main.run SampleRuns.scheduled 5)) = [].
Proof.
  destruct (X22_scheduled_run_only_creates
              SampleRuns.scheduled 5
              (fst (Input.getInputs SampleRuns.scheduled))
              (SampleRuns.inputs_of SampleRuns.scheduled))
    as (_ & Ho & Hf & _).
  - vm_compute. reflexivity.
  - vm_compute. reflexivity.
  - vm_compute. reflexivity.
  - split; [exact Ho | exact Hf].
Defined.

(** ** Where the remote calls of a run go *)

Lemma Logs_targets (rg en jn ws : string) : Logs (targets rg en jn ws).
Proof. intros e He. destruct e; simpl in *; auto; contradiction. Qed.

(** X23: every remote call of a run is on the resource group, the
    environment and the log workspace of the inputs and on one job name:
    the job-name input, or the name generated at the start when that
    input is empty.  The create, start, status-read, log-query and delete
    calls of one run therefore all name the same job. *)
Theorem X23_run_calls_name_one_job
    (w : World) (fuel : nat) (events : list Event)
    (inputs : Input.Inputs) :
  Input.getInputs w = (events, Done inputs) ->
  Forall (targets (Input.resourceGroup inputs)
                  (Input.environmentName inputs)
                  (resolved_jobName w inputs)
                  (Input.logAnalyticsWorkspaceId inputs))
         (fst (Main.run w fuel)).
Proof.
  intros Hin. rewrite (run_stages w fuel events inputs Hin). cbn [fst].
  set (rg := Input.resourceGroup inputs).
  set (jn := resolved_jobName w inputs).
  set (P := targets rg (Input.environmentName inputs) jn
                    (Input.logAnalyticsWorkspaceId inputs)).
  assert (HL : Logs P) by apply Logs_targets.
  apply Forall_app; split;
    [|apply Forall_app; split; [|apply Forall_app; split]].
  - pose proof (Only_getInputs P HL w) as H. unfold Only in H.
    now rewrite Hin in H.
  - apply (Only_announce P HL).
  - apply (Only_run_with_client P HL); try exact I; intros;
      split; reflexivity.
  - destruct (snd (Main.run_with_client w fuel
                     (mkClient (Input.subscriptionId inputs)) inputs jn))
      as [[]|error|]; [constructor | | constructor].
    unfold catch_events, Main.delete_report.
    destruct (JsString.truthy (Input.cronSchedule inputs));
      destruct (jobs_beginDeleteAndWait w);
      repeat constructor.
Qed.

Lemma X23_run_calls_name_one_job_witness :
  Forall (targets "rg" "env" "job-1" "ws-1")
         (fst (Main.run SampleRuns.one_off 5)).
Proof.
  apply (X23_run_calls_name_one_job
           SampleRuns.one_off 5
           (fst (Input.getInputs SampleRuns.one_off))
           (SampleRuns.inputs_of SampleRuns.one_off)).
  vm_compute. reflexivity.
Defined.

(** ** One-off runs *)

(** The part of the [try] block that uses the client, in a one-off run,
    by the outcomes of the creation, the start and the poll. *)
Lemma one_off_body (w : World) (fuel : nat) (client : Client)
    (inputs : Input.Inputs) (jn : string) :
  Input.onlyDeleteJob inputs = false ->
  JsString.truthy (Input.cronSchedule inputs)
  || Input.manualExecution inputs = false ->
  Input.dryRun inputs = false ->
  let rg := Input.resourceGroup inputs in
  let create := Job.createJob w client rg (Input.environmentName inputs)
                              jn (Main.job_options inputs) in
  let start := Job.startJobExecution w client rg jn in
  let poll := fun ex : Execution =>
    Job.pollJobExecution w client rg jn (ex_name ex)
                         (Input.timeout inputs) fuel in
  Main.run_with_client w fuel client inputs jn
  = match snd create with
    | Done _ =>
        let created := fst create ++ [SetOutput "job-name" (Some jn)] in
        match snd start with
        | Done ex =>
            let started :=
              created ++ fst start
                ++ [SetOutput "execution-name" (ex_name ex)] in
            match snd (poll ex) with
            | Done fin =>
                (started ++ fst (poll ex) ++ finish_events w inputs jn fin,
                 Done tt)
            | Raised error => (started ++ fst (poll ex), Raised error)
            | OutOfFuel => (started ++ fst (poll ex), OutOfFuel)
            end
        | Raised error => (created ++ fst start, Raised error)
        | OutOfFuel => (created ++ fst start, OutOfFuel)
        end
    | Raised error => (fst create, Raised error)
    | OutOfFuel => (fst create, OutOfFuel)
    end.
Proof.
  intros Honly Hmode Hdry rg create start poll.
  unfold Main.run_with_client. rewrite Honly, Hmode, Hdry. cbv zeta.
  fold rg create start. rewrite bind_cases.
  destruct (snd create) as [[]|error|]; [|reflexivity|reflexivity].
  rewrite emit_then. cbn [fst snd]. rewrite bind_cases.
  destruct (snd start) as [ex|error|];
    [| now rewrite <- app_assoc | now rewrite <- app_assoc].
  rewrite emit_then. cbn [fst snd]. rewrite bind_cases.
  change (Job.pollJobExecution w client rg jn (ex_name ex)
                               (Input.timeout inputs) fuel) with (poll ex).
  destruct (snd (poll ex)) as [fin|error|];
    [| now rewrite <- !app_assoc | now rewrite <- !app_assoc].
  rewrite !emit_then. cbn [fst snd].
  rewrite bind_cases, dumpJobLogs_returns.
  rewrite deleteJob_runs, bind_done. cbn [fst snd].
  unfold finish_events. cbv zeta. fold rg.
  destruct (Main.status_is_Failed (Main.final_status fin)
            || negb (Main.final_exitCode fin =? 0)%Z);
    cbn [fst snd Eff.emit Eff.ret]; rewrite <- !app_assoc; reflexivity.
Qed.

Lemma Logs_not_delete : Logs not_delete.
Proof. intros e He. destruct e; try reflexivity; contradiction. Qed.

Lemma keeps_remote_calls (tr : list Event) :
  Forall not_delete tr -> Forall keeps_job (Main.remote_calls tr).
Proof.
  induction 1 as [|e tr He _ IH]; [constructor|].
  unfold Main.remote_calls in *. cbn [flat_map].
  destruct e; cbn [app]; try exact IH.
  constructor; [|exact IH].
  match goal with c : RemoteCall |- _ => destruct c end;
    first [exact I | discriminate He].
Qed.

(** X24: a one-off run (no cron schedule, not manual, not delete-only,
    no dry run) that ends always deletes the job, exactly once, and the
    delete is its last remote call: after the log retrieval when the poll
    returned, as cleanup when the creation, the start or the poll
    threw. *)
Theorem X24_one_off_run_deletes_last
    (w : World) (fuel : nat) (events : list Event)
    (inputs : Input.Inputs) :
  Input.getInputs w = (events, Done inputs) ->
  Input.onlyDeleteJob inputs = false ->
  JsString.truthy (Input.cronSchedule inputs)
  || Input.manualExecution inputs = false ->
  Input.dryRun inputs = false ->
  snd (Main.run w fuel) <> OutOfFuel ->
  exists before,
    Main.remote_calls (fst (Main.run w fuel))
    = before ++ [JobsDelete (Input.resourceGroup inputs)
                            (resolved_jobName w inputs)]
    /\ Forall keeps_job before.
Proof.
  intros Hin Honly Hmode Hdry Hends.
  destruct (run_observed w fuel events inputs Hin) as (-> & _ & _).
  rewrite (run_stages w fuel events inputs Hin) in Hends.
  cbn [snd] in Hends. revert Hends.
  set (client := mkClient (Input.subscriptionId inputs)).
  set (rg := Input.resourceGroup inputs).
  set (jn := resolved_jobName w inputs).
  rewrite (one_off_body w fuel client inputs jn Honly Hmode Hdry).
  cbv zeta. fold rg.
  pose proof (keeps_remote_calls _
                (Only_createJob not_delete Logs_not_delete w client rg
                   (Input.environmentName inputs) jn
                   (Main.job_options inputs) eq_refl
                   (fun _ => eq_refl))) as Hc.
  pose proof (keeps_remote_calls _
                (Only_startJobExecution not_delete Logs_not_delete w
                   client rg jn eq_refl)) as Hs.
  pose proof (fun en =>
                keeps_remote_calls _
                  (Only_pollJobExecution not_delete Logs_not_delete w
                     client rg jn en (Input.timeout inputs) fuel
                     eq_refl eq_refl)) as Hp.
  pose proof (keeps_remote_calls _
                (Only_dumpJobLogs not_delete Logs_not_delete w
                   (Input.logAnalyticsWorkspaceId inputs) jn eq_refl))
    as Hd.
  assert (Hcron : JsString.truthy (Input.cronSchedule inputs) = false)
    by (now apply orb_false_iff in Hmode).
  unfold finish_events, catch_events, Main.delete_report.
  rewrite Hcron. cbv zeta. fold rg.
  destruct (snd (Job.createJob w client rg (Input.environmentName inputs)
                               jn (Main.job_options inputs)))
    as [[]|e1|];
    [destruct (snd (Job.startJobExecution w client rg jn)) as [ex|e2|];
     [specialize (Hp (ex_name ex));
      destruct (snd (Job.pollJobExecution w client rg jn (ex_name ex)
                       (Input.timeout inputs) fuel)) as [fin|e3|]|..]|..];
    cbn [fst snd]; intros Hends; try (now elim Hends);
    rewrite ?remote_calls_app;
    repeat match goal with
           | H : Forall keeps_job ?l |- _ =>
               let R := fresh "R" in
               remember l as R eqn:E in *; clear E; revert H
           end;
    intros;
    destruct (jobs_beginDeleteAndWait w);
    try destruct (Main.status_is_Failed (Main.final_status fin)
                  || negb (Main.final_exitCode fin =? 0)%Z);
    cbn [Main.remote_calls flat_map app];
    rewrite ?app_nil_r, ?app_assoc;
    (eexists; split; [reflexivity|]);
    repeat first [assumption | apply Forall_app; split].
Qed.

Lemma X24_one_off_run_deletes_last_witness :
  exists before,
    Main.remote_calls (fst (Main.run SampleRuns.one_off 5))
    = before ++ [JobsDelete "rg" "job-1"]
    /\ Forall keeps_job before.
Proof.
  apply (X24_one_off_run_deletes_last
           SampleRuns.one_off 5
           (fst (Input.getInputs SampleRuns.one_off))
           (SampleRuns.inputs_of SampleRuns.one_off)).
  - vm_compute. reflexivity.
  - vm_compute. reflexivity.
  - vm_compute. reflexivity.
  - vm_compute. reflexivity.
  - vm_compute. discriminate.
Defined.

Lemma not_output_outputs (tr : list Event) :
  Forall not_output tr -> Main.outputs tr = [].
Proof.
  induction 1 as [|e tr He _ IH]; [reflexivity|].
  unfold Main.outputs in *. cbn [flat_map]. rewrite IH.
  destruct e; simpl in *; try reflexivity. contradiction.
Qed.

Lemma Logs_not_output : Logs not_output.
Proof. intros e He. destruct e; try exact I; contradiction. Qed.

Lemma finish_events_outputs (w : World) (inputs : Input.Inputs)
    (jn : string) (fin : Execution) :
  Main.outputs (finish_events w inputs jn fin) = [].
Proof.
  unfold finish_events. cbv zeta.
  rewrite !outputs_app.
  rewrite (not_output_outputs _
             (Only_dumpJobLogs not_output Logs_not_output w
                (Input.logAnalyticsWorkspaceId inputs) jn I)).
  unfold Main.delete_report.
  destruct (jobs_beginDeleteAndWait w);
    destruct (Main.status_is_Failed (Main.final_status fin)
              || negb (Main.final_exitCode fin =? 0)%Z);
    reflexivity.
Qed.

(** X25: which outputs a run sets, outside delete-only mode.  job-name
    is set exactly when the creation succeeded; execution-name is set
    after it exactly when the run is a one-off run without dry run and
    the start succeeded.  Nothing else is ever set, and what happens
    later (the poll, the logs, the delete, a failed execution) changes
    no output. *)
Theorem X25_outputs_follow_the_stages
    (w : World) (fuel : nat) (events : list Event)
    (inputs : Input.Inputs) :
  Input.getInputs w = (events, Done inputs) ->
  Input.onlyDeleteJob inputs = false ->
  let client := mkClient (Input.subscriptionId inputs) in
  let rg := Input.resourceGroup inputs in
  let jn := resolved_jobName w inputs in
  let create := Job.createJob w client rg (Input.environmentName inputs)
                              jn (Main.job_options inputs) in
  let start := Job.startJobExecution w client rg jn in
  Main.outputs (fst (Main.run w fuel))
  = match snd create with
    | Done _ =>
        ("job-name", Some jn)
          :: (if JsString.truthy (Input.cronSchedule inputs)
                 || Input.manualExecution inputs
                 || Input.dryRun inputs
              then []
              else match snd start with
                   | Done execution =>
                       [("execution-name", ex_name execution)]
                   | _ => []
                   end)
    | _ => []
    end.
Proof.
  intros Hin Honly client rg jn create start.
  destruct (run_observed w fuel events inputs Hin) as (_ & -> & _).
  fold client rg jn.
  pose proof (plain_outputs _
                (Plain_createJob w client rg (Input.environmentName inputs)
                   jn (Main.job_options inputs))) as Hc.
  pose proof (plain_outputs _ (Plain_startJobExecution w client rg jn))
    as Hs.
  pose proof (fun en =>
                plain_outputs _
                  (Plain_pollJobExecution w client rg jn en
                     (Input.timeout inputs) fuel)) as Hp.
  fold create in Hc. fold start in Hs.
  assert (Hcatch : forall error,
            Main.outputs (catch_events w rg jn (Input.cronSchedule inputs)
                                       error) = [])
    by (intros error; apply catch_events_observed).
  destruct (JsString.truthy (Input.cronSchedule inputs)
            || Input.manualExecution inputs) eqn:Hmode;
    [|destruct (Input.dryRun inputs) eqn:Hdry].
  - unfold Main.run_with_client. rewrite Honly, Hmode. cbv zeta.
    fold rg create. rewrite bind_cases.
    destruct (snd create) as [[]|error|]; cbn [fst snd orb];
      rewrite ?emit_then; cbn [fst snd];
      rewrite ?outputs_app, ?Hc, ?Hcatch; reflexivity.
  - unfold Main.run_with_client. rewrite Honly, Hmode, Hdry. cbv zeta.
    fold rg create. rewrite bind_cases.
    destruct (snd create) as [[]|error|]; cbn [fst snd orb];
      rewrite ?emit_then; cbn [fst snd];
      rewrite ?outputs_app, ?Hc, ?Hcatch; reflexivity.
  - rewrite (one_off_body w fuel client inputs jn Honly Hmode Hdry).
    cbv zeta. fold rg create start. cbn [orb].
    destruct (snd create) as [[]|e1|];
      [destruct (snd start) as [ex|e2|];
       [specialize (Hp (ex_name ex));
        destruct (snd (Job.pollJobExecution w client rg jn (ex_name ex)
                         (Input.timeout inputs) fuel)) as [fin|e3|]|..]|..];
      cbn [fst snd];
      rewrite ?outputs_app, ?Hc, ?Hs, ?Hp, ?Hcatch,
        ?finish_events_outputs;
      reflexivity.
Qed.

Lemma X25_outputs_follow_the_stages_witness :
  Main.outputs (fst (Main.run SampleRuns.one_off 5))
  = [("job-name", Some "job-1"); ("execution-name", Some "exec-1")].
Proof.
  rewrite (X25_outputs_follow_the_stages
             SampleRuns.one_off 5
             (fst (Input.getInputs SampleRuns.one_off))
             (SampleRuns.inputs_of SampleRuns.one_off)).
  - vm_compute. reflexivity.
  - vm_compute. reflexivity.
  - vm_compute. reflexivity.
Defined.

(** ** Termination of the run *)

Lemma pollJobExecution_ends (w : World) (client : Client)
    (rg jn : string) (en : option string) (t : Z) (fuel : nat) :
  (poll_start w <= poll_now w 0)%Z ->
  (forall i, (poll_now w i + 10000 <= poll_now w (S i))%Z) ->
  Poll.enough_fuel t <= fuel ->
  snd (Job.pollJobExecution w client rg jn en (Some t) fuel) <> OutOfFuel.
Proof.
  intros H0 Hstep Hfuel. rewrite pollJobExecution_loop. cbn [snd].
  apply loop_ends with (k := Z.to_nat (t / 10) + 1).
  - unfold Poll.enough_fuel in Hfuel. lia.
  - apply (exceeded_reflect w (Some t)). exists t. split; [reflexivity|].
    pose proof (elapsed_grows w H0 Hstep (Z.to_nat (t / 10) + 1)) as Hg.
    unfold Job.pollInterval in Hg.
    assert (Hk : (t < Z.of_nat (Z.to_nat (t / 10) + 1) * 10)%Z).
    { pose proof (Z.mul_succ_div_gt t 10 ltac:(lia)) as Hdiv. lia. }
    lia.
Qed.

(** X26: when the timeout input is a number of seconds [t] and every
    polling iteration takes at least the 10-second interval, the whole
    run returns within [t / 10 + 2] iterations of the polling loop,
    whatever the provider answers: it cannot poll forever. *)
Theorem X26_run_ends_with_a_numeric_timeout
    (w : World) (fuel : nat) (events : list Event)
    (inputs : Input.Inputs) (t : Z) :
  Input.getInputs w = (events, Done inputs) ->
  Input.timeout inputs = Some t ->
  (poll_start w <= poll_now w 0)%Z ->
  (forall i, (poll_now w i + 10000 <= poll_now w (S i))%Z) ->
  Poll.enough_fuel t <= fuel ->
  snd (Main.run w fuel) = Done tt.
Proof.
  intros Hin Ht H0 Hstep Hfuel.
  rewrite (run_stages w fuel events inputs Hin). cbn [snd].
  pose proof (run_with_client_out_of_fuel w fuel
                (mkClient (Input.subscriptionId inputs)) inputs
                (resolved_jobName w inputs)) as Hout.
  destruct (snd (Main.run_with_client w fuel
                   (mkClient (Input.subscriptionId inputs)) inputs
                   (resolved_jobName w inputs))) as [[]|e|];
    [reflexivity | reflexivity |].
  destruct (Hout eq_refl) as (en & Hen). rewrite Ht in Hen.
  exfalso. revert Hen.
  now apply pollJobExecution_ends.
Qed.

Lemma X26_run_ends_with_a_numeric_timeout_witness :
  snd (Main.run SampleRuns.one_off 182) = Done tt.
Proof.
  apply (X26_run_ends_with_a_numeric_timeout
           SampleRuns.one_off 182
           (fst (Input.getInputs SampleRuns.one_off))
           (SampleRuns.inputs_of SampleRuns.one_off) 1800%Z).
  - vm_compute. reflexivity.
  - vm_compute. reflexivity.
  - simpl. lia.
  - intros i. simpl. lia.
  - vm_compute. lia.
Defined.

(** ** The failure of the run *)

Lemma Logs_not_failure : Logs not_failure.
Proof. intros e He. destruct e; try exact I; contradiction. Qed.

(** Outside one-off runs the part of the [try] block that uses the
    client never sets the failure. *)
Lemma other_modes_are_quiet (w : World) (fuel : nat) (client : Client)
    (inputs : Input.Inputs) (jn : string) :
  Input.onlyDeleteJob inputs = true
  \/ JsString.truthy (Input.cronSchedule inputs)
     || Input.manualExecution inputs = true
  \/ Input.dryRun inputs = true ->
  Forall not_failure (fst (Main.run_with_client w fuel client inputs jn)).
Proof.
  intros Hmode.
  change (Only not_failure (Main.run_with_client w fuel client inputs jn)).
  unfold Main.run_with_client. cbv zeta.
  destruct (Input.onlyDeleteJob inputs);
    [now apply Only_deleteJob; [apply Logs_not_failure|]|].
  apply Only_bind;
    [now apply Only_createJob; [apply Logs_not_failure|..] | intros _].
  apply Only_bind; [now apply Only_emit | intros _].
  destruct (JsString.truthy (Input.cronSchedule inputs)
            || Input.manualExecution inputs); [now apply Only_emit|].
  destruct (Input.dryRun inputs); [now apply Only_emit|].
  destruct Hmode as [H|[H|H]]; discriminate H.
Qed.

Lemma finish_events_failure (w : World) (inputs : Input.Inputs)
    (jn : string) (fin : Execution) :
  Main.failures (finish_events w inputs jn fin) = []
  \/ exists before text,
       finish_events w inputs jn fin = before ++ [SetFailed text]
       /\ Main.failures before = [].
Proof.
  unfold finish_events. cbv zeta.
  pose proof (quiet_failures _
                (Only_dumpJobLogs not_failure Logs_not_failure w
                   (Input.logAnalyticsWorkspaceId inputs) jn I)) as Hd.
  unfold Main.delete_report.
  destruct (Main.status_is_Failed (Main.final_status fin)
            || negb (Main.final_exitCode fin =? 0)%Z).
  - right. eexists. eexists. split.
    + rewrite !app_assoc. reflexivity.
    + rewrite !failures_app, Hd.
      now destruct (jobs_beginDeleteAndWait w).
  - left. rewrite !failures_app, Hd.
    now destruct (jobs_beginDeleteAndWait w).
Qed.

(** The part of the [try] block that uses the client sets the failure
    at most once, as the last thing it does before it returns. *)
Lemma run_with_client_failure_last (w : World) (fuel : nat)
    (client : Client) (inputs : Input.Inputs) (jn : string) :
  let body := Main.run_with_client w fuel client inputs jn in
  Main.failures (fst body) = []
  \/ (snd body = Done tt
      /\ exists before text,
           fst body = before ++ [SetFailed text]
           /\ Main.failures before = []).
Proof.
  cbv zeta.
  destruct (Input.onlyDeleteJob inputs) eqn:Honly;
    [left; apply quiet_failures, other_modes_are_quiet; now left|].
  destruct (JsString.truthy (Input.cronSchedule inputs)
            || Input.manualExecution inputs) eqn:Hmode;
    [left; apply quiet_failures, other_modes_are_quiet; tauto|].
  destruct (Input.dryRun inputs) eqn:Hdry;
    [left; apply quiet_failures, other_modes_are_quiet; tauto|].
  rewrite (one_off_body w fuel client inputs jn Honly Hmode Hdry).
  cbv zeta.
  set (rg := Input.resourceGroup inputs).
  pose proof (plain_failures _
                (Plain_createJob w client rg (Input.environmentName inputs)
                   jn (Main.job_options inputs))) as Hc.
  pose proof (plain_failures _ (Plain_startJobExecution w client rg jn))
    as Hs.
  pose proof (fun en =>
                plain_failures _
                  (Plain_pollJobExecution w client rg jn en
                     (Input.timeout inputs) fuel)) as Hp.
  destruct (snd (Job.createJob w client rg (Input.environmentName inputs)
                               jn (Main.job_options inputs)))
    as [[]|e1|]; cbn [fst snd]; [|now left|now left].
  destruct (snd (Job.startJobExecution w client rg jn)) as [ex|e2|];
    cbn [fst snd];
    [| left; now rewrite !failures_app, Hc, Hs
     | left; now rewrite !failures_app, Hc, Hs].
  specialize (Hp (ex_name ex)).
  destruct (snd (Job.pollJobExecution w client rg jn (ex_name ex)
                   (Input.timeout inputs) fuel)) as [fin|e3|];
    cbn [fst snd];
    [| left; now rewrite !failures_app, Hc, Hs, Hp
     | left; now rewrite !failures_app, Hc, Hs, Hp].
  destruct (finish_events_failure w inputs jn fin)
    as [Hf | (before & text & Heq & Hb)].
  - left. now rewrite !failures_app, Hc, Hs, Hp, Hf.
  - right. split; [reflexivity|].
    rewrite Heq. eexists. exists text. split.
    + rewrite !app_assoc. reflexivity.
    + now rewrite !failures_app, Hc, Hs, Hp, Hb.
Qed.

(** X27: a run sets the failure at most once, and when it does, that is
    the last thing it does: the cleanup, the log retrieval and every
    remote call come before it. *)
Theorem X27_failure_is_set_last (w : World) (fuel : nat) :
  Main.failures (fst (Main.run w fuel)) = []
  \/ exists before text,
       fst (Main.run w fuel) = before ++ [SetFailed text]
       /\ Main.failures before = [].
Proof.
  pose proof (quiet_failures _
                (Only_getInputs not_failure Logs_not_failure w)) as He.
  destruct (Input.getInputs w) as [events [inputs|error|]] eqn:Hin.
  - rewrite (run_stages w fuel events inputs Hin). cbn [fst].
    set (jn := resolved_jobName w inputs).
    pose proof (quiet_failures _
                  (Only_announce not_failure Logs_not_failure inputs jn))
      as Ha.
    cbn [fst] in He.
    destruct (run_with_client_failure_last w fuel
                (mkClient (Input.subscriptionId inputs)) inputs jn)
      as [Hb | (Hdone & before & text & Heq & Hb)].
    + destruct (snd (Main.run_with_client w fuel
                       (mkClient (Input.subscriptionId inputs)) inputs jn))
        as [[]|e|].
      * left. now rewrite !failures_app, He, Ha, Hb.
      * right. unfold catch_events. eexists. exists (message e). split.
        -- rewrite !app_assoc. reflexivity.
        -- rewrite !failures_app, He, Ha, Hb. unfold Main.delete_report.
           destruct (JsString.truthy (Input.cronSchedule inputs));
             destruct (jobs_beginDeleteAndWait w); reflexivity.
      * left. now rewrite !failures_app, He, Ha, Hb.
    + rewrite Hdone, Heq. right. eexists. exists text. split.
      * rewrite app_nil_r, !app_assoc. reflexivity.
      * now rewrite !failures_app, He, Ha, Hb.
  - right. rewrite (run_without_inputs w fuel error);
      [|now rewrite Hin].
    rewrite Hin. cbn [fst] in *.
    exists (events ++ [ErrorLog ("Error: " ++ message error);
                       ErrorStack error]), (message error).
    split; [now rewrite <- app_assoc|].
    now rewrite failures_app, He.
  - pose proof (Ends_getInputs w) as H. unfold Ends in H.
    rewrite Hin in H. now elim H.
Qed.

(** ** Where the secret values go *)

Lemma Object_entries_null (v : JsVal) :
  match Js.Object_entries v with
  | Ok _ => is_null v = false
  | Throw error =>
      is_null v = true
      /\ error = mkError "Cannot convert undefined or null to object"
  end.
Proof. destruct v; simpl; auto. Qed.

Lemma buildJobConfig_same_error (sub rg en loc : string)
    (o o' : Config.JobOptions) :
  is_null (Config.environmentVariables o) || is_null (Config.secrets o)
  = is_null (Config.environmentVariables o')
    || is_null (Config.secrets o') ->
  same_error (Config.buildJobConfig sub rg en loc o)
             (Config.buildJobConfig sub rg en loc o').
Proof.
  unfold Config.buildJobConfig. intros H.
  pose proof (Object_entries_null (Config.environmentVariables o)) as H1.
  pose proof (Object_entries_null (Config.secrets o)) as H2.
  pose proof (Object_entries_null (Config.environmentVariables o')) as H3.
  pose proof (Object_entries_null (Config.secrets o')) as H4.
  destruct (Js.Object_entries (Config.environmentVariables o)),
    (Js.Object_entries (Config.secrets o)),
    (Js.Object_entries (Config.environmentVariables o')),
    (Js.Object_entries (Config.secrets o'));
    cbv zeta; cbn [same_error];
    repeat match goal with
           | H : _ /\ _ |- _ => destruct H
           end;
    subst; try exact I; try reflexivity;
    exfalso; revert H;
    repeat match goal with
           | H : is_null _ = _ |- _ => rewrite H; clear H
           end;
    discriminate.
Qed.

(** The creation shows of its configuration only the document it
    submits. *)
Lemma createJob_hides_config (w : World) (client : Client)
    (rg en jn : string) (o o' : Config.JobOptions) :
  (forall loc,
     same_error
       (Config.buildJobConfig (client_subscriptionId client) rg en loc o)
       (Config.buildJobConfig (client_subscriptionId client) rg en loc o'))
  ->
  map hide_document (fst (Job.createJob w client rg en jn o))
  = map hide_document (fst (Job.createJob w client rg en jn o'))
  /\ snd (Job.createJob w client rg en jn o)
     = snd (Job.createJob w client rg en jn o').
Proof.
  intros Hsame. unfold Job.createJob.
  set (location :=
         Eff.bind (Eff.emit (Remote (ManagedEnvironmentsGet rg en))) _).
  rewrite !emit_then. cbn [fst snd]. rewrite !(bind_cases location).
  destruct location as [trl [loc|e|]]; cbn [fst snd];
    [|now split|now split].
  specialize (Hsame loc). rewrite !bind_cases.
  destruct (Config.buildJobConfig (client_subscriptionId client) rg en loc
                                  o) as [doc|error],
    (Config.buildJobConfig (client_subscriptionId client) rg en loc o')
      as [doc'|error'];
    simpl in Hsame; try contradiction; cbn [Eff.lift Eff.ret Eff.throw
                                             fst snd].
  - rewrite !emit_then. cbn [fst snd app]. split; [|reflexivity].
    rewrite !map_cons, !map_app, !map_cons. reflexivity.
  - subst error'. now split.
Qed.

(** Given the same provider answers, the announcement and the part of
    the [try] block that uses the client differ, for other values of the
    three inputs, only in the document of the create call. *)
Lemma secret_values_in_the_body
    (w : World) (fuel : nat) (client : Client) (inputs : Input.Inputs)
    (jn : string) (environmentVariables secrets : JsVal)
    (registryPassword : string) :
  is_null (Input.environmentVariables inputs)
  || is_null (Input.secrets inputs)
  = is_null environmentVariables || is_null secrets ->
  let inputs' :=
    with_secret_values inputs environmentVariables secrets
                       registryPassword in
  Main.announce inputs' jn = Main.announce inputs jn
  /\ map hide_document (fst (Main.run_with_client w fuel client inputs' jn))
     = map hide_document (fst (Main.run_with_client w fuel client inputs jn))
  /\ snd (Main.run_with_client w fuel client inputs' jn)
     = snd (Main.run_with_client w fuel client inputs jn).
Proof.
  intros Hnull inputs'. split; [reflexivity|].
  unfold Main.run_with_client. cbv zeta.
  change (Input.onlyDeleteJob inputs') with (Input.onlyDeleteJob inputs).
  destruct (Input.onlyDeleteJob inputs); [now split|].
  rewrite !(bind_cases (Job.createJob _ _ _ _ _ _)).
  destruct (createJob_hides_config w client (Input.resourceGroup inputs)
              (Input.environmentName inputs) jn
              (Main.job_options inputs') (Main.job_options inputs))
    as (Htr & Hout).
  { intros loc. apply buildJobConfig_same_error. symmetry. exact Hnull. }
  change (Input.resourceGroup inputs') with (Input.resourceGroup inputs).
  change (Input.environmentName inputs')
    with (Input.environmentName inputs).
  rewrite Hout.
  destruct (snd (Job.createJob w client (Input.resourceGroup inputs)
                   (Input.environmentName inputs) jn
                   (Main.job_options inputs))) as [[]|error|];
    cbn [fst snd]; [|now split|now split].
  rewrite !map_app, Htr. now split.
Qed.

(** X28: given the same provider answers, the values of the
    environment-variables, secrets and registry-password inputs reach
    nothing but the document submitted by the create call.  From the
    announcement to the end of the [catch] block, a run with other values
    for them (as long as they are [null] in the same cases, which is when
    the assembler throws) leaves the same events in the same order, the
    document of the create call apart, and ends the same way: no log
    line, output, failure message or other remote call depends on
    them. *)
Theorem X28_secret_values_reach_only_the_document
    (w : World) (fuel : nat) (client : Client) (vars : Main.Vars)
    (inputs : Input.Inputs) (jn : string)
    (environmentVariables secrets : JsVal) (registryPassword : string) :
  is_null (Input.environmentVariables inputs)
  || is_null (Input.secrets inputs)
  = is_null environmentVariables || is_null secrets ->
  let attempt := fun given : Input.Inputs =>
    Eff.try_catch
      (Main.announce given jn ;;
       Main.run_with_client w fuel client given jn)
      (Main.run_catch w vars) in
  let inputs' :=
    with_secret_values inputs environmentVariables secrets
                       registryPassword in
  map hide_document (fst (attempt inputs'))
  = map hide_document (fst (attempt inputs))
  /\ snd (attempt inputs') = snd (attempt inputs).
Proof.
  intros Hnull attempt inputs'. unfold attempt.
  destruct (secret_values_in_the_body w fuel client inputs jn
              environmentVariables secrets registryPassword Hnull)
    as (Ha & Htr & Hout).
  fold inputs' in Ha, Htr, Hout.
  rewrite Ha, !try_catch_cases, !bind_cases, announce_returns.
  cbn [fst snd]. rewrite Hout.
  destruct (snd (Main.run_with_client w fuel client inputs jn))
    as [[]|error|]; cbn [fst snd]; rewrite !map_app, Htr; now split.
Qed.

Lemma X28_secret_values_reach_only_the_document_witness :
  let inputs := SampleRuns.inputs_of SampleWorld.create_fails in
  let inputs' :=
    with_secret_values inputs (JObj [("GREETING", JStr "hello")])
                       (JObj [("API_KEY", JStr "https://vault/key")])
                       "hunter2" in
  let attempt := fun given : Input.Inputs =>
    Eff.try_catch
      (Main.announce given "job-1" ;;
       Main.run_with_client SampleWorld.create_fails 5 (mkClient "sub")
                            given "job-1")
      (Main.run_catch SampleWorld.create_fails
                      (fst SampleWorld.create_fails_try)) in
  map hide_document (fst (attempt inputs'))
  = map hide_document (fst (attempt inputs)).
Proof.
  intros inputs inputs' attempt.
  destruct (X28_secret_values_reach_only_the_document
              SampleWorld.create_fails 5 (mkClient "sub")
              (fst SampleWorld.create_fails_try) inputs "job-1"
              (JObj [("GREETING", JStr "hello")])
              (JObj [("API_KEY", JStr "https://vault/key")])
              "hunter2") as (H & _).
  - vm_compute. reflexivity.
  - exact H.
Defined.
